(** * Prompt store, date normaliser and sidebar of the prompt-helper

    A shallow embedding of [lib/dateUtils] (getValidDate,
    getValidDateWithFallback, restoreDateFromStorage, dateToISOString,
    dateFromISOString, isValidDate, compareDates, formatRelativeDate,
    formatDateForDisplay, getDateForFilename), of [lib/storage]
    (storageUtils: savePrompts, getPrompts, addPrompt, updatePrompt,
    deletePrompt, reorderPrompts, exportPrompts, importPrompts), and of
    what the sidebar computes around them: the sort of loadPrompts, the
    filtered view, the tags of the form, handleSubmit, handleDelete and
    the list that a drag hands to reorderPrompts.

    JavaScript values are untyped at run time, so the store is modelled on
    untyped values: the TypeScript interface [Prompt] is a record that is
    embedded into objects, and the theorems about well-typed records are
    stated through that embedding.

    A computation runs in a world that holds the two storage back ends
    ([chrome.storage.local] and [localStorage], each at the one key the
    store uses), tells which of their calls fail, and gives the readings of
    the clock.  What belongs to the JavaScript engine and not to this code
    (the date parser, the ISO text of a date, [toString] of an object, the
    localised text of a date, the decimal text of a fraction) is a
    parameter, classes [Engine] and [Intl].
    The calls to [console], the React state and the steps on the document
    by which [exportPrompts] starts the download are left out. *)

From Stdlib Require Import ZArith Lia DecimalString DecimalZ.
From stdpp Require Import base option list strings pretty sorting.

(** ** Numbers

    A JavaScript number is a double: NaN, one of the two infinities, or a
    finite value, which is a fraction with a power of two below.  A finite
    value is [Fin z] when it is the integer [z], and [Frac h e] when it is
    not an integer: the fraction (2h+1)/2^e, which is in lowest terms.
    The two zeros are one value: the code has no operation that tells
    them apart.

    The order is the exact one.  A sum or a product of two integers is the
    integers' (time values, order indices and counters are integers, and
    the doubles agree with the integers as long as the result stays within
    2^53); a sum, product or quotient with a fraction in it is rounded to
    the nearest double. *)

Inductive number :=
| NaN
| PosInf
| NegInf
| Fin (z : Z)
| Frac (h : Z) (e : positive).

#[global] Instance number_eq_dec : EqDecision number.
Proof. solve_decision. Defined.

(** [k / 2^e] in lowest terms. *)
Fixpoint dyadic (k : Z) (e : nat) : number :=
  match e with
  | O => Fin k
  | S e' =>
      if Z.even k then dyadic (k / 2) e'
      else Frac (k / 2) (Pos.of_succ_nat e')
  end.

(** The double nearest to the fraction [p / q], for [0 < q]: 53
    significant bits, no bit below 2^-1074, a tie goes to the even
    significand, and what rounds to 2^1024 or beyond is an infinity. *)
Definition round_ratio (p q : Z) : number :=
  if (p =? 0)%Z then Fin 0
  else
    let a := Z.abs p in
    let d := (Z.log2 a - Z.log2 q)%Z in
    let above :=
      if (0 <=? d)%Z then (q * 2 ^ d <=? a)%Z else (q <=? a * 2 ^ (- d))%Z in
    (* 2^x <= a / q < 2^(x+1) *)
    let x := if above then d else (d - 1)%Z in
    (* the weight of the last bit that is kept *)
    let E := Z.max (x - 52) (-1074) in
    let N := if (0 <=? E)%Z then a else (a * 2 ^ (- E))%Z in
    let D := if (0 <=? E)%Z then (q * 2 ^ E)%Z else q in
    let k := (N / D)%Z in
    let r := (N mod D)%Z in
    let k' :=
      if (2 * r <? D)%Z then k
      else if (D <? 2 * r)%Z then (k + 1)%Z
      else if Z.even k then k else (k + 1)%Z in
    let m := if (0 <? p)%Z then k' else (- k')%Z in
    if (0 <=? E)%Z then
      if (2 ^ 1024 <=? k' * 2 ^ E)%Z
      then (if (0 <? p)%Z then PosInf else NegInf)
      else Fin (m * 2 ^ E)
    else dyadic m (Z.to_nat (- E)).

Definition isNaN (n : number) : bool :=
  match n with NaN => true | _ => false end.

Definition isFinite (n : number) : bool :=
  match n with Fin _ | Frac _ _ => true | _ => false end.

(** [a < b] *)
Definition num_lt (a b : number) : bool :=
  match a, b with
  | NaN, _ | _, NaN => false
  | Fin x, Fin y => (x <? y)%Z
  | Fin x, Frac h e => (x * 2 ^ Z.pos e <? 2 * h + 1)%Z
  | Frac h e, Fin y => (2 * h + 1 <? y * 2 ^ Z.pos e)%Z
  | Frac h e, Frac h' e' =>
      ((2 * h + 1) * 2 ^ Z.pos e' <? (2 * h' + 1) * 2 ^ Z.pos e)%Z
  | NegInf, NegInf => false
  | NegInf, _ => true
  | _, NegInf => false
  | PosInf, _ => false
  | _, PosInf => true
  end.

(** [a > b] *)
Definition num_gt (a b : number) : bool := num_lt b a.

Definition num_neg (a : number) : number :=
  match a with
  | NaN => NaN
  | PosInf => NegInf
  | NegInf => PosInf
  | Fin x => Fin (- x)
  | Frac h e => Frac (- h - 1) e
  end.

(** [a + b] *)
Definition num_add (a b : number) : number :=
  match a, b with
  | NaN, _ | _, NaN => NaN
  | Fin x, Fin y => Fin (x + y)
  | Fin x, Frac h e | Frac h e, Fin x =>
      round_ratio (x * 2 ^ Z.pos e + (2 * h + 1)) (2 ^ Z.pos e)
  | Frac h e, Frac h' e' =>
      round_ratio ((2 * h + 1) * 2 ^ Z.pos e' + (2 * h' + 1) * 2 ^ Z.pos e)
        (2 ^ Z.pos e * 2 ^ Z.pos e')
  | PosInf, NegInf | NegInf, PosInf => NaN
  | PosInf, _ | _, PosInf => PosInf
  | NegInf, _ | _, NegInf => NegInf
  end.

(** [a - b] *)
Definition num_sub (a b : number) : number := num_add a (num_neg b).

(** [a * b] *)
Definition num_mul (a b : number) : number :=
  match a, b with
  | NaN, _ | _, NaN => NaN
  | Fin x, Fin y => Fin (x * y)
  | Fin x, Frac h e | Frac h e, Fin x =>
      round_ratio (x * (2 * h + 1)) (2 ^ Z.pos e)
  | Frac h e, Frac h' e' =>
      round_ratio ((2 * h + 1) * (2 * h' + 1)) (2 ^ Z.pos e * 2 ^ Z.pos e')
  | Fin x, inf | inf, Fin x =>
      if (x =? 0)%Z then NaN
      else if (0 <? x)%Z then inf else num_neg inf
  | Frac h e, inf | inf, Frac h e =>
      if (0 <=? h)%Z then inf else num_neg inf
  | PosInf, PosInf | NegInf, NegInf => PosInf
  | PosInf, NegInf | NegInf, PosInf => NegInf
  end.

(** [Math.max(...xs)]: -Infinity on no argument, NaN as soon as one
    argument is NaN. *)
Definition num_max (a b : number) : number :=
  match a, b with
  | NaN, _ | _, NaN => NaN
  | _, _ => if num_lt a b then b else a
  end.

Definition Math_max (xs : list number) : number := foldr num_max NegInf xs.

(** [Math.floor(a)] *)
Definition Math_floor (a : number) : number :=
  match a with
  | Frac h e => Fin ((2 * h + 1) / 2 ^ Z.pos e)
  | _ => a
  end.

(** ** Dates

    A [Date] object holds a time value: NaN (an invalid date) or an
    integral number of milliseconds within 8.64e15 of the epoch. *)

Inductive Date :=
| InvalidDate
| Instant (t : Z).

#[global] Instance Date_eq_dec : EqDecision Date.
Proof. solve_decision. Defined.

Definition max_time : Z := 8640000000000000.

(** The clipping every [new Date(v)] applies to its time value: a number
    beyond the range is no time value, and a fraction within it loses what
    is behind the point. *)
Definition TimeClip (n : number) : Date :=
  match n with
  | Fin z => if (Z.abs z <=? max_time)%Z then Instant z else InvalidDate
  | Frac h e =>
      if (Z.abs (2 * h + 1) <=? max_time * 2 ^ Z.pos e)%Z
      then Instant (Z.quot (2 * h + 1) (2 ^ Z.pos e))
      else InvalidDate
  | _ => InvalidDate
  end.

Definition getTime (d : Date) : number :=
  match d with
  | InvalidDate => NaN
  | Instant t => Fin t
  end.

(** ** Values

    [json] is what the two storage back ends and an import file can hold;
    [value] is what lives in memory, where dates are objects and
    [undefined] exists.  A number in [json] is finite: the integer
    [JNum z] or the fraction [JFrac h e], which is (2h+1)/2^e.  An object
    is the list of its own properties in insertion order. *)

#[warnings="-register-all"]
Inductive json :=
| JNull
| JBool (b : bool)
| JNum (z : Z)
| JFrac (h : Z) (e : positive)
| JStr (s : string)
| JArr (items : list json)
| JObj (props : list (string * json)).

#[warnings="-register-all"]
Inductive value :=
| VUndef
| VNull
| VBool (b : bool)
| VNum (n : number)
| VStr (s : string)
| VDate (d : Date)
| VArr (items : list value)
| VObj (props : list (string * value)).

(** ** Strings *)

(** White space and line terminators among the character codes below
    256. *)
Definition is_white (c : Ascii.ascii) : bool :=
  let n := Ascii.nat_of_ascii c in
  ((9 <=? n) && (n <=? 13)) || (n =? 32) || (n =? 160).

Fixpoint trimStart (s : string) : string :=
  match s with
  | EmptyString => EmptyString
  | String c s' => if is_white c then trimStart s' else s
  end.

(** [s.trim()] *)
Definition trim (s : string) : string :=
  String.rev (trimStart (String.rev (trimStart s))).

(** ** The engine *)

(** What the store takes from the JavaScript engine rather than from its
    own code. *)
Class Engine := {
  (** [Date.parse]: NaN or a time value; the accepted formats beyond the
      ISO one are the engine's choice. *)
  Date_parse : string → number;
  (** [Date.prototype.toISOString] of a valid time value. *)
  toISOString : Z → string;
  (** [v.toString()] of an array or a plain object; [None] when the call
      throws. *)
  toString : value → option string;
  (** [ToNumber] of a string, an array or a plain object. *)
  coerce_number : value → number;
  (** The message text of a [TypeError], [SyntaxError] or [RangeError]
      that the engine itself raises. *)
  builtin_message : string → string;
}.

(** What the language standard guarantees of the ISO text of a time value:
    it is not blank, and parsing it gives the time value back. *)
Class EngineLaws (E : Engine) := {
  toISOString_not_blank : ∀ t : Z, trim (toISOString t) ≠ "";
  parse_toISOString :
    ∀ t : Z, (Z.abs t <= max_time)%Z → Date_parse (toISOString t) = Fin t;
}.

(** ** dateUtils *)

Section dateUtils.
Context {E : Engine}.

(** [new Date(s)] on a string. *)
Definition Date_of_string (s : string) : Date := TimeClip (Date_parse s).

(** [getValidDate(dateInput)]: [None] is the [null] result. *)
Definition getValidDate (dateInput : value) : option Date :=
  match dateInput with
  | VUndef | VNull => None
  | VDate d => if isNaN (getTime d) then None else Some d
  | VStr s =>
      if decide (trim s = "") then None
      else
        let parsed := Date_of_string s in
        if isNaN (getTime parsed) then None else Some parsed
  | VNum n =>
      if negb (isFinite n) || num_lt n (Fin 0) then None
      else
        let timestamp :=
          if num_lt n (Fin 10000000000) then num_mul n (Fin 1000) else n in
        let parsed := TimeClip timestamp in
        if isNaN (getTime parsed) then None else Some parsed
  | _ => None
  end.

End dateUtils.

(** ** Property access, truthiness and equality *)

(** What a [throw] carries. *)
Inductive exn :=
| TypeError
| SyntaxError
| RangeError
| Error (message : string)
| NonError.

#[global] Instance exn_eq_dec : EqDecision exn.
Proof. solve_decision. Defined.

Inductive result (A : Type) :=
| Ok (a : A)
| Throw (e : exn).
Arguments Ok {A} a.
Arguments Throw {A} e.

Definition props := list (string * value).

Fixpoint lookup_prop (k : string) (o : props) : value :=
  match o with
  | [] => VUndef
  | (k', v) :: o' => if decide (k' = k) then v else lookup_prop k o'
  end.

(** [o[k] = v] on the own properties: an existing key keeps its place. *)
Fixpoint set_prop (k : string) (v : value) (o : props) : props :=
  match o with
  | [] => [(k, v)]
  | (k', v') :: o' =>
      if decide (k' = k) then (k, v) :: o' else (k', v') :: set_prop k v o'
  end.

Fixpoint chars (s : string) : list value :=
  match s with
  | EmptyString => []
  | String c s' => VStr (String c EmptyString) :: chars s'
  end.

Definition indexed (items : list value) : props :=
  imap (λ i x, (pretty i, x)) items.

(** The own enumerable properties that a spread [{...v}] copies. *)
Definition own_props (v : value) : props :=
  match v with
  | VObj o => o
  | VArr items => indexed items
  | VStr s => indexed (chars s)
  | _ => []
  end.

(** [v.k], for the property names the store reads (none of them is an
    index or [length], and no prototype defines one of them). *)
Definition prop (v : value) (k : string) : result value :=
  match v with
  | VUndef | VNull => Throw TypeError
  | VObj o => Ok (lookup_prop k o)
  | _ => Ok VUndef
  end.

Definition truthy (v : value) : bool :=
  match v with
  | VUndef | VNull => false
  | VBool b => b
  | VNum NaN => false
  | VNum (Fin z) => negb (z =? 0)%Z
  | VNum _ => true
  | VStr s => negb (bool_decide (s = ""))
  | VDate _ | VArr _ | VObj _ => true
  end.

(** [a === b].  An object, array or date is equal to itself only, and the
    two sides of every comparison of the store come from separate
    deserialisations, so they never are the same object. *)
Definition strict_eq (a b : value) : bool :=
  match a, b with
  | VUndef, VUndef | VNull, VNull => true
  | VBool x, VBool y => bool_decide (x = y)
  | VNum (Fin x), VNum (Fin y) => (x =? y)%Z
  | VNum (Frac h e), VNum (Frac h' e') => (h =? h')%Z && (e =? e')%positive
  | VNum PosInf, VNum PosInf | VNum NegInf, VNum NegInf => true
  | VStr x, VStr y => bool_decide (x = y)
  | _, _ => false
  end.

Definition isArray (v : value) : bool :=
  match v with VArr _ => true | _ => false end.

(** ** Serialisation *)

Fixpoint of_json (j : json) : value :=
  match j with
  | JNull => VNull
  | JBool b => VBool b
  | JNum z => VNum (Fin z)
  | JFrac h e => VNum (Frac h e)
  | JStr s => VStr s
  | JArr items => VArr (map of_json items)
  | JObj o => VObj (map (λ kv, (kv.1, of_json kv.2)) o)
  end.

Section serialise.
Context {E : Engine}.
(** How the back end writes a date object that is left in the data. *)
Variable date_json : Date → json.

(** [None] is the [undefined] that an array turns into [null] and an
    object leaves out. *)
Fixpoint to_json (v : value) : option json :=
  match v with
  | VUndef => None
  | VNull => Some JNull
  | VBool b => Some (JBool b)
  | VNum (Fin z) => Some (JNum z)
  | VNum (Frac h e) => Some (JFrac h e)
  | VNum _ => Some JNull
  | VStr s => Some (JStr s)
  | VDate d => Some (date_json d)
  | VArr items => Some (JArr (map (λ x, default JNull (to_json x)) items))
  | VObj o =>
      Some (JObj (omap (λ kv, match to_json kv.2 with
                              | Some j => Some (kv.1, j)
                              | None => None
                              end) o))
  end.

Definition array_json (items : list value) : json :=
  JArr (map (λ x, default JNull (to_json x)) items).

End serialise.

(** [JSON.stringify] calls [toJSON] on a date: its ISO text, or [null]
    when the date is invalid. *)
Definition toJSON {E : Engine} (d : Date) : json :=
  match d with
  | InvalidDate => JNull
  | Instant t => JStr (toISOString t)
  end.

(** [chrome.storage] writes a date object as an empty object. *)
Definition chrome_date (d : Date) : json := JObj [].

(** A string held by [localStorage] or read from a file: identified by
    what [JSON.parse] makes of it. *)
Inductive text :=
| EmptyText
| JsonText (j : json)
| BadText.

Definition JSON_stringify {E : Engine} (items : list value) : text :=
  JsonText (array_json toJSON items).

Definition JSON_parse (t : text) : result value :=
  match t with
  | JsonText j => Ok (of_json j)
  | EmptyText | BadText => Throw SyntaxError
  end.

(** ** The world: two back ends, their failures, and the clock *)

(** The one key under which both back ends hold the collection; the world
    records each back end at this key only. *)
Definition STORAGE_KEY : string := "prompt_templates".

Record world := World {
  (** [typeof chrome !== "undefined" && chrome.storage] *)
  chrome_api : bool;
  (** what [chrome.storage.local] holds under [STORAGE_KEY] *)
  chrome_item : option json;
  (** what [localStorage] holds under [STORAGE_KEY] *)
  local_item : option text;
  (** the outcome of the n-th call to a back end: [Some e] makes it throw *)
  fault : nat → option exn;
  calls : nat;
  (** the reading of the n-th look at the clock, in milliseconds *)
  clock : nat → Z;
  ticks : nat;
}.

Definition set_chrome_item (c : option json) (w : world) : world :=
  World (chrome_api w) c (local_item w) (fault w) (calls w) (clock w) (ticks w).
Definition set_local_item (l : option text) (w : world) : world :=
  World (chrome_api w) (chrome_item w) l (fault w) (calls w) (clock w) (ticks w).
Definition next_call (w : world) : world :=
  World (chrome_api w) (chrome_item w) (local_item w) (fault w) (S (calls w))
    (clock w) (ticks w).
Definition next_tick (w : world) : world :=
  World (chrome_api w) (chrome_item w) (local_item w) (fault w) (calls w)
    (clock w) (S (ticks w)).

(** A computation reads and writes the world and returns or throws; the
    world it leaves is kept when it throws. *)
Definition M (A : Type) : Type := world → result A * world.

#[global] Instance M_ret : MRet M := λ A a w, (Ok a, w).
#[global] Instance M_bind : MBind M := λ A B f m w,
  match m w with
  | (Ok a, w') => f a w'
  | (Throw e, w') => (Throw e, w')
  end.

Definition throw {A} (e : exn) : M A := λ w, (Throw e, w).

Definition lift {A} (r : result A) : M A := λ w, (r, w).

(** [try { m } catch (error) { h error }] *)
Definition try_catch {A} (m : M A) (h : exn → M A) : M A := λ w,
  match m w with
  | (Ok a, w') => (Ok a, w')
  | (Throw e, w') => h e w'
  end.

Definition gets {A} (f : world → A) : M A := λ w, (Ok (f w), w).

Definition modify (f : world → world) : M unit := λ w, (Ok (), f w).

(** [new Date()] *)
Definition new_Date : M Date := λ w,
  (Ok (Instant (clock w (ticks w))), next_tick w).

(** [Date.now()] *)
Definition Date_now : M Z := λ w, (Ok (clock w (ticks w)), next_tick w).

(** Entering a back end: the call throws when the world says so. *)
Definition backend : M unit := λ w,
  match fault w (calls w) with
  | Some e => (Throw e, next_call w)
  | None => (Ok (), next_call w)
  end.

Definition has_chrome_storage : M bool := gets chrome_api.

(** [chrome.storage.local.get(STORAGE_KEY)], then [result[STORAGE_KEY]] *)
Definition chrome_storage_get : M value :=
  backend;;
  gets (λ w, match chrome_item w with Some j => of_json j | None => VUndef end).

(** [chrome.storage.local.set({ [STORAGE_KEY]: items })] *)
Definition chrome_storage_set (items : list value) : M unit :=
  backend;; modify (set_chrome_item (Some (array_json chrome_date items))).

(** [localStorage.getItem(STORAGE_KEY)] *)
Definition localStorage_getItem : M (option text) :=
  backend;; gets local_item.

(** [localStorage.setItem(STORAGE_KEY, t)] *)
Definition localStorage_setItem (t : text) : M unit :=
  backend;; modify (set_local_item (Some t)).

(** ** Array methods with a callback that may throw *)

Section arrays.
Context {A B : Type}.

Fixpoint Array_map_from (i : nat) (f : A → nat → M B) (l : list A)
  : M (list B) :=
  match l with
  | [] => mret []
  | x :: l' =>
      y ← f x i;
      ys ← Array_map_from (S i) f l';
      mret (y :: ys)
  end.

(** [l.map((x, index) => f x index)] *)
Definition Array_mapi (f : A → nat → M B) (l : list A) : M (list B) :=
  Array_map_from 0 f l.

(** [l.map(f)] *)
Definition Array_map (f : A → M B) (l : list A) : M (list B) :=
  Array_mapi (λ x _, f x) l.

(** [l.filter(f)] *)
Fixpoint Array_filter (f : A → M bool) (l : list A) : M (list A) :=
  match l with
  | [] => mret []
  | x :: l' =>
      keep ← f x;
      xs ← Array_filter f l';
      mret (if keep : bool then x :: xs else xs)
  end.

(** [l.some(f)] *)
Fixpoint Array_some (f : A → M bool) (l : list A) : M bool :=
  match l with
  | [] => mret false
  | x :: l' =>
      found ← f x;
      if found : bool then mret true else Array_some f l'
  end.

Fixpoint Array_findIndex_from (i : nat) (f : A → M bool) (l : list A)
  : M (option nat) :=
  match l with
  | [] => mret None
  | x :: l' =>
      found ← f x;
      if found : bool then mret (Some i) else Array_findIndex_from (S i) f l'
  end.

(** [l.findIndex(f)]: [None] is the result -1. *)
Definition Array_findIndex (f : A → M bool) (l : list A) : M (option nat) :=
  Array_findIndex_from 0 f l.

End arrays.

(** ** dateUtils, the part that reads the clock *)

Section dateUtils_clock.
Context {E : Engine}.

(** [getValidDateWithFallback(dateInput)]: [validDate || new Date()] *)
Definition getValidDateWithFallback (dateInput : value) : M Date :=
  match getValidDate dateInput with
  | Some validDate => mret validDate
  | None => new_Date
  end.

(** [date.toISOString()], which throws on an invalid date. *)
Definition Date_toISOString (date : Date) : M string :=
  match date with
  | Instant t => mret (toISOString t)
  | InvalidDate => throw RangeError
  end.

(** [dateToISOString(dateInput)] *)
Definition dateToISOString (dateInput : value) : M string :=
  date ← getValidDateWithFallback dateInput;
  Date_toISOString date.

(** [createCurrentDate()] *)
Definition createCurrentDate : M Date := new_Date.

(** [restoreDateFromStorage(storedDate)].  In the branch of objects, the
    test [typeof storedDate.getTime === "function"] fails on every value of
    the model, and the call [storedDate.toISOString()] behind
    [storedDate._isAMomentObject || storedDate.toISOString] throws into its
    own empty [catch], since no value of the model holds a function; what
    is left of the branch is the attempt on [storedDate.toString()]. *)
Definition restoreDateFromStorage (storedDate : value) : M Date :=
  match storedDate with
  | VUndef | VNull => new_Date
  | VDate d => if isNaN (getTime d) then new_Date else mret d
  | VStr _ =>
      match getValidDate storedDate with
      | Some parsed => mret parsed
      | None => new_Date
      end
  | VArr _ | VObj _ =>
      match toString storedDate with
      | Some dateStr =>
          match getValidDate (VStr dateStr) with
          | Some parsed => mret parsed
          | None => new_Date
          end
      | None => new_Date
      end
  | VNum _ =>
      match getValidDate storedDate with
      | Some parsed => mret parsed
      | None => new_Date
      end
  | VBool _ => new_Date
  end.

End dateUtils_clock.

(** ** storageUtils *)

Section storageUtils.
Context {E : Engine}.

(** The element that [savePrompts] maps a prompt to:
    [{...prompt, createdAt: dateToISOString(prompt.createdAt),
      updatedAt: dateToISOString(prompt.updatedAt)}] *)
Definition serialize_prompt (prompt : value) : M value :=
  createdAt ← (c ← lift (prop prompt "createdAt"); dateToISOString c);
  updatedAt ← (u ← lift (prop prompt "updatedAt"); dateToISOString u);
  mret (VObj (set_prop "updatedAt" (VStr updatedAt)
               (set_prop "createdAt" (VStr createdAt) (own_props prompt)))).

Definition savePrompts (prompts : list value) : M unit :=
  try_catch
    (serializedPrompts ← Array_map serialize_prompt prompts;
     api ← has_chrome_storage;
     if api : bool then chrome_storage_set serializedPrompts
     else localStorage_setItem (JSON_stringify serializedPrompts))
    (λ error,
     serializedPrompts ← Array_map serialize_prompt prompts;
     localStorage_setItem (JSON_stringify serializedPrompts)).

(** The element that [getPrompts] maps a stored prompt to:
    [{...prompt, createdAt: restoreDateFromStorage(prompt.createdAt),
      updatedAt: restoreDateFromStorage(prompt.updatedAt)}] *)
Definition restore_prompt (prompt : value) : M value :=
  createdAt ← (c ← lift (prop prompt "createdAt"); restoreDateFromStorage c);
  updatedAt ← (u ← lift (prop prompt "updatedAt"); restoreDateFromStorage u);
  mret (VObj (set_prop "updatedAt" (VDate updatedAt)
               (set_prop "createdAt" (VDate createdAt) (own_props prompt)))).

(** [rawPrompts.map(f)]: only an array has the method. *)
Definition call_map (rawPrompts : value) (f : value → M value)
  : M (list value) :=
  match rawPrompts with
  | VArr items => Array_map f items
  | _ => throw TypeError
  end.

(** [stored ? JSON.parse(stored) : []] *)
Definition parse_stored (stored : option text) : M value :=
  match stored with
  | None | Some EmptyText => mret (VArr [])
  | Some t => lift (JSON_parse t)
  end.

Definition getPrompts : M (list value) :=
  try_catch
    (api ← has_chrome_storage;
     rawPrompts ←
       (if api : bool then
          item ← chrome_storage_get;
          mret (if truthy item then item else VArr [])
        else
          stored ← localStorage_getItem;
          parse_stored stored);
     call_map rawPrompts restore_prompt)
    (λ error,
     stored ← localStorage_getItem;
     rawPrompts ← parse_stored stored;
     call_map rawPrompts restore_prompt).

Definition addPrompt (prompt : value) : M unit :=
  prompts ← getPrompts;
  savePrompts (prompts ++ [prompt]).

(** [p.id === updatedPrompt.id] *)
Definition same_id (updatedPrompt p : value) : M bool :=
  a ← lift (prop p "id");
  b ← lift (prop updatedPrompt "id");
  mret (strict_eq a b).

Definition updatePrompt (updatedPrompt : value) : M unit :=
  prompts ← getPrompts;
  index ← Array_findIndex (same_id updatedPrompt) prompts;
  match index with
  | Some index => savePrompts (<[index := updatedPrompt]> prompts)
  | None => mret ()
  end.

Definition deletePrompt (promptId : string) : M unit :=
  prompts ← getPrompts;
  filtered ←
    Array_filter
      (λ p, a ← lift (prop p "id"); mret (negb (strict_eq a (VStr promptId))))
      prompts;
  savePrompts filtered.

(** [reorderedPrompts.map((prompt, index) => ({...prompt, order: index}))] *)
Definition promptsWithOrder (reorderedPrompts : list value) : list value :=
  imap (λ index prompt,
          VObj (set_prop "order" (VNum (Fin (Z.of_nat index)))
                  (own_props prompt)))
       reorderedPrompts.

Definition reorderPrompts (reorderedPrompts : list value) : M unit :=
  savePrompts (promptsWithOrder reorderedPrompts).

End storageUtils.

(** ** Import *)

(** A chosen file: reading it fails, or gives its text. *)
Inductive File :=
| Unreadable (e : exn)
| Readable (t : text).

(** The value [importPrompts] resolves to. *)
Record ImportResult := {
  success : bool;
  imported : nat;
  message : string;
}.

Section importPrompts.
Context {E : Engine}.

(** [file.text()] *)
Definition File_text (file : File) : M text :=
  match file with
  | Unreadable e => throw e
  | Readable t => mret t
  end.

Definition ToNumber (v : value) : number :=
  match v with
  | VUndef => NaN
  | VNull => Fin 0
  | VBool b => Fin (if b then 1 else 0)
  | VNum n => n
  | VDate d => getTime d
  | VStr _ | VArr _ | VObj _ => coerce_number v
  end.

(** [existing.title === prompt.title && existing.content === prompt.content] *)
Definition same_text (prompt existing : value) : M bool :=
  et ← lift (prop existing "title");
  pt ← lift (prop prompt "title");
  if strict_eq et pt then
    ec ← lift (prop existing "content");
    pc ← lift (prop prompt "content");
    mret (strict_eq ec pc)
  else mret false.

(** The callback of the filter, apart from its counting: the basic
    validation, then the search for a duplicate. *)
Definition is_new (existingPrompts : list value) (prompt : value) : M bool :=
  id ← lift (prop prompt "id");
  if negb (truthy id) then mret false else
  title ← lift (prop prompt "title");
  if negb (truthy title) then mret false else
  content ← lift (prop prompt "content");
  if negb (truthy content) then mret false else
  isDuplicate ← Array_some (same_text prompt) existingPrompts;
  mret (negb isDuplicate).

(** [importData.prompts.filter(...)], threading [importedCount], which the
    callback increments each time it keeps a prompt. *)
Fixpoint filter_new (existingPrompts : list value) (candidates : list value)
    (importedCount : nat) : M (list value * nat) :=
  match candidates with
  | [] => mret ([], importedCount)
  | prompt :: candidates' =>
      keep ← is_new existingPrompts prompt;
      let importedCount :=
        if keep : bool then S importedCount else importedCount in
      rest ← filter_new existingPrompts candidates' importedCount;
      mret (if keep : bool then prompt :: rest.1 else rest.1, rest.2)
  end.

(** The callback that builds [promptsToAdd]. *)
Definition imported_prompt (maxOrder : number) (prompt : value) (index : nat)
  : M value :=
  now ← createCurrentDate;
  pid ← lift (prop prompt "id");
  id ← (if truthy pid then mret pid
        else
          ms ← Date_now;
          mret (VStr ("imported-" +:+ pretty ms +:+ "-" +:+ pretty index)));
  let order := num_add (num_add maxOrder (Fin 1)) (Fin (Z.of_nat index)) in
  c ← lift (prop prompt "createdAt");
  u ← lift (prop prompt "updatedAt");
  tags ← lift (prop prompt "tags");
  mret (VObj
          (set_prop "tags" (if isArray tags then tags else VArr [])
          (set_prop "updatedAt" (VDate (default now (getValidDate u)))
          (set_prop "createdAt" (VDate (default now (getValidDate c)))
          (set_prop "order" (VNum order)
          (set_prop "id" id (own_props prompt))))))).

(** [error instanceof Error ? error.message : ...] *)
Definition message_of (error : exn) : option string :=
  match error with
  | TypeError => Some (builtin_message "TypeError")
  | SyntaxError => Some (builtin_message "SyntaxError")
  | RangeError => Some (builtin_message "RangeError")
  | Error m => Some m
  | NonError => None
  end.

Definition array_items (v : value) : list value :=
  match v with VArr items => items | _ => [] end.

Definition importPrompts (file : File) : M ImportResult :=
  try_catch
    (text ← File_text file;
     importData ← lift (JSON_parse text);
     candidates ← lift (prop importData "prompts");
     (if negb (truthy candidates) || negb (isArray candidates)
      then throw (Error "Invalid file format: missing prompts array")
      else mret ());;
     existingPrompts ← getPrompts;
     kept ← filter_new existingPrompts (array_items candidates) 0;
     let newPrompts := kept.1 in
     let importedCount := kept.2 in
     (if bool_decide (0 < length newPrompts) then
        orders ← Array_map (λ p, lift (prop p "order")) existingPrompts;
        let maxOrder :=
          if bool_decide (0 < length existingPrompts)
          then Math_max (map ToNumber orders)
          else Fin (-1) in
        promptsToAdd ← Array_mapi (imported_prompt maxOrder) newPrompts;
        savePrompts (existingPrompts ++ promptsToAdd)
      else mret ());;
     mret {| success := true;
             imported := importedCount;
             message :=
               if bool_decide (0 < importedCount) then
                 "Successfully imported " +:+ pretty importedCount
                   +:+ " prompt"
                   +:+ (if bool_decide (1 < importedCount) then "s" else "")
               else "No new prompts to import (duplicates were skipped)" |})
    (λ error,
     mret {| success := false;
             imported := 0;
             message :=
               default "Failed to import prompts" (message_of error) |}).

End importPrompts.

(** ** The sidebar's load: [getPrompts], then [sort] by [order] *)

Section loadPrompts.
Context {E : Engine}.

(** [a.order - b.order] on two objects. *)
Definition by_order (a b : value) : number :=
  num_sub (ToNumber (lookup_prop "order" (own_props a)))
          (ToNumber (lookup_prop "order" (own_props b))).

(** [Array.prototype.sort] is stable: an element moves behind another one
    only when the comparison of the two is positive. *)
Fixpoint sort_insert (cmp : value → value → number) (x : value)
    (l : list value) : list value :=
  match l with
  | [] => [x]
  | y :: l' =>
      if num_gt (cmp x y) (Fin 0) then y :: sort_insert cmp x l'
      else x :: l
  end.

Definition Array_sort (cmp : value → value → number) (l : list value)
  : list value :=
  foldr (sort_insert cmp) [] l.

Definition loadPrompts : M (list value) :=
  loadedPrompts ← getPrompts;
  mret (Array_sort by_order loadedPrompts).

End loadPrompts.

(** ** Typed records

    The interface [Prompt], and its two shapes as a value: the object the
    sidebar hands to the store, and the element the store writes. *)

Record Prompt := {
  id : string;
  title : string;
  content : string;
  tags : list string;
  createdAt : Date;
  updatedAt : Date;
  order : Z;
}.

Definition prompt_value (p : Prompt) : value :=
  VObj [("id", VStr (id p));
        ("title", VStr (title p));
        ("content", VStr (content p));
        ("tags", VArr (map VStr (tags p)));
        ("createdAt", VDate (createdAt p));
        ("updatedAt", VDate (updatedAt p));
        ("order", VNum (Fin (order p)))].

Definition prompt_json {E : Engine} (p : Prompt) : json :=
  JObj [("id", JStr (id p));
        ("title", JStr (title p));
        ("content", JStr (content p));
        ("tags", JArr (map JStr (tags p)));
        ("createdAt", toJSON (createdAt p));
        ("updatedAt", toJSON (updatedAt p));
        ("order", JNum (order p))].

(** ** An engine to run the model on

    Its ISO text of a time value is the letter T followed by the decimal
    digits of the value; it parses nothing else. *)

Definition letter_T : Ascii.ascii := Ascii.ascii_of_nat 84.

Definition sample_toISOString (t : Z) : string :=
  String letter_T (NilEmpty.string_of_int (Z.to_int t)).

Definition sample_Date_parse (s : string) : number :=
  match s with
  | String c digits =>
      if decide (c = letter_T) then
        match NilEmpty.int_of_string digits with
        | Some d => Fin (Z.of_int d)
        | None => NaN
        end
      else NaN
  | EmptyString => NaN
  end.

Definition sample_engine : Engine := {|
  Date_parse := sample_Date_parse;
  toISOString := sample_toISOString;
  toString := λ _, Some "[object Object]";
  coerce_number := λ _, NaN;
  builtin_message := λ name, name;
|}.

(** A world without failures, whose clock advances for a while. *)
Definition calm (api : bool) (c : option json) (l : option text) : world :=
  World api c l (λ _, None) 0
    (λ n, (1700000000000 + Z.of_nat (Nat.min n 1000))%Z) 0.

Definition rec_a : Prompt :=
  {| id := "a"; title := "A"; content := "B"; tags := ["x"];
     createdAt := Instant 5; updatedAt := Instant 6; order := 0 |}.

Definition rec_b : Prompt :=
  {| id := "b"; title := "C"; content := "D"; tags := [];
     createdAt := Instant 7; updatedAt := Instant 8; order := 1 |}.

Definition item_a : json := prompt_json (E := sample_engine) rec_a.
Definition item_b : json := prompt_json (E := sample_engine) rec_b.

(** The primary store holds the record a. *)
Definition store_a : world := calm true (Some (JArr [item_a])) None.


(** A document with one record that repeats the id of a under another
    title. *)
Definition same_id_doc : json :=
  JObj [("prompts",
         JArr [JObj [("id", JStr "a"); ("title", JStr "Z");
                     ("content", JStr "B")]]);
        ("version", JStr "1.0")].

(** The primary read fails; the secondary store holds the record a. *)
Definition primary_down : world :=
  World true None (Some (JsonText (JArr [item_a])))
    (λ n, match n with 0 => Some (Error "chrome.storage is down") | _ => None end)
    0 (λ _, 1700000000000%Z) 0.


(** ** What the store holds, and well-formed prompts *)

Definition healthy (w : world) : Prop := ∀ n, fault w n = None.

(** The item of the back end in use, seen as a text. *)
Definition active_item (w : world) : option text :=
  if chrome_api w then JsonText <$> chrome_item w else local_item w.

(** The back end in use holds the array [items], or nothing at all. *)
Definition stored (w : world) (items : list json) : Prop :=
  active_item w = Some (JsonText (JArr items))
  ∨ (active_item w = None ∧ items = []).

(** Writing the array [items] to the back end in use. *)
Definition write_items (items : list json) (w : world) : world :=
  if chrome_api w then set_chrome_item (Some (JArr items)) w
  else set_local_item (Some (JsonText (JArr items))) w.

Fixpoint json_lookup (k : string) (o : list (string * json)) : option json :=
  match o with
  | [] => None
  | (k', j) :: o' => if decide (k' = k) then Some j else json_lookup k o'
  end.

(** [j.k] of a stored element. *)
Definition json_prop (j : json) (k : string) : option json :=
  match j with
  | JObj o => json_lookup k o
  | _ => None
  end.

Section canonical.
Context {E : Engine}.

Definition in_range (t : Z) : Prop := (Z.abs t <= max_time)%Z.

(** An element whose two timestamps are ISO texts. *)
Definition stamped (j : json) : Prop :=
  ∃ o tc tu,
    j = JObj o
    ∧ json_lookup "createdAt" o = Some (JStr (toISOString tc))
    ∧ json_lookup "updatedAt" o = Some (JStr (toISOString tu)).

(** An element as [savePrompts] writes it: an object whose two timestamps
    are the ISO texts of time values. *)
Definition canonical (j : json) : Prop :=
  ∃ o tc tu,
    j = JObj o ∧ NoDup o.*1
    ∧ json_lookup "createdAt" o = Some (JStr (toISOString tc))
    ∧ in_range tc
    ∧ json_lookup "updatedAt" o = Some (JStr (toISOString tu))
    ∧ in_range tu.

Definition is_json (v : value) : Prop := ∃ j, v = of_json j.

(** A prompt that [savePrompts] writes without a look at the clock: an
    object whose two timestamps are valid dates and whose other properties
    hold data only. *)
Definition savable (p : value) : Prop :=
  ∃ o tc tu,
    p = VObj o ∧ NoDup o.*1
    ∧ lookup_prop "createdAt" o = VDate (Instant tc)
    ∧ lookup_prop "updatedAt" o = VDate (Instant tu)
    ∧ Forall (λ kv, kv.1 = "createdAt" ∨ kv.1 = "updatedAt" ∨ is_json kv.2) o.

(** A prompt as [getPrompts] returns it from canonical elements. *)
Definition wf_prompt (p : value) : Prop :=
  ∃ o tc tu,
    p = VObj o ∧ NoDup o.*1
    ∧ lookup_prop "createdAt" o = VDate (Instant tc)
    ∧ in_range tc
    ∧ lookup_prop "updatedAt" o = VDate (Instant tu)
    ∧ in_range tu
    ∧ Forall (λ kv, kv.1 = "createdAt" ∨ kv.1 = "updatedAt" ∨ is_json kv.2) o.

(** The date that [restoreDateFromStorage] finds without the clock. *)
Definition restored_date (v : value) : Date :=
  default InvalidDate (getValidDate v).

(** What [getPrompts] makes of a stored element whose timestamps parse. *)
Definition load (j : json) : value :=
  let o := own_props (of_json j) in
  VObj (set_prop "updatedAt" (VDate (restored_date (lookup_prop "updatedAt" o)))
          (set_prop "createdAt"
             (VDate (restored_date (lookup_prop "createdAt" o))) o)).

(** The text that [dateToISOString] finds without the clock. *)
Definition iso_text (v : value) : string :=
  match getValidDate v with
  | Some (Instant t) => toISOString t
  | _ => ""
  end.

(** What [savePrompts] maps a prompt with valid timestamps to. *)
Definition serialized (p : value) : value :=
  let o := own_props p in
  VObj (set_prop "updatedAt" (VStr (iso_text (lookup_prop "updatedAt" o)))
          (set_prop "createdAt"
             (VStr (iso_text (lookup_prop "createdAt" o))) o)).

(** The element that is written for it. *)
Definition dump (p : value) : json :=
  default JNull (to_json toJSON (serialized p)).

End canonical.

(** ** Notions that the properties are stated with *)

Section notions.
Context {E : Engine}.

(** Replacing the value of every entry under a key. *)
Definition replace {V} (k : string) (v : V) (o : list (string * V))
  : list (string * V) :=
  map (λ kv, if decide (kv.1 = k) then (k, v) else kv) o.

Definition opt_value (j : option json) : value :=
  match j with Some x => of_json x | None => VUndef end.

Definition of_json_props (o : list (string * json)) : props :=
  map (λ kv, (kv.1, of_json kv.2)) o.

(** The two timestamps of a record are valid dates. *)
Definition valid_dates (r : Prompt) : Prop :=
  ∃ tc tu,
    createdAt r = Instant tc ∧ in_range tc
    ∧ updatedAt r = Instant tu ∧ in_range tu.

(** [p.id === i] *)
Definition has_id (i : string) (p : value) : bool :=
  strict_eq (lookup_prop "id" (own_props p)) (VStr i).


(** [existing.title === prompt.title && existing.content === prompt.content]
    on two objects. *)
Definition same_text_pure (prompt existing : value) : bool :=
  strict_eq (lookup_prop "title" (own_props existing))
            (lookup_prop "title" (own_props prompt))
  && strict_eq (lookup_prop "content" (own_props existing))
               (lookup_prop "content" (own_props prompt)).

(** What the callback of the filter answers on an object. *)
Definition is_new_pure (existingPrompts : list value) (prompt : value) : bool :=
  truthy (lookup_prop "id" (own_props prompt))
  && truthy (lookup_prop "title" (own_props prompt))
  && truthy (lookup_prop "content" (own_props prompt))
  && negb (existsb (same_text_pure prompt) existingPrompts).

Definition is_object (v : value) : Prop := ∃ o, v = VObj o.

(** What the callback that builds [promptsToAdd] returns for a prompt that
    has an id, when the clock reads [now]. *)
Definition imported_value (maxOrder : number) (now : Date)
    (prompt : value) (index : nat) : value :=
  let o := own_props prompt in
  let tags := lookup_prop "tags" o in
  VObj
    (set_prop "tags" (if isArray tags then tags else VArr [])
    (set_prop "updatedAt"
       (VDate (default now (getValidDate (lookup_prop "updatedAt" o))))
    (set_prop "createdAt"
       (VDate (default now (getValidDate (lookup_prop "createdAt" o))))
    (set_prop "order"
       (VNum (num_add (num_add maxOrder (Fin 1)) (Fin (Z.of_nat index))))
    (set_prop "id" (lookup_prop "id" o) o))))).

Fixpoint imported_values (maxOrder : number)
    (prompts : list value) (index : nat) (w : world) : list value :=
  match prompts with
  | [] => []
  | prompt :: prompts' =>
      imported_value maxOrder (Instant (clock w (ticks w))) prompt index
      :: imported_values maxOrder prompts' (S index) (next_tick w)
  end.

(** The order value that import continues from. *)
Definition max_order (orders : list Z) : Z :=
  match orders with
  | [] => -1
  | z :: orders' => foldr Z.max z orders'
  end.

(** An integer that doubles count without a gap: within
    [Number.MAX_SAFE_INTEGER], which is 2^53 - 1, of zero.  The sum of two
    such integers that is such an integer again is the sum that the
    engine computes. *)
Definition safe_integer (z : Z) : Prop := (Z.abs z <= 9007199254740991)%Z.

(** The two worlds differ in the counters of calls and clock readings at
    most. *)
Definition same_store (w w' : world) : Prop :=
  chrome_api w' = chrome_api w ∧ chrome_item w' = chrome_item w
  ∧ local_item w' = local_item w ∧ fault w' = fault w ∧ clock w' = clock w.

(** [m] moves every world along [R]. *)
Definition respects {A} (R : world → world → Prop) (m : M A) : Prop :=
  ∀ w, R w (m w).2.

(** Every value that [m] returns satisfies [Q]. *)
Definition post {A} (m : M A) (Q : A → Prop) : Prop :=
  ∀ w a w', m w = (Ok a, w') → Q a.

(** A prompt in the form that is handed to the back end. *)
Definition stamped_value (v : value) : Prop :=
  ∃ o tc tu,
    v = VObj o
    ∧ lookup_prop "createdAt" o = VStr (toISOString tc)
    ∧ lookup_prop "updatedAt" o = VStr (toISOString tu).

Definition stamped_chrome (c : option json) : Prop :=
  ∃ items, c = Some (JArr items) ∧ Forall stamped items.

Definition stamped_local (l : option text) : Prop :=
  ∃ items, l = Some (JsonText (JArr items)) ∧ Forall stamped items.

(** Each back end holds what it held, or an array of stamped elements. *)
Definition stamped_writes (w w' : world) : Prop :=
  (chrome_item w' = chrome_item w ∨ stamped_chrome (chrome_item w'))
  ∧ (local_item w' = local_item w ∨ stamped_local (local_item w')).

(** The mutating operations of the store, each with its argument. *)
Inductive op :=
| Create (prompt : value)
| Update (updatedPrompt : value)
| Delete (promptId : string)
| Reorder (reorderedPrompts : list value)
| Import (file : File).

Definition run_op (o : op) : M unit :=
  match o with
  | Create prompt => addPrompt prompt
  | Update updatedPrompt => updatePrompt updatedPrompt
  | Delete promptId => deletePrompt promptId
  | Reorder reorderedPrompts => reorderPrompts reorderedPrompts
  | Import file => importPrompts file;; mret ()
  end.

(** The world after a sequence of operations, whatever each one returned
    or threw. *)
Definition run_ops (ops : list op) (w : world) : world :=
  foldl (λ w o, (run_op o w).2) w ops.

(** Each back end holds nothing, or an array of stamped elements. *)
Definition stamped_store (w : world) : Prop :=
  (chrome_item w = None ∨ stamped_chrome (chrome_item w))
  ∧ (local_item w = None ∨ stamped_local (local_item w)).

(** A world in which both reads fail: [chrome.storage.local.get] rejects
    and [localStorage.getItem] throws. *)
Definition both_down : world :=
  World true None None
    (λ n, match n with
          | 0 => Some (Error "chrome.storage is down")
          | 1 => Some (Error "localStorage is down")
          | _ => None
          end)
    0 (λ _, 1700000000000%Z) 0.

(** The ids of the stored elements, in their sequence. *)
Definition ids (items : list json) : list (option json) :=
  map (λ j, json_prop j "id") items.

Definition numeric_order (j : json) : Prop :=
  ∃ z, json_prop j "order" = Some (JNum z).

(** A healthy world whose clock reads time values and whose store holds
    the canonical elements [items], each with an integer for order. *)
Definition tidy (w : world) (items : list json) : Prop :=
  healthy w ∧ (∀ n, in_range (clock w n)) ∧ stored w items
  ∧ Forall canonical items ∧ Forall numeric_order items.

(** The candidates of a document that import keeps. *)
Definition kept (items cands : list json) : list json :=
  List.filter (λ c, is_new_pure (map load items) (of_json c)) cands.

(** [l.findIndex(g)] for a callback that does not throw. *)
Fixpoint find_index {A} (g : A → bool) (l : list A) : option nat :=
  match l with
  | [] => None
  | x :: l' => if g x then Some 0 else S <$> find_index g l'
  end.

(** An operation under which the ids stay distinct: the record of a create
    carries an id that is not stored, a reorder hands over the listed
    prompts in some sequence, and the candidates that an import keeps
    carry ids that differ from one another and from the stored ones. *)
Definition admissible (items : list json) (o : op) : Prop :=
  match o with
  | Create prompt =>
      ∃ r, prompt = prompt_value r ∧ valid_dates r
           ∧ Some (JStr (id r)) ∉ ids items
  | Update updatedPrompt =>
      ∃ r, updatedPrompt = prompt_value r ∧ valid_dates r
  | Delete _ => True
  | Reorder reorderedPrompts => reorderedPrompts ≡ₚ map load items
  | Import file =>
      ∃ doc cands,
        file = Readable (JsonText (JObj doc))
        ∧ json_lookup "prompts" doc = Some (JArr cands)
        ∧ Forall (λ c, ∃ oc, c = JObj oc ∧ NoDup oc.*1) cands
        ∧ NoDup (ids items ++ ids (kept items cands))
  end.

(** A sequence of operations, each admissible on what is stored when its
    turn comes. *)
Inductive admissible_seq : world → list op → Prop :=
| admissible_nil w : admissible_seq w []
| admissible_cons w items o ops :
    stored w items → admissible items o →
    admissible_seq (run_op o w).2 ops →
    admissible_seq w (o :: ops).

(** The id that a prompt is written with. *)
Definition written_id (p : value) : option json :=
  to_json toJSON (lookup_prop "id" (own_props p)).

End notions.

(** ** dateUtils, the rest of the module *)

(** What [formatDateForDisplay] and [formatRelativeDate] take from the
    engine to put a date or a number into words. *)
Class Intl := {
  (** The text of a finite number that is not an integer ([Frac h e]) in
      a template literal: the shortest decimal digits that read back as
      this number. *)
  fraction_text : Z → positive → string;
  (** [date.toLocaleDateString(locale, formatOptions)] of a valid time
      value, where [formatOptions] asks for the year, the short month and the
      day, and for hour and minute when the flag is set; [None] when the
      call throws (a locale tag that the engine rejects). *)
  toLocaleDateString : Z → string → bool → option string;
}.

(** The [options] of [formatDateForDisplay]; a field that is left out is
    [None]. *)
Record DisplayOptions := {
  locale : option string;
  fallback : option string;
  includeTime : option bool;
}.

Definition no_options : DisplayOptions :=
  {| locale := None; fallback := None; includeTime := None |}.

Section dateUtils_rest.
Context {E : Engine} {I : Intl}.

(** [new Date(v)] on one argument: the time value of a date, the parse of
    a string, the number that anything else converts to.  An array or an
    object is converted by its [toString]; no value of the model has a
    [valueOf] or [Symbol.toPrimitive] of its own that returns a
    primitive. *)
Definition Date_of_value (v : value) : M Date :=
  match v with
  | VDate d => mret d
  | VStr s => mret (Date_of_string s)
  | VArr _ | VObj _ =>
      match toString v with
      | Some s => mret (Date_of_string s)
      | None => throw TypeError
      end
  | _ => mret (TimeClip (ToNumber v))
  end.

(** [formatDateForDisplay(dateInput, options)] *)
Definition formatDateForDisplay (dateInput : value) (options : DisplayOptions)
  : M string :=
  let locale := default "en-US" (locale options) in
  let fallback := default "Unknown date" (fallback options) in
  let includeTime := default false (includeTime options) in
  date ← getValidDateWithFallback dateInput;
  try_catch
    (match date with
     | Instant t =>
         match toLocaleDateString t locale includeTime with
         | Some s => mret s
         | None => throw RangeError
         end
     | InvalidDate => mret "Invalid Date"
     end)
    (λ error, mret fallback).

(** [Math.floor(a / k)] for a positive integer [k].  On an integer [a]
    it is the quotient of the integers, rounded down.  (For the divisors
    1000, 60 and 24 and an integer below 2^53 the rounding of the division
    of doubles does not reach the next integer, so that the floor is this
    quotient.) *)
Definition floor_div (a : number) (k : Z) : number :=
  match a with
  | Fin x => Fin (x / k)
  | Frac h e => Math_floor (round_ratio (2 * h + 1) (2 ^ Z.pos e * k))
  | _ => a
  end.

(** The text of a number inside a template literal. *)
Definition number_text (n : number) : string :=
  match n with
  | NaN => "NaN"
  | PosInf => "Infinity"
  | NegInf => "-Infinity"
  | Fin z => pretty z
  | Frac h e => fraction_text h e
  end.

(** [`${n} ${unit}${n !== 1 ? "s" : ""} ago`] *)
Definition ago (n : number) (unit : string) : string :=
  number_text n +:+ " " +:+ unit
    +:+ (if negb (bool_decide (n = Fin 1)) then "s" else "") +:+ " ago".

(** [formatRelativeDate(dateInput)] *)
Definition formatRelativeDate (dateInput : value) : M string :=
  date ← getValidDateWithFallback dateInput;
  now ← new_Date;
  let diffMs := num_sub (getTime now) (getTime date) in
  let diffSeconds := floor_div diffMs 1000 in
  let diffMinutes := floor_div diffSeconds 60 in
  let diffHours := floor_div diffMinutes 60 in
  let diffDays := floor_div diffHours 24 in
  if num_lt diffSeconds (Fin 60) then mret "Just now"
  else if num_lt diffMinutes (Fin 60) then mret (ago diffMinutes "minute")
  else if num_lt diffHours (Fin 24) then mret (ago diffHours "hour")
  else if num_lt diffDays (Fin 7) then mret (ago diffDays "day")
  else formatDateForDisplay (VDate date) no_options.

(** [dateFromISOString(isoString)] *)
Definition dateFromISOString (isoString : string) : M Date :=
  getValidDateWithFallback (VStr isoString).

(** [isValidDate(dateInput)] *)
Definition isValidDate (dateInput : value) : M bool :=
  match dateInput with
  | VUndef | VNull => mret false
  | _ =>
      date ← Date_of_value dateInput;
      mret (negb (isNaN (getTime date)))
  end.

(** The part of a text before its first letter T: [s.split("T")[0]]. *)
Fixpoint before_T (s : string) : string :=
  match s with
  | EmptyString => EmptyString
  | String c s' =>
      if decide (c = letter_T) then EmptyString else String c (before_T s')
  end.

(** [getDateForFilename(dateInput)] *)
Definition getDateForFilename (dateInput : value) : M string :=
  date ← getValidDateWithFallback dateInput;
  iso ← Date_toISOString date;
  mret (before_T iso).

(** [compareDates(date1, date2)] *)
Definition compareDates (date1 date2 : value) : M Z :=
  d1 ← getValidDateWithFallback date1;
  d2 ← getValidDateWithFallback date2;
  if num_lt (getTime d1) (getTime d2) then mret (-1)%Z
  else if num_gt (getTime d1) (getTime d2) then mret 1%Z
  else mret 0%Z.

End dateUtils_rest.

(** A listed prompt: the stored object with two valid dates put in. *)
Definition restored (j : json) (p : value) : Prop :=
  ∃ o tc tu,
    p = VObj o
    ∧ lookup_prop "createdAt" o = VDate (Instant tc)
    ∧ lookup_prop "updatedAt" o = VDate (Instant tu)
    ∧ ∀ k, k ≠ "createdAt" → k ≠ "updatedAt" →
        lookup_prop k o = opt_value (json_prop j k).

(** ** Export *)

(** The file that [exportPrompts] hands to the browser: the [download]
    name of the link, and the text of the blob behind its [href]. *)
Record Download := {
  download : string;
  href : text;
}.

Section exportPrompts.
Context {E : Engine}.

(** [JSON.stringify(v, null, 2)] of an object. *)
Definition JSON_stringify_value (v : value) : text :=
  JsonText (default JNull (to_json toJSON v)).

(** [exportPrompts()].  The result is the file that is downloaded; the
    calls on the document that build the link and click it are taken to
    succeed. *)
Definition exportPrompts : M Download :=
  try_catch
    (prompts ← getPrompts;
     now ← createCurrentDate;
     exportDate ← dateToISOString (VDate now);
     let exportData :=
       VObj [("prompts", VArr prompts);
             ("exportDate", VStr exportDate);
             ("version", VStr "1.0")] in
     let dataStr := JSON_stringify_value exportData in
     day ← getDateForFilename VUndef;
     mret {| download := "prompt-helper-backup-" +:+ day +:+ ".json";
             href := dataStr |})
    (λ error, throw (Error "Failed to export prompts")).

End exportPrompts.

(** The record with another value for order. *)
Definition with_order (r : Prompt) (z : Z) : Prompt :=
  {| id := id r; title := title r; content := content r; tags := tags r;
     createdAt := createdAt r; updatedAt := updatedAt r; order := z |}.

(** ** The sidebar: the filtered view

    [PromptSidebar] keeps the listed prompts in its state and derives the
    prompts it shows from the search text and the selected tag. *)

(** [c.toLowerCase()] on the character codes below 256: the letters A to
    Z, and the letters from 192 to 222 apart from the sign at 215. *)
Definition lower_char (c : Ascii.ascii) : Ascii.ascii :=
  let n := Ascii.nat_of_ascii c in
  if ((65 <=? n) && (n <=? 90))
     || ((192 <=? n) && (n <=? 222) && negb (n =? 215))
  then Ascii.ascii_of_nat (n + 32)
  else c.

(** [s.toLowerCase()] *)
Fixpoint toLowerCase (s : string) : string :=
  match s with
  | EmptyString => EmptyString
  | String c s' => String (lower_char c) (toLowerCase s')
  end.

(** [s.includes(sub)] *)
Fixpoint includes (s sub : string) : bool :=
  String.prefix sub s
  || match s with
     | EmptyString => false
     | String _ s' => includes s' sub
     end.

(** [v.toLowerCase()]: only a string has the method. *)
Definition call_toLowerCase (v : value) : M string :=
  match v with
  | VStr s => mret (toLowerCase s)
  | _ => throw TypeError
  end.

(** [v.some(f)]: only an array has the method. *)
Definition call_some (v : value) (f : value → M bool) : M bool :=
  match v with
  | VArr items => Array_some f items
  | _ => throw TypeError
  end.

(** The callback of the filter by search text. *)
Definition matches_search (searchQuery : string) (prompt : value) : M bool :=
  title ← lift (prop prompt "title");
  title ← call_toLowerCase title;
  if includes title (toLowerCase searchQuery) then mret true else
  content ← lift (prop prompt "content");
  content ← call_toLowerCase content;
  if includes content (toLowerCase searchQuery) then mret true else
  tags ← lift (prop prompt "tags");
  call_some tags
    (λ tag, tag ← call_toLowerCase tag;
            mret (includes tag (toLowerCase searchQuery))).

(** The callback of the filter by selected tag. *)
Definition has_selected_tag (selectedTag : string) (prompt : value) : M bool :=
  tags ← lift (prop prompt "tags");
  call_some tags
    (λ tag, tag ← call_toLowerCase tag;
            mret (bool_decide (tag = toLowerCase selectedTag))).

(** The effect that recomputes [filteredPrompts] from [prompts],
    [searchQuery] and [selectedTag]; its result is the list that it hands
    to [setFilteredPrompts]. *)
Definition filteredPrompts (prompts : list value)
    (searchQuery selectedTag : string) : M (list value) :=
  filtered ←
    (if truthy (VStr searchQuery)
     then Array_filter (matches_search searchQuery) prompts
     else mret prompts);
  if truthy (VStr selectedTag)
  then Array_filter (has_selected_tag selectedTag) filtered
  else mret filtered.

(** What the two callbacks answer on a typed record. *)
Definition found (searchQuery : string) (r : Prompt) : bool :=
  includes (toLowerCase (title r)) (toLowerCase searchQuery)
  || includes (toLowerCase (content r)) (toLowerCase searchQuery)
  || existsb (λ tag, includes (toLowerCase tag) (toLowerCase searchQuery))
       (tags r).

Definition tagged (selectedTag : string) (r : Prompt) : bool :=
  existsb (λ tag, bool_decide (toLowerCase tag = toLowerCase selectedTag))
    (tags r).

(** A record is shown: the search text is empty or found in it, and no
    tag is selected or the record carries the selected one. *)
Definition shown (searchQuery selectedTag : string) (r : Prompt) : bool :=
  (bool_decide (searchQuery = "") || found searchQuery r)
  && (bool_decide (selectedTag = "") || tagged selectedTag r).

(** ** The sidebar: the form, the drag and the list of tags *)

Definition comma : Ascii.ascii := Ascii.ascii_of_nat 44.

(** [s.split(",")] *)
Fixpoint split_comma (s : string) : list string :=
  match s with
  | EmptyString => [EmptyString]
  | String c s' =>
      if decide (c = comma) then EmptyString :: split_comma s'
      else
        match split_comma s' with
        | piece :: pieces => String c piece :: pieces
        | [] => [String c EmptyString]
        end
  end.

(** The [tags] that [handleSubmit] makes of the text of the form:
    [data.tags.split(",").map((tag) => tag.trim())
       .filter((tag) => tag.length > 0)] *)
Definition form_tags (tags : string) : list string :=
  List.filter (λ tag, 0 <? String.length tag) (map trim (split_comma tags)).

(** [l.join(sep)] on texts *)
Fixpoint join (sep : string) (l : list string) : string :=
  match l with
  | [] => ""
  | [x] => x
  | x :: l' => x +:+ sep +:+ join sep l'
  end.

(** The text that [PromptForm] shows for the tags of the prompt that is
    edited: [existingPrompt?.tags.join(", ") || ""] *)
Definition tags_text (tags : list string) : string := join ", " tags.

(** The list that [handleDragEnd] hands to [onReorder]:
    [const [removed] = reorderedPrompts.splice(startIndex, 1);
     reorderedPrompts.splice(endIndex, 0, removed)] on a copy of the
    prompts. *)
Definition moved (prompts : list value) (startIndex endIndex : nat)
  : list value :=
  let removed := default VUndef (prompts !! startIndex) in
  let reorderedPrompts := delete startIndex prompts in
  take endIndex reorderedPrompts ++ removed :: drop endIndex reorderedPrompts.

(** [handleDragEnd(result)]: [None] when it returns without a call to
    [onReorder], for a drop outside the list or in the place where the
    drag began. *)
Definition handleDragEnd (prompts : list value) (source : nat)
    (destination : option nat) : option (list value) :=
  match destination with
  | None => None
  | Some endIndex =>
      if decide (source = endIndex) then None
      else Some (moved prompts source endIndex)
  end.

(** The comparison [a.order - b.order] of [loadPrompts] is not positive:
    the sort leaves [a] before [b]. *)
Definition order_le {E : Engine} (a b : value) : Prop :=
  num_gt (by_order a b) (Fin 0) = false.

(** [p.order === z] *)
Definition has_order (z : Z) (p : value) : bool :=
  strict_eq (lookup_prop "order" (own_props p)) (VNum (Fin z)).

(** A prompt whose order is an integer. *)
Definition ordered (p : value) : Prop :=
  ∃ z, lookup_prop "order" (own_props p) = VNum (Fin z).

(** What the form hands to [handleSubmit]. *)
Record PromptFormData := {
  data_title : string;
  data_content : string;
  data_tags : string;
}.

Section handleSubmit.
Context {E : Engine}.

(** [handleSubmit(data)], for the prompt that is edited, if there is
    one, the listed [prompts] of the state and the id that [uuidv4()]
    returns; the result is the list that it hands to [setPrompts]. *)
Definition handleSubmit (data : PromptFormData) (editingPrompt : option value)
    (prompts : list value) (uuid : string) : M (list value) :=
  let tags := VArr (map VStr (form_tags (data_tags data))) in
  match editingPrompt with
  | Some editingPrompt =>
      now ← createCurrentDate;
      let updatedPrompt :=
        VObj (set_prop "updatedAt" (VDate now)
             (set_prop "tags" tags
             (set_prop "content" (VStr (data_content data))
             (set_prop "title" (VStr (data_title data))
                (own_props editingPrompt))))) in
      updatePrompt updatedPrompt;;
      Array_map
        (λ p, same ← same_id updatedPrompt p;
              mret (if same : bool then updatedPrompt else p))
        prompts
  | None =>
      createdAt ← createCurrentDate;
      updatedAt ← createCurrentDate;
      let newPrompt :=
        VObj [("id", VStr uuid);
              ("title", VStr (data_title data));
              ("content", VStr (data_content data));
              ("tags", tags);
              ("createdAt", VDate createdAt);
              ("updatedAt", VDate updatedAt);
              ("order", VNum (Fin (Z.of_nat (length prompts))))] in
      addPrompt newPrompt;;
      mret (prompts ++ [newPrompt])
  end.

(** [handleDelete(promptId)], with the list it hands to [setPrompts]. *)
Definition handleDelete (promptId : string) (prompts : list value)
  : M (list value) :=
  deletePrompt promptId;;
  Array_filter
    (λ p, a ← lift (prop p "id"); mret (negb (strict_eq a (VStr promptId))))
    prompts.

End handleSubmit.

(** ** More worlds and documents to run the model on *)

(** An [Intl] that formats every date as the same text. *)
Definition sample_intl : Intl := {|
  fraction_text := λ _ _, "0.5";
  toLocaleDateString := λ _ _ _, Some "Nov 14, 2023";
|}.

(** The first call to a back end throws; chrome.storage holds the record
    a and localStorage nothing. *)
Definition first_call_fails : world :=
  World true (Some (JArr [item_a])) None
    (λ n, match n with 0 => Some (Error "chrome.storage is down") | _ => None end)
    0 (λ _, 1700000000000%Z) 0.

(** chrome.storage holds the record a and a null. *)
Definition store_null : world := calm true (Some (JArr [item_a; JNull])) None.

(** chrome.storage holds an object whose createdAt does not parse and
    whose updatedAt is missing. *)
Definition untimed : json :=
  JObj [("id", JStr "u"); ("title", JStr "U"); ("createdAt", JStr "soon")].

Definition store_untimed : world := calm true (Some (JArr [untimed])) None.

(** chrome.storage holds the records a and b. *)
Definition store_ab_chrome : world :=
  calm true (Some (JArr [item_a; item_b])) None.

(** A document with one record that is not stored anywhere. *)
Definition new_record : list (string * json) :=
  [("id", JStr "n"); ("title", JStr "N"); ("content", JStr "B")].

Definition new_doc : list (string * json) :=
  [("prompts", JArr [JObj new_record])].

(** A document whose second record is a null. *)
Definition null_doc : list (string * json) :=
  [("prompts", JArr [JObj new_record; JNull])].

(** What the form holds for a prompt with two tags. *)
Definition sample_form : PromptFormData :=
  {| data_title := "Fix bug"; data_content := "Find it first";
     data_tags := "dev, urgent" |}.

(** * Properties *)

(** ** Running the monad *)

Lemma bind_run {A B} (m : M A) (f : A → M B) (w : world) :
  (m ≫= f) w =
  match m w with
  | (Ok a, w') => f a w'
  | (Throw e, w') => (Throw e, w')
  end.
Proof. reflexivity. Qed.

Lemma bind_ok {A B} (m : M A) (f : A → M B) (w w' : world) (a : A) :
  m w = (Ok a, w') → (m ≫= f) w = f a w'.
Proof. intros H. rewrite bind_run, H. reflexivity. Qed.

Lemma try_ok {A} (m : M A) (h : exn → M A) (w w' : world) (a : A) :
  m w = (Ok a, w') → try_catch m h w = (Ok a, w').
Proof. intros H. unfold try_catch. rewrite H. reflexivity. Qed.

Lemma try_throw {A} (m : M A) (h : exn → M A) (w w' : world) (e : exn) :
  m w = (Throw e, w') → try_catch m h w = h e w'.
Proof. intros H. unfold try_catch. rewrite H. reflexivity. Qed.

Lemma ret_run {A} (a : A) (w : world) : mret (M := M) a w = (Ok a, w).
Proof. reflexivity. Qed.

Lemma lift_run {A} (r : result A) (w : world) : lift r w = (r, w).
Proof. reflexivity. Qed.

(** Running the steps whose outcome is known. *)
Ltac mrun :=
  repeat first [ rewrite bind_run | rewrite lift_run | rewrite ret_run
               | progress simpl ].

Lemma healthy_next_call w : healthy w → healthy (next_call w).
Proof. intros H n. apply H. Qed.

Lemma backend_healthy w : healthy w → backend w = (Ok (), next_call w).
Proof. intros H. unfold backend. rewrite H. reflexivity. Qed.

(** ** Objects as property lists *)

Lemma lookup_set_prop_eq k v o : lookup_prop k (set_prop k v o) = v.
Proof.
  induction o as [|[k' v'] o IH]; simpl.
  - rewrite decide_True; done.
  - destruct (decide (k' = k)) as [->|Hne]; simpl.
    + rewrite decide_True; done.
    + rewrite decide_False; done.
Qed.

Lemma lookup_set_prop_ne k k' v o :
  k ≠ k' → lookup_prop k' (set_prop k v o) = lookup_prop k' o.
Proof.
  intros Hne. induction o as [|[k0 v0] o IH]; simpl.
  - rewrite decide_False; done.
  - destruct (decide (k0 = k)) as [->|Hne0]; simpl.
    + rewrite !decide_False; done.
    + destruct (decide (k0 = k')); done.
Qed.

Lemma set_prop_replace k v o :
  NoDup o.*1 → k ∈ o.*1 → set_prop k v o = replace k v o.
Proof.
  induction o as [|[k' v'] o IH]; simpl; intros Hnd Hin.
  - inversion Hin.
  - apply NoDup_cons in Hnd as [Hk' Hnd].
    destruct (decide (k' = k)) as [->|Hne].
    + f_equal. unfold replace. symmetry. rewrite <- (map_id o) at 2.
      apply map_ext_in. intros [k1 v1] Hin1. simpl.
      rewrite decide_False; [done|]. intros ->. apply Hk'.
      apply list_elem_of_In in Hin1. apply (list_elem_of_fmap_2 fst) in Hin1. done.
    + f_equal. apply IH; [done|].
      apply elem_of_cons in Hin as [?|?]; [congruence|done].
Qed.

Lemma set_prop_keys_in k v o : k ∈ o.*1 → (set_prop k v o).*1 = o.*1.
Proof.
  induction o as [|[k' v'] o IH]; simpl; intros Hin.
  - inversion Hin.
  - destruct (decide (k' = k)) as [->|Hne]; simpl; [done|].
    f_equal. apply IH. apply elem_of_cons in Hin as [?|?]; [congruence|done].
Qed.

Lemma set_prop_keys_notin k v o : k ∉ o.*1 → (set_prop k v o).*1 = o.*1 ++ [k].
Proof.
  induction o as [|[k' v'] o IH]; simpl; intros Hin; [done|].
  apply not_elem_of_cons in Hin as [Hne Hin].
  rewrite decide_False by done. simpl. f_equal. by apply IH.
Qed.

Lemma set_prop_NoDup k v o : NoDup o.*1 → NoDup (set_prop k v o).*1.
Proof.
  intros Hnd. destruct (decide (k ∈ o.*1)) as [Hin|Hin].
  - by rewrite set_prop_keys_in.
  - rewrite set_prop_keys_notin by done.
    apply NoDup_app. split; [done|]. split.
    + intros x Hx Hx'. apply list_elem_of_singleton in Hx'. by subst.
    + apply NoDup_singleton.
Qed.

Lemma set_prop_in_keys k v o : k ∈ (set_prop k v o).*1.
Proof.
  induction o as [|[k' v'] o IH]; simpl.
  - apply elem_of_cons. by left.
  - destruct (decide (k' = k)); simpl; apply elem_of_cons; [by left|by right].
Qed.

Lemma set_prop_keys_mono k k' v o : k' ∈ o.*1 → k' ∈ (set_prop k v o).*1.
Proof.
  intros Hin. destruct (decide (k ∈ o.*1)).
  - by rewrite set_prop_keys_in.
  - rewrite set_prop_keys_notin by done. apply elem_of_app. by left.
Qed.

Lemma lookup_prop_in k o v : lookup_prop k o = v → v ≠ VUndef → k ∈ o.*1.
Proof.
  induction o as [|[k' v'] o IH]; simpl; intros H Hv.
  - congruence.
  - destruct (decide (k' = k)) as [->|]; apply elem_of_cons; [by left|].
    right. by apply IH.
Qed.

Lemma json_lookup_in k o j : json_lookup k o = Some j → k ∈ o.*1.
Proof.
  induction o as [|[k' v'] o IH]; simpl; intros H.
  - congruence.
  - destruct (decide (k' = k)) as [->|]; apply elem_of_cons; [by left|].
    right. by apply IH.
Qed.

Lemma set_prop_twice k a b o : set_prop k a (set_prop k b o) = set_prop k a o.
Proof.
  induction o as [|[k' v'] o IH]; simpl.
  - by rewrite decide_True.
  - destruct (decide (k' = k)) as [->|Hne]; simpl.
    + by rewrite decide_True.
    + rewrite decide_False by done. by rewrite IH.
Qed.

Lemma set_prop_comm k k' a b o :
  k ≠ k' → k ∈ o.*1 →
  set_prop k a (set_prop k' b o) = set_prop k' b (set_prop k a o).
Proof.
  intros Hne. induction o as [|[k0 v0] o IH]; simpl; intros Hin.
  - inversion Hin.
  - destruct (decide (k0 = k')) as [->|Hne']; simpl.
    + rewrite !decide_False by done. simpl. by rewrite decide_True.
    + destruct (decide (k0 = k)) as [->|Hne0]; simpl.
      * by rewrite decide_False.
      * rewrite decide_False by done. f_equal. apply IH.
        apply elem_of_cons in Hin as [?|?]; [congruence|done].
Qed.

Lemma set_prop_same k v o : k ∈ o.*1 → lookup_prop k o = v → set_prop k v o = o.
Proof.
  induction o as [|[k' v'] o IH]; simpl; intros Hin Hv.
  - inversion Hin.
  - destruct (decide (k' = k)) as [->|Hne]; [by subst|].
    f_equal. apply IH; [|done].
    apply elem_of_cons in Hin as [?|?]; [congruence|done].
Qed.

Lemma set_prop_elem k v o kv : kv ∈ set_prop k v o → kv = (k, v) ∨ kv ∈ o.
Proof.
  induction o as [|[k' v'] o IH]; simpl; intros Hin.
  - apply list_elem_of_singleton in Hin. by left.
  - destruct (decide (k' = k)) as [->|Hne].
    + apply elem_of_cons in Hin as [->|Hin]; [by left|].
      right. apply elem_of_cons. by right.
    + apply elem_of_cons in Hin as [->|Hin].
      * right. apply elem_of_cons. by left.
      * destruct (IH Hin) as [->|?]; [by left|].
        right. apply elem_of_cons. by right.
Qed.

(** Undoing two stamps by two others on the same keys. *)
Lemma restamp a b c d o :
  "createdAt" ∈ o.*1 → "updatedAt" ∈ o.*1 →
  set_prop "updatedAt" a (set_prop "createdAt" b
    (set_prop "updatedAt" c (set_prop "createdAt" d o)))
  = set_prop "updatedAt" a (set_prop "createdAt" b o).
Proof.
  intros HC HU.
  rewrite (set_prop_comm "createdAt" "updatedAt" b c) by
    (done || by apply set_prop_in_keys).
  by rewrite set_prop_twice, set_prop_twice.
Qed.

(** ** JSON values in memory *)

Lemma json_nested_ind (P : json → Prop) :
  P JNull → (∀ b, P (JBool b)) → (∀ z, P (JNum z)) →
  (∀ h e, P (JFrac h e)) → (∀ s, P (JStr s)) →
  (∀ items, Forall P items → P (JArr items)) →
  (∀ o, Forall (λ kv, P kv.2) o → P (JObj o)) →
  ∀ j, P j.
Proof.
  intros HNull HBool HNum HFrac HStr HArr HObj. fix IH 1.
  intros [|b|z|h e|s|items|o]; [done..| |].
  - apply HArr. revert items. fix IHl 1. intros [|x l].
    + apply Forall_nil_2.
    + apply Forall_cons_2; [apply IH|apply IHl].
  - apply HObj. revert o. fix IHl 1. intros [|kv l].
    + apply Forall_nil_2.
    + apply Forall_cons_2; [apply IH|apply IHl].
Qed.

Lemma to_json_of_json (d : Date → json) (j : json) :
  to_json d (of_json j) = Some j.
Proof.
  induction j as [| | | | |items IH|o IH] using json_nested_ind; simpl; try done.
  - f_equal. f_equal. induction IH as [|x l Hx _ IHl]; simpl; [done|].
    rewrite Hx. simpl. by rewrite IHl.
  - f_equal. f_equal. induction IH as [|[k x] l Hx _ IHl]; simpl; [done|].
    simpl in Hx. rewrite Hx. simpl. f_equal. exact IHl.
Qed.

Lemma of_json_props_keys o : (of_json_props o).*1 = o.*1.
Proof. induction o as [|[k j] o IH]; [done|]. simpl. f_equal. exact IH. Qed.

Lemma lookup_of_json_props k o :
  lookup_prop k (of_json_props o) = opt_value (json_lookup k o).
Proof.
  induction o as [|[k' j] o IH]; simpl; [done|].
  destruct (decide (k' = k)); done.
Qed.

Lemma all_json_props (o : props) :
  Forall (λ kv, ∃ j, kv.2 = of_json j) o → ∃ oj, o = of_json_props oj.
Proof.
  induction 1 as [|[k v] o [j Hj] _ [oj ->]].
  - by exists [].
  - simpl in Hj. subst. by exists ((k, j) :: oj).
Qed.

Lemma of_json_VStr j s : of_json j = VStr s → j = JStr s.
Proof. destruct j; simpl; congruence. Qed.

(** ** Timestamps across the storage boundary *)

Section timestamps.
Context {E : Engine} {EL : EngineLaws E}.

Lemma getValidDate_iso t :
  in_range t → getValidDate (VStr (toISOString t)) = Some (Instant t).
Proof.
  intros Ht. unfold getValidDate.
  rewrite decide_False by apply toISOString_not_blank.
  unfold Date_of_string. rewrite parse_toISOString by exact Ht.
  unfold TimeClip. unfold in_range in Ht.
  destruct (Z.leb_spec (Z.abs t) max_time); [done|lia].
Qed.

Lemma wf_savable p : wf_prompt p → savable p.
Proof.
  intros (o & tc & tu & -> & Hnd & HC & _ & HU & _ & Hall).
  by exists o, tc, tu.
Qed.

Lemma canonical_stamped j : canonical j → stamped j.
Proof.
  intros (o & tc & tu & -> & _ & HC & _ & HU & _). by exists o, tc, tu.
Qed.

Lemma load_canonical o tc tu :
  json_lookup "createdAt" o = Some (JStr (toISOString tc)) → in_range tc →
  json_lookup "updatedAt" o = Some (JStr (toISOString tu)) → in_range tu →
  load (JObj o) =
  VObj (set_prop "updatedAt" (VDate (Instant tu))
          (set_prop "createdAt" (VDate (Instant tc)) (of_json_props o))).
Proof.
  intros HC Hc HU Hu. unfold load. simpl.
  fold (of_json_props o). rewrite !lookup_of_json_props, HC, HU. simpl.
  unfold restored_date. by rewrite !getValidDate_iso.
Qed.

Lemma serialized_savable o tc tu :
  lookup_prop "createdAt" o = VDate (Instant tc) →
  lookup_prop "updatedAt" o = VDate (Instant tu) →
  serialized (VObj o) =
  VObj (set_prop "updatedAt" (VStr (toISOString tu))
          (set_prop "createdAt" (VStr (toISOString tc)) o)).
Proof. intros HC HU. unfold serialized. simpl. by rewrite HC, HU. Qed.

Lemma load_wf j : canonical j → wf_prompt (load j).
Proof.
  intros (o & tc & tu & -> & Hnd & HC & Hc & HU & Hu).
  rewrite (load_canonical o tc tu) by done.
  eexists _, tc, tu. split; [done|]. split.
  { do 2 apply set_prop_NoDup. by rewrite of_json_props_keys. }
  split.
  { rewrite lookup_set_prop_ne by done. apply lookup_set_prop_eq. }
  split; [done|]. split; [apply lookup_set_prop_eq|]. split; [done|].
  apply Forall_forall. intros kv Hkv.
  apply set_prop_elem in Hkv as [->|Hkv]; [by right; left|].
  apply set_prop_elem in Hkv as [->|Hkv]; [by left|].
  right; right. apply list_elem_of_fmap in Hkv as ([k j] & -> & _).
  by exists j.
Qed.

Lemma dump_load j : canonical j → dump (load j) = j.
Proof.
  intros (o & tc & tu & -> & Hnd & HC & Hc & HU & Hu).
  rewrite (load_canonical o tc tu) by done.
  assert (HCin : "createdAt" ∈ (of_json_props o).*1).
  { rewrite of_json_props_keys. by eapply json_lookup_in. }
  assert (HUin : "updatedAt" ∈ (of_json_props o).*1).
  { rewrite of_json_props_keys. by eapply json_lookup_in. }
  unfold dump. rewrite (serialized_savable _ tc tu).
  - rewrite restamp by done.
    rewrite (set_prop_same "createdAt") by
      (done || by rewrite lookup_of_json_props, HC).
    rewrite (set_prop_same "updatedAt") by
      (done || by rewrite lookup_of_json_props, HU).
    change (VObj (of_json_props o)) with (of_json (JObj o)).
    by rewrite to_json_of_json.
  - rewrite lookup_set_prop_ne by done. apply lookup_set_prop_eq.
  - apply lookup_set_prop_eq.
Qed.

(** The written form of a savable prompt holds data only. *)
Lemma serialized_is_json p :
  savable p → ∃ oj, serialized p = of_json (JObj oj).
Proof.
  intros (o & tc & tu & -> & Hnd & HC & HU & Hall).
  rewrite (serialized_savable o tc tu) by done.
  assert (HCin : "createdAt" ∈ o.*1) by (by eapply lookup_prop_in).
  assert (HUin : "updatedAt" ∈ o.*1) by (by eapply lookup_prop_in).
  destruct (all_json_props
    (set_prop "updatedAt" (VStr (toISOString tu))
       (set_prop "createdAt" (VStr (toISOString tc)) o))) as [oj Hoj].
  - rewrite set_prop_replace; [|by apply set_prop_NoDup|by apply set_prop_keys_mono].
    rewrite (set_prop_replace "createdAt") by done.
    unfold replace. rewrite !Forall_fmap.
    eapply Forall_impl; [exact Hall|]. intros [k v] Hkv. simpl in *.
    destruct (decide (k = "createdAt")) as [->|HnC]; simpl.
    { by exists (JStr (toISOString tc)). }
    destruct (decide (k = "updatedAt")) as [->|HnU]; simpl.
    { by exists (JStr (toISOString tu)). }
    destruct Hkv as [?|[?|?]]; done.
  - exists oj. by rewrite Hoj.
Qed.

Lemma to_json_serialized (d : Date → json) p :
  savable p → to_json d (serialized p) = Some (dump p).
Proof.
  intros Hp. destruct (serialized_is_json p Hp) as [oj Hoj].
  unfold dump. by rewrite Hoj, !to_json_of_json.
Qed.

Lemma dump_canonical p : wf_prompt p → canonical (dump p).
Proof.
  intros Hp. destruct (serialized_is_json p (wf_savable p Hp)) as [oj Hoj].
  unfold dump. rewrite Hoj, to_json_of_json. simpl.
  destruct Hp as (o & tc & tu & -> & Hnd & HC & Hc & HU & Hu & Hall).
  rewrite (serialized_savable o tc tu) in Hoj by done.
  simpl in Hoj. injection Hoj as Hoj. fold (of_json_props oj) in Hoj.
  exists oj, tc, tu. split; [done|]. split.
  { rewrite <- of_json_props_keys, <- Hoj. by do 2 apply set_prop_NoDup. }
  assert (HU' : lookup_prop "updatedAt" (of_json_props oj)
                = VStr (toISOString tu)).
  { rewrite <- Hoj. apply lookup_set_prop_eq. }
  assert (HC' : lookup_prop "createdAt" (of_json_props oj)
                = VStr (toISOString tc)).
  { rewrite <- Hoj. rewrite lookup_set_prop_ne by done. apply lookup_set_prop_eq. }
  rewrite lookup_of_json_props in HU', HC'.
  split; [|split; [done|split; [|done]]].
  - destruct (json_lookup "createdAt" oj) as [j|]; [|done].
    by rewrite (of_json_VStr _ _ HC').
  - destruct (json_lookup "updatedAt" oj) as [j|]; [|done].
    by rewrite (of_json_VStr _ _ HU').
Qed.

Lemma load_dump p : wf_prompt p → load (dump p) = p.
Proof.
  intros Hp. destruct (serialized_is_json p (wf_savable p Hp)) as [oj Hoj].
  pose proof (dump_canonical p Hp) as Hcan.
  unfold dump in *. rewrite Hoj, to_json_of_json in *. simpl in *.
  destruct Hp as (o & tc & tu & -> & Hnd & HC & Hc & HU & Hu & Hall).
  rewrite (serialized_savable o tc tu) in Hoj by done.
  simpl in Hoj. injection Hoj as Hoj. fold (of_json_props oj) in Hoj.
  assert (HCin : "createdAt" ∈ o.*1) by (by eapply lookup_prop_in).
  assert (HUin : "updatedAt" ∈ o.*1) by (by eapply lookup_prop_in).
  assert (HU' : json_lookup "updatedAt" oj = Some (JStr (toISOString tu))).
  { assert (H : lookup_prop "updatedAt" (of_json_props oj)
                = VStr (toISOString tu)).
    { rewrite <- Hoj. apply lookup_set_prop_eq. }
    rewrite lookup_of_json_props in H.
    destruct (json_lookup "updatedAt" oj) as [j|]; [|done].
    by rewrite (of_json_VStr _ _ H). }
  assert (HC' : json_lookup "createdAt" oj = Some (JStr (toISOString tc))).
  { assert (H : lookup_prop "createdAt" (of_json_props oj)
                = VStr (toISOString tc)).
    { rewrite <- Hoj. rewrite lookup_set_prop_ne by done.
      apply lookup_set_prop_eq. }
    rewrite lookup_of_json_props in H.
    destruct (json_lookup "createdAt" oj) as [j|]; [|done].
    by rewrite (of_json_VStr _ _ H). }
  rewrite (load_canonical oj tc tu) by done.
  rewrite <- Hoj, restamp by done.
  rewrite (set_prop_same "createdAt") by done.
  by rewrite (set_prop_same "updatedAt") by done.
Qed.

End timestamps.

(** ** The store on a healthy world *)

Lemma Array_map_from_pure {A B C} (f : B → nat → M C) (h : A → B) (g : A → C)
    (l : list A) (i : nat) (w : world) :
  Forall (λ x, ∀ j, f (h x) j w = (Ok (g x), w)) l →
  Array_map_from i f (map h l) w = (Ok (map g l), w).
Proof.
  intros Hl. revert i. induction Hl as [|x l Hx _ IH]; intros i; simpl; [done|].
  rewrite bind_run, Hx, bind_run, IH. done.
Qed.

Lemma Array_map_pure {A B C} (f : B → M C) (h : A → B) (g : A → C)
    (l : list A) (w : world) :
  Forall (λ x, f (h x) w = (Ok (g x), w)) l →
  Array_map f (map h l) w = (Ok (map g l), w).
Proof.
  intros Hl. unfold Array_map, Array_mapi. apply Array_map_from_pure.
  eapply Forall_impl; [exact Hl|]. by intros x Hx j.
Qed.

Lemma Array_map_pure_id {B C} (f : B → M C) (g : B → C)
    (l : list B) (w : world) :
  Forall (λ x, f x w = (Ok (g x), w)) l →
  Array_map f l w = (Ok (map g l), w).
Proof.
  intros Hl. rewrite <- (map_id l) at 1. by apply Array_map_pure.
Qed.

Section runs.
Context {E : Engine} {EL : EngineLaws E}.

Lemma restore_prompt_canonical j w :
  canonical j → restore_prompt (of_json j) w = (Ok (load j), w).
Proof.
  intros (o & tc & tu & -> & Hnd & HC & Hc & HU & Hu).
  rewrite (load_canonical o tc tu) by done.
  unfold restore_prompt. simpl. fold (of_json_props o).
  rewrite !lookup_of_json_props, HC, HU. simpl.
  unfold lift, restoreDateFromStorage.
  repeat first [ rewrite getValidDate_iso by done
               | rewrite bind_run
               | progress simpl ].
  done.
Qed.

Lemma serialize_prompt_savable p w :
  savable p → serialize_prompt p w = (Ok (serialized p), w).
Proof.
  intros (o & tc & tu & -> & Hnd & HC & HU & Hall).
  rewrite (serialized_savable o tc tu) by done.
  unfold serialize_prompt. simpl. rewrite HC, HU. done.
Qed.

Lemma stored_write w items : stored (write_items items w) items.
Proof. left. unfold write_items, active_item. by destruct (chrome_api w) eqn:Hapi; simpl; rewrite ?Hapi. Qed.

Lemma healthy_write w items : healthy w → healthy (write_items items w).
Proof. unfold write_items. by destruct (chrome_api w). Qed.

Lemma getPrompts_canonical w items :
  healthy w → stored w items → Forall canonical items →
  getPrompts w = (Ok (map load items), next_call w).
Proof.
  intros Hw Hst Hcan. unfold getPrompts. apply try_ok.
  assert (Hmap : ∀ w', Array_map restore_prompt (map of_json items) w'
                       = (Ok (map load items), w')).
  { intros w'. apply Array_map_pure. eapply Forall_impl; [exact Hcan|].
    intros j Hj. by apply restore_prompt_canonical. }
  unfold stored, active_item in Hst.
  rewrite bind_run. unfold has_chrome_storage at 1, gets at 1.
  destruct (chrome_api w) eqn:Hapi.
  - unfold chrome_storage_get, gets. rewrite !bind_run, backend_healthy by done.
    simpl. destruct Hst as [Hst|[Hst ->]].
    + destruct (chrome_item w) as [j|]; [|done]. simpl in Hst.
      injection Hst as ->. simpl. apply Hmap.
    + destruct (chrome_item w) as [j|]; [done|]. done.
  - unfold localStorage_getItem, gets. rewrite !bind_run, backend_healthy by done.
    simpl. destruct Hst as [Hst|[Hst ->]]; rewrite Hst; simpl; [apply Hmap|done].
Qed.

Lemma savePrompts_savable w prompts :
  healthy w → Forall savable prompts →
  savePrompts prompts w
  = (Ok (), write_items (map dump prompts) (next_call w)).
Proof.
  intros Hw Hsav. unfold savePrompts. apply try_ok.
  rewrite bind_run, (Array_map_pure_id _ serialized).
  2:{ eapply Forall_impl; [exact Hsav|]. intros p Hp.
      by apply serialize_prompt_savable. }
  assert (Hjson : ∀ d, array_json d (map serialized prompts)
                       = JArr (map dump prompts)).
  { intros d. unfold array_json. f_equal. rewrite map_map.
    apply map_ext_in. intros p Hp. rewrite to_json_serialized; [done|].
    rewrite Forall_forall in Hsav. apply Hsav. by apply list_elem_of_In. }
  rewrite bind_run. unfold has_chrome_storage at 1, gets at 1, write_items.
  simpl. destruct (chrome_api w) eqn:Hapi.
  - unfold chrome_storage_set, modify. rewrite bind_run, backend_healthy by done.
    by rewrite Hjson.
  - unfold localStorage_setItem, modify, JSON_stringify.
    rewrite bind_run, backend_healthy by done. by rewrite Hjson.
Qed.

End runs.

(** ** The sample engine keeps the laws *)

Lemma rev_app_not_empty r acc : acc ≠ "" → String.rev_app r acc ≠ "".
Proof.
  revert acc. induction r as [|a r IH]; intros acc Hacc; simpl; [done|].
  by apply IH.
Qed.

Lemma trimStart_rev_app r acc :
  trimStart acc ≠ "" → trimStart (String.rev_app r acc) ≠ "".
Proof.
  revert acc. induction r as [|a r IH]; intros acc Hacc; simpl; [done|].
  apply IH. simpl. by destruct (is_white a).
Qed.

Lemma trim_not_blank c r : is_white c = false → trim (String c r) ≠ "".
Proof.
  intros Hc. unfold trim. simpl. rewrite Hc.
  assert (Hne : trimStart (String.rev (String c r)) ≠ "").
  { unfold String.rev. simpl. apply trimStart_rev_app. simpl. by rewrite Hc. }
  destruct (trimStart (String.rev (String c r))) as [|a x]; [done|].
  unfold String.rev. simpl. by apply rev_app_not_empty.
Qed.

#[global] Instance sample_laws : EngineLaws sample_engine.
Proof.
  split.
  - intros t. by apply trim_not_blank.
  - intros t _. simpl. unfold sample_Date_parse, sample_toISOString.
    destruct (decide (letter_T = letter_T)); [|done].
    by rewrite NilEmpty.isi, DecimalZ.of_to.
Qed.

(** ** The date normaliser on numbers *)

(** ** Rounding

    What the nearest double of a fraction is known to be without
    computing it. *)

(** [dyadic k n] is the fraction k / 2^n. *)
Lemma dyadic_spec (k : Z) (n : nat) :
  (∃ z, dyadic k n = Fin z ∧ k = (z * 2 ^ Z.of_nat n)%Z)
  ∨ (∃ h e, dyadic k n = Frac h e ∧ (Z.pos e <= Z.of_nat n)%Z
            ∧ k = ((2 * h + 1) * 2 ^ (Z.of_nat n - Z.pos e))%Z).
Proof.
  revert k. induction n as [|n IH]; intros k.
  - left. exists k. split; [done|]. simpl. lia.
  - cbn [dyadic]. destruct (Z.even k) eqn:Hev.
    + apply Z.even_spec in Hev as [c ->].
      replace (2 * c / 2)%Z with c by (apply Z.div_unique_exact; lia).
      destruct (IH c) as [(z & -> & Hz)|(h & e & -> & He & Hc)].
      * left. exists z. split; [done|].
        rewrite Nat2Z.inj_succ, Z.pow_succ_r by lia. lia.
      * right. exists h, e. split; [done|]. split; [lia|].
        replace (Z.of_nat (S n) - Z.pos e)%Z
          with (Z.succ (Z.of_nat n - Z.pos e)) by lia.
        rewrite Z.pow_succ_r by lia. lia.
    + right. exists (k / 2)%Z, (Pos.of_succ_nat n). split; [done|].
      rewrite Zpos_P_of_succ_nat, <- Nat2Z.inj_succ. split; [lia|].
      rewrite Z.sub_diag. simpl.
      assert (Hodd : Z.odd k = true) by (by rewrite <- Z.negb_even, Hev).
      apply Z.odd_spec in Hodd as [c ->].
      replace ((2 * c + 1) / 2)%Z with c; [lia|].
      apply (Z.div_unique _ 2 c 1); lia.
Qed.

(** Rounding to the nearest multiple does not pass a multiple above. *)
Lemma nearest_le (N D C : Z) :
  (0 < D → 0 <= N → N <= C * D →
   let k := N / D in
   let r := N mod D in
   let k' := if 2 * r <? D then k
             else if D <? 2 * r then k + 1
             else if Z.even k then k else k + 1 in
   0 <= k' <= C)%Z.
Proof.
  intros HD HN HC k r k'.
  assert (Hk : (0 <= k)%Z) by (apply Z.div_pos; lia).
  assert (Hr : (0 <= r < D)%Z) by (apply Z.mod_pos_bound; lia).
  assert (HNk : (N = D * k + r)%Z) by (apply Z.div_mod; lia).
  assert (HkC : (k <= C)%Z).
  { apply Z.div_le_upper_bound; lia. }
  assert (Hup : (0 < r → k + 1 <= C)%Z).
  { intros Hpos. destruct (Z.le_gt_cases (k + 1) C) as [|Hgt]; [done|].
    assert (k = C) by lia. subst k. nia. }
  subst k'. destruct (Z.ltb_spec (2 * r) D); [lia|].
  destruct (Z.ltb_spec D (2 * r)); [lia|].
  destruct (Z.even k); lia.
Qed.

Lemma round_ratio_bounds (p q B : Z) :
  (0 < p → 0 < q → p <= B * q → B < 2 ^ 53 →
   isFinite (round_ratio p q) = true
   ∧ num_lt (round_ratio p q) (Fin 0) = false
   ∧ num_lt (Fin B) (round_ratio p q) = false)%Z.
Proof.
  intros Hp Hq HB HB53. unfold round_ratio. cbv zeta.
  destruct (Z.eqb_spec p 0); [lia|].
  rewrite (Z.abs_eq p) by lia.
  destruct (Z.ltb_spec 0 p); [|lia].
  set (d := (Z.log2 p - Z.log2 q)%Z).
  set (above := if (0 <=? d)%Z then (q * 2 ^ d <=? p)%Z
                else (q <=? p * 2 ^ (- d))%Z).
  set (x := if above then d else (d - 1)%Z).
  assert (Hx : (x <= 52)%Z).
  { destruct (Z.le_gt_cases x 52) as [|Hgt]; [done|]. exfalso.
    destruct (Z.log2_spec p Hp) as [Hlp _].
    destruct (Z.log2_spec q Hq) as [_ Hlq].
    pose proof (Z.log2_nonneg q) as Hq0.
    assert (HBq : (B * q < 2 ^ 53 * q)%Z) by nia.
    subst x above. destruct (Z.leb_spec 0 d) as [Hd|Hd].
    - destruct (Z.leb_spec (q * 2 ^ d) p) as [Hab|Hab].
      + assert (2 ^ 53 <= 2 ^ d)%Z by (apply Z.pow_le_mono_r; lia). nia.
      + assert (Hd54 : (54 <= d)%Z) by lia.
        assert (Hpow : (2 ^ Z.log2 p = 2 ^ Z.log2 q * 2 ^ d)%Z).
        { rewrite <- Z.pow_add_r by lia. f_equal. lia. }
        assert (2 ^ 54 <= 2 ^ d)%Z by (apply Z.pow_le_mono_r; lia).
        rewrite Z.pow_succ_r in Hlq by lia.
        assert (0 < 2 ^ Z.log2 q)%Z by (apply Z.pow_pos_nonneg; lia).
        nia.
    - destruct (q <=? p * 2 ^ (- d))%Z; lia. }
  set (E := Z.max (x - 52) (-1074)).
  assert (HE : (E <= 0)%Z) by lia.
  assert (Hpw : (0 < 2 ^ (- E))%Z) by (apply Z.pow_pos_nonneg; lia).
  destruct (Z.leb_spec 0 E) as [HE0|HE0].
  - assert (HEz : E = 0%Z) by lia. clearbody E. subst E.
    rewrite Z.pow_0_r, !Z.mul_1_r.
    pose proof (nearest_le p q B Hq ltac:(lia) HB) as Hk. cbv zeta in Hk.
    set (k' := if (2 * (p mod q) <? q)%Z then _ else _) in *.
    destruct (Z.leb_spec (2 ^ 1024) k') as [Hbig|_].
    + exfalso. assert (2 ^ 53 < 2 ^ 1024)%Z by (apply Z.pow_lt_mono_r; lia). lia.
    + cbn [isFinite num_lt]. repeat split; apply Z.ltb_ge; lia.
  - pose proof (nearest_le (p * 2 ^ (- E)) q (B * 2 ^ (- E)) Hq ltac:(lia)
                  ltac:(nia)) as Hk. cbv zeta in Hk.
    set (k' := if (2 * ((p * 2 ^ (- E)) mod q) <? q)%Z then _ else _) in *.
    destruct (dyadic_spec k' (Z.to_nat (- E)))
      as [(z & -> & Hz)|(h & e & -> & He & Hz)];
      rewrite Z2Nat.id in * by lia.
    + cbn [isFinite num_lt]. repeat split; apply Z.ltb_ge; nia.
    + cbn [isFinite num_lt].
      assert (Hsplit : (2 ^ (- E) = 2 ^ Z.pos e * 2 ^ (- E - Z.pos e))%Z).
      { rewrite <- Z.pow_add_r by lia. f_equal. lia. }
      assert (0 < 2 ^ Z.pos e)%Z by (apply Z.pow_pos_nonneg; lia).
      assert (0 < 2 ^ (- E - Z.pos e))%Z by (apply Z.pow_pos_nonneg; lia).
      repeat split.
      * apply Z.ltb_ge. nia.
      * apply Z.ltb_ge. rewrite Hz, Hsplit in Hk.
        destruct Hk as [_ Hk].
        apply (Z.mul_le_mono_pos_r _ _ (2 ^ (- E - Z.pos e))); [done|]. lia.
Qed.

(** The rounding at work: 0.1 + 0.2 is 0.30000000000000004 and not 0.3,
    1.1 * 1000 is 1100, a third is 0.3333333333333333, 2^53 + 1 goes to
    its even neighbour 2^53 and 2^53 + 3 to 2^53 + 4, half of the least
    fraction goes to zero and three halves of it to its double, 2^1024 is
    beyond the doubles, and 0.5 / 1000 is floored to 0. *)
Lemma rounding_examples :
  num_add (Frac 1801439850948198 55) (Frac 1801439850948198 54)
  = Frac 675539944105574 52
  ∧ Frac 675539944105574 52 ≠ Frac 2702159776422297 54
  ∧ num_mul (Frac 1238489897526886 51) (Fin 1000) = Fin 1100
  ∧ round_ratio 1 3 = Frac 3002399751580330 54
  ∧ round_ratio (2 ^ 53 + 1) 1 = Fin (2 ^ 53)
  ∧ round_ratio (2 ^ 53 + 3) 1 = Fin (2 ^ 53 + 4)
  ∧ round_ratio 1 (2 ^ 1075) = Fin 0
  ∧ round_ratio 3 (2 ^ 1075) = Frac 0 1073
  ∧ round_ratio (2 ^ 1024) 1 = PosInf
  ∧ floor_div (Frac 0 1) 1000 = Fin 0.
Proof. repeat split; try (vm_compute; reflexivity). discriminate. Qed.

(** C9: on every finite number that is not negative, an integer or a
    fraction, getValidDate takes the number for seconds and multiplies it
    by 1000 when it is below 10,000,000,000, and takes it for milliseconds
    otherwise; the date is at the whole milliseconds of that value, and
    there is none when the value is beyond the range of time values.  So
    1700000000 and 1700000000000 give the same instant, 9999999999.5 is
    still seconds and 10000000000.5 is milliseconds, and 0.009, whose
    product with 1000 rounds to 9, is at 9 ms.  Every number of seconds
    below the threshold has a date, within 10^13 ms of the epoch.  A
    negative or non-finite number gives no value. *)
Theorem getValidDate_number {E : Engine} :
  (∀ n : number, isFinite n = true → num_lt n (Fin 0) = false →
     getValidDate (VNum n) =
     let ms :=
       if num_lt n (Fin 10000000000) then num_mul n (Fin 1000) else n in
     match TimeClip ms with
     | Instant t => Some (Instant t)
     | InvalidDate => None
     end)
  ∧ (∀ z : Z, (0 <= z)%Z →
     getValidDate (VNum (Fin z)) =
     let ms := if (z <? 10000000000)%Z then (z * 1000)%Z else z in
     if (ms <=? max_time)%Z then Some (Instant ms) else None)
  ∧ (∀ (h : Z) (e : positive), (0 <= h)%Z →
     getValidDate (VNum (Frac h e)) =
     if (2 * h + 1 <? 10000000000 * 2 ^ Z.pos e)%Z
     then
       match TimeClip (round_ratio ((2 * h + 1) * 1000) (2 ^ Z.pos e)) with
       | Instant t => Some (Instant t)
       | InvalidDate => None
       end
     else if (2 * h + 1 <=? max_time * 2 ^ Z.pos e)%Z
          then Some (Instant ((2 * h + 1) / 2 ^ Z.pos e))
          else None)
  ∧ (∀ n : number,
       isFinite n = true → num_lt n (Fin 0) = false →
       num_lt n (Fin 10000000000) = true →
       ∃ t : Z, getValidDate (VNum n) = Some (Instant t)
                ∧ (0 <= t <= 10000000000000)%Z)
  ∧ getValidDate (VNum (Fin 1700000000)) = Some (Instant 1700000000000)
  ∧ getValidDate (VNum (Fin 1700000000000)) = Some (Instant 1700000000000)
  ∧ getValidDate (VNum (Frac 9999999999 1)) = Some (Instant 9999999999500)
  ∧ getValidDate (VNum (Frac 10000000000 1)) = Some (Instant 10000000000)
  ∧ getValidDate (VNum (Frac 2594073385365405 59)) = Some (Instant 9)
  ∧ (∀ n : number,
       isFinite n = false ∨ num_lt n (Fin 0) = true →
       getValidDate (VNum n) = None).
Proof.
  split; [|split; [|split; [|split]]].
  - intros n Hfin Hneg. unfold getValidDate. rewrite Hfin, Hneg.
    cbn [negb orb]. cbv zeta. by destruct (TimeClip _).
  - intros z Hz. unfold getValidDate. simpl.
    destruct (Z.ltb_spec z 0); [lia|]. simpl.
    destruct (Z.ltb_spec z 10000000000); simpl.
    + rewrite Z.abs_eq by lia.
      by destruct (Z.leb_spec (z * 1000) max_time).
    + rewrite Z.abs_eq by lia.
      by destruct (Z.leb_spec z max_time).
  - intros h e Hh.
    assert (Hp : (0 < 2 ^ Z.pos e)%Z) by (apply Z.pow_pos_nonneg; lia).
    unfold getValidDate. cbn [isFinite negb orb num_lt].
    destruct (Z.ltb_spec (2 * h + 1) (0 * 2 ^ Z.pos e)); [lia|].
    destruct (Z.ltb_spec (2 * h + 1) (10000000000 * 2 ^ Z.pos e)).
    + cbn [num_mul]. rewrite (Z.mul_comm 1000).
      by destruct (TimeClip _).
    + cbn [TimeClip]. rewrite Z.abs_eq by lia.
      destruct (Z.leb_spec (2 * h + 1) (max_time * 2 ^ Z.pos e)); [|done].
      cbn [getTime isNaN]. by rewrite Z.quot_div_nonneg by lia.
  - intros n Hfin Hneg Hsec. unfold getValidDate. rewrite Hfin, Hneg, Hsec.
    cbn [negb orb]. cbv zeta.
    assert (Hclip : ∃ t : Z, TimeClip (num_mul n (Fin 1000)) = Instant t
                             ∧ (0 <= t <= 10000000000000)%Z).
    { destruct n as [| | |z|h e]; try done; cbn [num_lt num_mul] in *.
      - apply Z.ltb_ge in Hneg. apply Z.ltb_lt in Hsec.
        exists (z * 1000)%Z. cbn [TimeClip].
        destruct (Z.leb_spec (Z.abs (z * 1000)) max_time) as [|Hbig];
          [split; [done|lia]|]. unfold max_time in Hbig. lia.
      - assert (Hp : (0 < 2 ^ Z.pos e)%Z) by (apply Z.pow_pos_nonneg; lia).
        apply Z.ltb_ge in Hneg. apply Z.ltb_lt in Hsec.
        destruct (round_ratio_bounds (1000 * (2 * h + 1)) (2 ^ Z.pos e)
                    10000000000000) as (Hf & Hlo & Hhi); [lia..|done|].
        destruct (round_ratio _ _) as [| | |z|h' e']; try done;
          cbn [num_lt TimeClip] in *.
        + apply Z.ltb_ge in Hlo, Hhi. exists z.
          destruct (Z.leb_spec (Z.abs z) max_time) as [|Hbig];
            [split; [done|lia]|]. unfold max_time in Hbig. lia.
        + assert (Hp' : (0 < 2 ^ Z.pos e')%Z) by (apply Z.pow_pos_nonneg; lia).
          apply Z.ltb_ge in Hlo, Hhi.
          exists ((2 * h' + 1) `quot` 2 ^ Z.pos e')%Z.
          destruct (Z.leb_spec (Z.abs (2 * h' + 1)) (max_time * 2 ^ Z.pos e'))
            as [|Hbig]; [|unfold max_time in Hbig; lia].
          split; [done|]. rewrite Z.quot_div_nonneg by lia. split.
          * apply Z.div_pos; lia.
          * apply Z.div_le_upper_bound; lia. }
    destruct Hclip as (t & -> & Ht). by exists t.
  - do 5 (split; [vm_compute; reflexivity|]).
    intros n [Hn|Hn]; unfold getValidDate.
    + by destruct n.
    + rewrite Hn. by rewrite orb_true_r.
Qed.

Lemma getValidDate_number_witness :
  getValidDate (E := sample_engine) (VNum (Fin 12)) = Some (Instant 12000)
  ∧ getValidDate (E := sample_engine) (VNum (Frac 12 1))
    = Some (Instant 12500)
  ∧ getValidDate (E := sample_engine) (VNum (Frac (-2) 1)) = None.
Proof.
  split; [|split].
  - exact (proj1 (proj2 (getValidDate_number (E := sample_engine)))
             12%Z ltac:(lia)).
  - pose proof (proj1 (getValidDate_number (E := sample_engine))
                  (Frac 12 1) eq_refl eq_refl) as H.
    vm_compute in H. exact H.
  - apply (proj2 (proj2 (proj2 (proj2 (proj2 (proj2 (proj2 (proj2 (proj2
             (getValidDate_number (E := sample_engine))))))))))).
    right. reflexivity.
Defined.

(** ** A missing id on a store with other timestamps *)


(** ** Typed records in the store *)

Section typed.
Context {E : Engine} {EL : EngineLaws E}.

Lemma map_VStr_json (l : list string) : map VStr l = map of_json (map JStr l).
Proof. induction l as [|s l IH]; simpl; [done|]. by rewrite IH. Qed.

Lemma NoDup_prompt_keys :
  NoDup ["id"; "title"; "content"; "tags"; "createdAt"; "updatedAt"; "order"].
Proof.
  repeat (apply NoDup_cons_2;
          [rewrite ?elem_of_cons, ?elem_of_nil; intuition discriminate|]).
  apply NoDup_nil_2.
Qed.

Lemma prompt_value_wf r : valid_dates r → wf_prompt (prompt_value r).
Proof.
  intros (tc & tu & HC & Hc & HU & Hu). unfold prompt_value.
  eexists _, tc, tu. split; [done|]. simpl.
  split; [apply NoDup_prompt_keys|].
  split; [by rewrite HC|]. split; [done|]. split; [by rewrite HU|].
  split; [done|].
  repeat apply Forall_cons_2; simpl; try apply Forall_nil_2;
    try (by left); try (by right; left); right; right.
  - by exists (JStr (id r)).
  - by exists (JStr (title r)).
  - by exists (JStr (content r)).
  - exists (JArr (map JStr (tags r))). simpl. by rewrite map_VStr_json.
  - by exists (JNum (order r)).
Qed.

Lemma dump_prompt_value r : valid_dates r → dump (prompt_value r) = prompt_json r.
Proof.
  intros (tc & tu & HC & Hc & HU & Hu).
  unfold dump, serialized, prompt_value, prompt_json, iso_text. simpl.
  rewrite HC, HU. simpl. do 7 f_equal.
  induction (tags r) as [|s l IH]; simpl; [done|]. by rewrite IH.
Qed.

Lemma strict_eq_of_json_str x s : strict_eq (of_json x) (VStr s) = true → x = JStr s.
Proof.
  destruct x; simpl; try done. intros H. apply bool_decide_eq_true in H.
  by subst.
Qed.

Lemma load_prop k j :
  canonical j → k ≠ "createdAt" → k ≠ "updatedAt" →
  lookup_prop k (own_props (load j)) = opt_value (json_prop j k).
Proof.
  intros (o & tc & tu & -> & Hnd & HC & Hc & HU & Hu) HkC HkU.
  rewrite (load_canonical o tc tu) by done. simpl.
  rewrite !lookup_set_prop_ne by done. apply lookup_of_json_props.
Qed.

Lemma has_id_load i j :
  canonical j → json_prop j "id" ≠ Some (JStr i) → has_id i (load j) = false.
Proof.
  intros Hj Hne. unfold has_id. rewrite load_prop by done.
  destruct (json_prop j "id") as [x|]; [|done].
  destruct (strict_eq (of_json x) (VStr i)) eqn:Heq; [|done].
  apply strict_eq_of_json_str in Heq. by subst.
Qed.

Lemma filter_has_id_load i items :
  Forall canonical items →
  Forall (λ j, json_prop j "id" ≠ Some (JStr i)) items →
  List.filter (has_id i) (map load items) = [].
Proof.
  intros Hcan. induction Hcan as [|j l Hj _ IH]; intros Hne; simpl; [done|].
  apply Forall_cons in Hne as [Hne Hl]. rewrite has_id_load by done.
  by apply IH.
Qed.

(** C5: adding a record with valid timestamps whose id is not stored, and
    listing then, gives a list in which exactly one element has that id,
    and this element is the record, field by field.  (That the title and
    the content are not empty plays no part: the store does not look at
    them.) *)
Theorem create_list_roundtrip (w : world) (items : list json) (r : Prompt) :
  healthy w → stored w items → Forall canonical items →
  valid_dates r →
  Forall (λ j, json_prop j "id" ≠ Some (JStr (id r))) items →
  ∃ w1 w2 prompts,
    addPrompt (prompt_value r) w = (Ok (), w1)
    ∧ stored w1 (items ++ [prompt_json r])
    ∧ getPrompts w1 = (Ok prompts, w2)
    ∧ List.filter (has_id (id r)) prompts = [prompt_value r].
Proof.
  intros Hw Hst Hcan Hr Hfresh.
  pose proof (prompt_value_wf r Hr) as Hwf.
  assert (Hsav : Forall savable (map load items ++ [prompt_value r])).
  { apply Forall_app. split.
    - apply Forall_fmap. eapply Forall_impl; [exact Hcan|].
      intros j Hj. by apply wf_savable, load_wf.
    - apply Forall_singleton. by apply wf_savable. }
  assert (Hdump : map dump (map load items ++ [prompt_value r])
                  = items ++ [prompt_json r]).
  { rewrite map_app, map_map. simpl. rewrite dump_prompt_value by done.
    f_equal. rewrite <- (map_id items) at 2. apply map_ext_in.
    intros j Hj. apply dump_load. rewrite Forall_forall in Hcan.
    apply Hcan. by apply list_elem_of_In. }
  eexists _, _, _. split.
  { unfold addPrompt. erewrite bind_ok by (by apply getPrompts_canonical).
    rewrite savePrompts_savable by (done || by apply healthy_next_call).
    rewrite Hdump. reflexivity. }
  split; [apply stored_write|]. split.
  { apply getPrompts_canonical.
    - by apply healthy_write, healthy_next_call, healthy_next_call.
    - apply stored_write.
    - apply Forall_app. split; [done|]. apply Forall_singleton.
      rewrite <- dump_prompt_value by done. by apply dump_canonical. }
  rewrite map_app, List.filter_app, filter_has_id_load by done. simpl.
  rewrite <- dump_prompt_value, load_dump by done.
  unfold has_id. simpl. by rewrite bool_decide_eq_true_2.
Qed.


Lemma Array_filter_pure {A} (f : A → M bool) (g : A → bool) (l : list A)
    (w : world) :
  Forall (λ x, f x w = (Ok (g x), w)) l →
  Array_filter f l w = (Ok (List.filter g l), w).
Proof.
  induction 1 as [|x l Hx _ IH]; simpl; [done|].
  rewrite bind_run, Hx, bind_run, IH. by destruct (g x).
Qed.

Lemma filter_all {A} (g : A → bool) (l : list A) :
  Forall (λ x, g x = true) l → List.filter g l = l.
Proof. induction 1 as [|x l Hx _ IH]; simpl; [done|]. by rewrite Hx, IH. Qed.

Lemma load_is_object j : canonical j → ∃ o, load j = VObj o.
Proof. intros Hj. unfold load. by eexists. Qed.

Lemma same_id_object r o w :
  same_id (prompt_value r) (VObj o) w = (Ok (has_id (id r) (VObj o)), w).
Proof. reflexivity. Qed.


End typed.

(** ** Reordering *)

Section reorder.
Context {E : Engine} {EL : EngineLaws E}.




Lemma promptsWithOrder_lookup l i p :
  promptsWithOrder l !! i = Some p →
  ∃ q, l !! i = Some q
       ∧ p = VObj (set_prop "order" (VNum (Fin (Z.of_nat i))) (own_props q)).
Proof.
  unfold promptsWithOrder. rewrite list_lookup_imap.
  destruct (l !! i) as [q|]; simpl; [|done].
  intros [= <-]. by exists q.
Qed.

Lemma with_order_wf z p :
  wf_prompt p → wf_prompt (VObj (set_prop "order" (VNum (Fin z)) (own_props p))).
Proof.
  intros (o & tc & tu & -> & Hnd & HC & Hc & HU & Hu & Hall). simpl.
  eexists _, tc, tu. split; [done|]. split; [by apply set_prop_NoDup|].
  rewrite !lookup_set_prop_ne by done. repeat (split; [done|]).
  apply Forall_forall. intros kv Hkv.
  apply set_prop_elem in Hkv as [->|Hkv].
  - right; right. by exists (JNum z).
  - rewrite Forall_forall in Hall. by apply Hall.
Qed.

Lemma promptsWithOrder_wf l : Forall wf_prompt l → Forall wf_prompt (promptsWithOrder l).
Proof.
  intros Hl. apply Forall_lookup. intros i p Hp.
  apply promptsWithOrder_lookup in Hp as (q & Hq & ->).
  apply with_order_wf. rewrite Forall_lookup in Hl. by eapply Hl.
Qed.

Lemma stored_unique w a b : stored w a → stored w b → a = b.
Proof.
  intros [Ha|[Ha ->]] [Hb|[Hb ->]]; congruence.
Qed.

(** What reorderPrompts does on well-formed prompts, whatever is stored. *)
Lemma reorderPrompts_run w l :
  healthy w → Forall wf_prompt l →
  let w1 := write_items (map dump (promptsWithOrder l)) (next_call w) in
  reorderPrompts l w = (Ok (), w1)
  ∧ healthy w1
  ∧ stored w1 (map dump (promptsWithOrder l))
  ∧ getPrompts w1 = (Ok (promptsWithOrder l), next_call w1).
Proof.
  intros Hw Hl w1. pose proof (promptsWithOrder_wf l Hl) as Hwf.
  assert (Hw1 : healthy w1) by (by apply healthy_write, healthy_next_call).
  split.
  { unfold reorderPrompts. apply savePrompts_savable; [done|].
    eapply Forall_impl; [exact Hwf|]. apply wf_savable. }
  split; [done|]. split; [apply stored_write|].
  rewrite (getPrompts_canonical w1 (map dump (promptsWithOrder l))).
  - rewrite map_map. do 2 f_equal.
    rewrite <- (map_id (promptsWithOrder l)) at 2. apply map_ext_in.
    intros p Hp. apply load_dump. rewrite Forall_forall in Hwf.
    apply Hwf. by apply list_elem_of_In.
  - done.
  - apply stored_write.
  - apply Forall_fmap. eapply Forall_impl; [exact Hwf|]. apply dump_canonical.
Qed.

(** C10: reorderPrompts of any list of well-formed prompts, whatever the
    store held, leaves exactly that list in the store, each element with
    its index for order; a stored element that is not written is gone. *)
Theorem reorder_overwrites (w : world) (old : list json) (l : list value) :
  healthy w → stored w old → Forall wf_prompt l →
  ∃ w1 w2,
    reorderPrompts l w = (Ok (), w1)
    ∧ stored w1 (map dump (promptsWithOrder l))
    ∧ getPrompts w1 = (Ok (promptsWithOrder l), w2)
    ∧ length (promptsWithOrder l) = length l
    ∧ (∀ i p, promptsWithOrder l !! i = Some p →
         ∃ q, l !! i = Some q
              ∧ p = VObj (set_prop "order" (VNum (Fin (Z.of_nat i)))
                           (own_props q)))
    ∧ (∀ j items, j ∈ old → j ∉ map dump (promptsWithOrder l) →
         stored w1 items → j ∉ items).
Proof.
  intros Hw Hold Hl.
  destruct (reorderPrompts_run w l Hw Hl) as (Hrun & Hw1 & Hst & Hget).
  eexists _, _. split; [exact Hrun|]. split; [exact Hst|].
  split; [exact Hget|]. split; [apply length_imap|].
  split; [apply promptsWithOrder_lookup|].
  intros j items _ Hj Hitems.
  by rewrite (stored_unique _ _ _ Hitems Hst).
Qed.


End reorder.

(** ** Import *)

Lemma Array_some_pure {A} (f : A → M bool) (g : A → bool) (l : list A)
    (w : world) :
  Forall (λ x, f x w = (Ok (g x), w)) l →
  Array_some f l w = (Ok (existsb g l), w).
Proof.
  induction 1 as [|x l Hx _ IH]; simpl; [done|].
  rewrite bind_run, Hx. by destruct (g x).
Qed.

Lemma same_text_run prompt existing w :
  is_object prompt → is_object existing →
  same_text prompt existing w = (Ok (same_text_pure prompt existing), w).
Proof.
  intros [op ->] [oe ->]. unfold same_text, same_text_pure. mrun.
  destruct (strict_eq (lookup_prop "title" oe) (lookup_prop "title" op));
    by mrun.
Qed.

Lemma is_new_run existing prompt w :
  is_object prompt → Forall is_object existing →
  is_new existing prompt w = (Ok (is_new_pure existing prompt), w).
Proof.
  intros Hp Hex. pose proof Hp as [op ->].
  unfold is_new, is_new_pure. mrun.
  destruct (truthy (lookup_prop "id" op)); mrun; [|done].
  destruct (truthy (lookup_prop "title" op)); mrun; [|done].
  destruct (truthy (lookup_prop "content" op)); mrun; [|done].
  rewrite (Array_some_pure _ (same_text_pure (VObj op))); [done|].
  eapply Forall_impl; [exact Hex|]. intros x Hx. by apply same_text_run.
Qed.

Lemma filter_new_run existing candidates n w :
  Forall is_object candidates → Forall is_object existing →
  filter_new existing candidates n w
  = (Ok (List.filter (is_new_pure existing) candidates,
         n + length (List.filter (is_new_pure existing) candidates)), w).
Proof.
  intros Hc Hex. revert n.
  induction Hc as [|p l Hp _ IH]; intros n; simpl.
  - by rewrite Nat.add_0_r.
  - rewrite bind_run, is_new_run by done. rewrite bind_run, IH.
    destruct (is_new_pure existing p); simpl; [|done].
    rewrite ret_run. do 3 f_equal. lia.
Qed.

Lemma strict_eq_opt a b : strict_eq (opt_value a) (opt_value b) = true → a = b.
Proof.
  destruct a as [[]|], b as [[]|]; simpl; try done.
  - intros H. apply bool_decide_eq_true in H. by subst.
  - intros H. apply Z.eqb_eq in H. by subst.
  - intros H. apply andb_true_iff in H as [Hh He].
    apply Z.eqb_eq in Hh. apply Pos.eqb_eq in He. by subst.
  - intros H. apply bool_decide_eq_true in H. by subst.
Qed.

Lemma getValidDate_instant {E : Engine} v d :
  getValidDate v = Some d → ∃ t, d = Instant t.
Proof.
  destruct d as [|t]; [|by exists t]. unfold getValidDate.
  destruct v as [| | |n|s|[|]|l|o]; try done.
  - destruct (negb (isFinite n) || num_lt n (Fin 0)); [done|].
    destruct (TimeClip _); done.
  - destruct (decide (trim s = "")); [done|].
    destruct (Date_of_string s); done.
Qed.

(** The greatest of a list of order values. *)
Lemma Math_max_greatest (l : list Z) (m : Z) :
  m ∈ l → Forall (λ z, (z <= m)%Z) l → Math_max (map Fin l) = Fin m.
Proof.
  intros Hin Hle.
  assert (Hgen : ∀ l, l = [] ∧ Math_max (map Fin l) = NegInf
                      ∨ ∃ m, Math_max (map Fin l) = Fin m ∧ m ∈ l
                             ∧ Forall (λ z, (z <= m)%Z) l).
  { clear. induction l as [|x l [[-> IH]|(m & IH & Hm & Hle)]].
    - by left.
    - right. exists x. simpl. split; [done|]. split; [by left|].
      by apply Forall_singleton.
    - right.
      change (Math_max (map Fin (x :: l)))
        with (num_max (Fin x) (Math_max (map Fin l))).
      rewrite IH. simpl.
      destruct (Z.ltb_spec x m).
      + exists m. split; [done|]. split; [by right|].
        apply Forall_cons_2; [lia|done].
      + exists x. split; [done|]. split; [by left|].
        apply Forall_cons_2; [lia|].
        eapply Forall_impl; [exact Hle|]. simpl. lia. }
  destruct (Hgen l) as [[-> _]|(m' & -> & Hm' & Hle')]; [by inversion Hin|].
  f_equal. rewrite Forall_forall in Hle, Hle'.
  pose proof (Hle _ Hm'). pose proof (Hle' _ Hin). lia.
Qed.

Section import_healthy.
Context {E : Engine} {EL : EngineLaws E}.

Lemma imported_prompt_run maxOrder o index w :
  truthy (lookup_prop "id" o) = true →
  imported_prompt maxOrder (VObj o) index w
  = (Ok (imported_value maxOrder (Instant (clock w (ticks w))) (VObj o) index),
     next_tick w).
Proof.
  intros Hid. unfold imported_prompt, imported_value, createCurrentDate.
  rewrite bind_run. unfold new_Date at 1. mrun. rewrite Hid. by mrun.
Qed.

Lemma imported_prompts_run maxOrder prompts index w :
  Forall (λ p, ∃ o, p = VObj o ∧ truthy (lookup_prop "id" o) = true) prompts →
  Array_map_from index (imported_prompt maxOrder) prompts w
  = (Ok (imported_values maxOrder prompts index w),
     Nat.iter (length prompts) next_tick w).
Proof.
  intros Hp. revert index w.
  induction Hp as [|p l (o & -> & Hid) _ IH]; intros index w; simpl; [done|].
  rewrite bind_run, imported_prompt_run by done. rewrite bind_run, IH.
  rewrite ret_run. do 2 f_equal. clear. induction (length l) as [|n IHn]; simpl; [done|].
  by rewrite IHn.
Qed.

Lemma default_instant t v :
  ∃ t', default (Instant t) (getValidDate v) = Instant t'.
Proof.
  destruct (getValidDate v) as [d|] eqn:Hd; simpl; [|by eexists].
  by eapply getValidDate_instant.
Qed.

Lemma imported_value_savable (m : Z) (t : Z) (oc : list (string * json))
    (index : nat) :
  NoDup oc.*1 → truthy (opt_value (json_lookup "id" oc)) = true →
  savable (imported_value (Fin m) (Instant t) (of_json (JObj oc)) index).
Proof.
  intros Hnd Hid. unfold imported_value. simpl. fold (of_json_props oc).
  set (o := of_json_props oc).
  destruct (default_instant t (lookup_prop "createdAt" o)) as [tc ->].
  destruct (default_instant t (lookup_prop "updatedAt" o)) as [tu ->].
  eexists _, tc, tu. split; [done|]. split.
  { do 5 apply set_prop_NoDup. unfold o. by rewrite of_json_props_keys. }
  split.
  { rewrite !lookup_set_prop_ne by done. apply lookup_set_prop_eq. }
  split.
  { rewrite lookup_set_prop_ne by done. apply lookup_set_prop_eq. }
  assert (Hjson : ∀ k, is_json (lookup_prop k o) ∨ lookup_prop k o = VUndef).
  { intros k. unfold o. rewrite lookup_of_json_props.
    destruct (json_lookup k oc) as [x|]; [left; by exists x|by right]. }
  apply Forall_forall. intros kv Hkv.
  apply set_prop_elem in Hkv as [->|Hkv].
  { right; right. simpl. destruct (Hjson "tags") as [[x Hx]|Hx]; rewrite Hx.
    - destruct (isArray (of_json x)); [by exists x|by exists (JArr [])].
    - by exists (JArr []). }
  apply set_prop_elem in Hkv as [->|Hkv]; [by right; left|].
  apply set_prop_elem in Hkv as [->|Hkv]; [by left|].
  apply set_prop_elem in Hkv as [->|Hkv].
  { right; right. simpl. by eexists (JNum _). }
  apply set_prop_elem in Hkv as [->|Hkv].
  { right; right. simpl. unfold o. rewrite lookup_of_json_props.
    destruct (json_lookup "id" oc) as [x|]; [by exists x|done]. }
  right; right. apply list_elem_of_fmap in Hkv as ([k j] & -> & _). by exists j.
Qed.

Lemma dump_prop p k x :
  savable p → k ≠ "createdAt" → k ≠ "updatedAt" →
  lookup_prop k (own_props p) = of_json x → json_prop (dump p) k = Some x.
Proof.
  intros Hp HkC HkU Hx. destruct (serialized_is_json p Hp) as [oj Hoj].
  unfold dump. rewrite Hoj, to_json_of_json. simpl.
  destruct Hp as (o & tc & tu & -> & Hnd & HC & HU & Hall).
  rewrite (serialized_savable o tc tu) in Hoj by done.
  simpl in Hoj, Hx. injection Hoj as Hoj. fold (of_json_props oj) in Hoj.
  assert (Hk : lookup_prop k (of_json_props oj) = of_json x).
  { by rewrite <- Hoj, !lookup_set_prop_ne. }
  rewrite lookup_of_json_props in Hk.
  destruct (json_lookup k oj) as [j|].
  - simpl in Hk. apply (f_equal (to_json toJSON)) in Hk.
    by rewrite !to_json_of_json in Hk.
  - by destruct x.
Qed.

Lemma clock_write w items : clock (write_items items w) = clock w.
Proof. unfold write_items. by destruct (chrome_api w). Qed.

Lemma clock_ticks n w : clock (Nat.iter n next_tick w) = clock w.
Proof. induction n as [|n IH]; simpl; [done|]. exact IH. Qed.

Lemma healthy_ticks n w : healthy w → healthy (Nat.iter n next_tick w).
Proof. intros Hw. induction n as [|n IH]; simpl; [done|]. exact IH. Qed.

Lemma imported_values_savable (m : Z) (new : list value) (index : nat)
    (w : world) :
  Forall (λ p, ∃ oc, p = of_json (JObj oc) ∧ NoDup oc.*1
               ∧ truthy (opt_value (json_lookup "id" oc)) = true) new →
  Forall savable (imported_values (Fin m) new index w).
Proof.
  intros Hnew. revert index w.
  induction Hnew as [|p l (oc & -> & Hnd & Hid) _ IH]; intros index w.
  - apply Forall_nil_2.
  - apply Forall_cons_2; [by apply imported_value_savable|apply IH].
Qed.

Lemma max_order_greatest z l :
  max_order (z :: l) ∈ z :: l ∧ Forall (λ x, (x <= max_order (z :: l))%Z) (z :: l).
Proof.
  simpl. induction l as [|y l [Hin Hle]]; simpl.
  - split; [by left|]. by apply Forall_singleton.
  - apply Forall_cons in Hle as [Hz Hle]. split.
    + destruct (Z.max_spec y (foldr Z.max z l)) as [[_ ->]|[_ ->]].
      * apply elem_of_cons in Hin as [->|Hin]; [by left|].
        by right; right.
      * right; by left.
    + apply Forall_cons_2; [lia|]. apply Forall_cons_2; [lia|].
      eapply Forall_impl; [exact Hle|]. simpl. lia.
Qed.

Lemma maxOrder_run (items : list json) (orders : list Z) :
  Forall2 (λ j z, json_prop j "order" = Some (JNum z)) items orders →
  (if bool_decide (0 < length (map load items))
   then Math_max (map ToNumber
                    (map (λ j, opt_value (json_prop j "order")) items))
   else Fin (-1))
  = Fin (max_order orders).
Proof.
  intros Hord.
  assert (Hmap : map ToNumber
                   (map (λ j, opt_value (json_prop j "order")) items)
                 = map Fin orders).
  { induction Hord as [|j z l l' Hj _ IH]; simpl; [done|].
    by rewrite Hj, IH. }
  rewrite Hmap. destruct Hord as [|j z l l' Hj Hl]; [done|].
  rewrite bool_decide_eq_true_2 by (simpl; lia).
  destruct (max_order_greatest z l').
  by apply Math_max_greatest.
Qed.

(** What import does on a healthy world whose store is canonical, for a
    document whose candidates are objects. *)
Lemma importPrompts_run (w : world) (items : list json)
    (doc : list (string * json)) (cands : list json) (orders : list Z) :
  healthy w → stored w items → Forall canonical items →
  Forall2 (λ j z, json_prop j "order" = Some (JNum z)) items orders →
  json_lookup "prompts" doc = Some (JArr cands) →
  Forall (λ c, ∃ oc, c = JObj oc ∧ NoDup oc.*1) cands →
  let new := List.filter (is_new_pure (map load items)) (map of_json cands) in
  ∃ res w1,
    importPrompts (Readable (JsonText (JObj doc))) w = (Ok res, w1)
    ∧ success res = true
    ∧ imported res = length new
    ∧ healthy w1 ∧ clock w1 = clock w
    ∧ (new = [] →
         chrome_item w1 = chrome_item w ∧ local_item w1 = local_item w)
    ∧ stored w1
        (items ++
         map dump (imported_values (Fin (max_order orders)) new 0 (next_call w))).
Proof.
  intros Hw Hst Hcan Hord Hdoc Hcands new.
  assert (Hobj : Forall is_object (map load items)).
  { apply Forall_fmap. eapply Forall_impl; [exact Hcan|]. apply load_is_object. }
  assert (Hcobj : Forall is_object (map of_json cands)).
  { apply Forall_fmap. eapply Forall_impl; [exact Hcands|].
    intros c (oc & -> & _). by eexists. }
  assert (Hnew : Forall (λ p, ∃ oc, p = of_json (JObj oc) ∧ NoDup oc.*1
                    ∧ truthy (opt_value (json_lookup "id" oc)) = true) new).
  { apply Forall_forall. intros p Hp. unfold new in Hp.
    apply list_elem_of_In, filter_In in Hp as [Hp Hkeep].
    apply list_elem_of_In, list_elem_of_fmap in Hp as (c & -> & Hc).
    rewrite Forall_forall in Hcands. destruct (Hcands c Hc) as (oc & -> & Hnd).
    exists oc. split; [done|]. split; [done|].
    unfold is_new_pure in Hkeep. simpl in Hkeep. fold (of_json_props oc) in Hkeep.
    rewrite !andb_true_iff in Hkeep. destruct Hkeep as [[[Hid _] _] _].
    by rewrite lookup_of_json_props in Hid. }
  pose proof (filter_new_run (map load items) (map of_json cands) 0
                (next_call w) Hcobj Hobj) as Hfilter.
  fold new in Hfilter.
  assert (Horders :
    Array_map (λ p, lift (prop p "order")) (map load items) (next_call w)
    = (Ok (map (λ j, opt_value (json_prop j "order")) items), next_call w)).
  { apply Array_map_pure. rewrite Forall_forall in Hcan.
    apply Forall_forall. intros j Hj.
    destruct (load_is_object j (Hcan j Hj)) as [o Ho].
    rewrite <- (load_prop "order" j) by auto. by rewrite Ho. }
  clearbody new. unfold importPrompts. destruct new as [|p new'].
  - eexists _, (next_call w). split.
    { apply try_ok. mrun. rewrite lookup_of_json_props, Hdoc. mrun.
      rewrite (getPrompts_canonical w items) by done. mrun.
      rewrite Hfilter. mrun. reflexivity. }
    simpl. rewrite app_nil_r. done.
  - eexists _, _. split.
    { apply try_ok. mrun. rewrite lookup_of_json_props, Hdoc. mrun.
      rewrite (getPrompts_canonical w items) by done. mrun.
      rewrite Hfilter. mrun. rewrite Horders. mrun.
      rewrite (maxOrder_run items orders Hord).
      unfold Array_mapi. rewrite imported_prompts_run.
      2:{ eapply Forall_impl; [exact Hnew|]. intros q (oc & -> & _ & Hid).
          eexists. split; [done|]. by rewrite lookup_of_json_props. }
      mrun. rewrite savePrompts_savable.
      - mrun. reflexivity.
      - by apply healthy_ticks, healthy_next_call.
      - apply Forall_app. split.
        + apply Forall_fmap. eapply Forall_impl; [exact Hcan|].
          intros j Hj. by apply wf_savable, load_wf.
        + by apply (imported_values_savable _ (p :: new') 0 (next_call w)). }
    simpl. split; [done|]. split; [f_equal; lia|]. split.
    { by apply healthy_write, healthy_next_call, healthy_ticks,
        healthy_next_call. }
    split.
    { rewrite clock_write. simpl. by rewrite clock_ticks. }
    split; [done|].
    rewrite map_app, map_map.
    replace (map (λ j, dump (load j)) items) with items; [apply stored_write|].
    rewrite <- (map_id items) at 1. apply map_ext_in.
    intros j Hj. symmetry. apply dump_load. rewrite Forall_forall in Hcan.
    apply Hcan. by apply list_elem_of_In.
Qed.


Lemma same_text_load oc j :
  canonical j →
  same_text_pure (of_json (JObj oc)) (load j)
  = strict_eq (opt_value (json_prop j "title"))
              (opt_value (json_lookup "title" oc))
    && strict_eq (opt_value (json_prop j "content"))
                 (opt_value (json_lookup "content" oc)).
Proof.
  intros Hj. unfold same_text_pure. rewrite !load_prop by done.
  simpl. fold (of_json_props oc). by rewrite !lookup_of_json_props.
Qed.

Lemma truthy_opt_value j : truthy (opt_value j) = true → ∃ x, j = Some x.
Proof. destruct j as [x|]; [by exists x|done]. Qed.

Lemma imported_value_prop (m : number) (now : Date) (oc : list (string * json))
    (index : nat) (k : string) :
  k ≠ "tags" → k ≠ "updatedAt" → k ≠ "createdAt" → k ≠ "order" →
  lookup_prop k (own_props (imported_value m now (of_json (JObj oc)) index))
  = opt_value (json_lookup k oc).
Proof.
  intros. unfold imported_value. simpl. fold (of_json_props oc).
  rewrite !lookup_set_prop_ne by done.
  destruct (decide (k = "id")) as [->|].
  - by rewrite lookup_set_prop_eq, lookup_of_json_props.
  - by rewrite lookup_set_prop_ne, lookup_of_json_props.
Qed.

(** C3: on a collection that holds a record with title "A" and content
    "B" and whose orders are safe integers (within 2^53 - 1 of zero, where
    adding one is exact), importing a document whose one record has that
    title and that content imports nothing and leaves the collection as it
    was; importing a document whose one record, with an id, a title and a
    content, differs from every stored record in title or in content
    imports one record, which is stored last with the greatest stored
    order plus one for order. *)
Theorem import_dedupes (w : world) (items : list json) (orders : list Z)
    (doc oc : list (string * json)) :
  healthy w → stored w items → Forall canonical items →
  Forall2 (λ j z, json_prop j "order" = Some (JNum z)) items orders →
  Forall safe_integer orders →
  (∃ j, j ∈ items ∧ json_prop j "title" = Some (JStr "A")
        ∧ json_prop j "content" = Some (JStr "B")) →
  json_lookup "prompts" doc = Some (JArr [JObj oc]) → NoDup oc.*1 →
  (json_lookup "title" oc = Some (JStr "A") →
   json_lookup "content" oc = Some (JStr "B") →
   ∃ res w1,
     importPrompts (Readable (JsonText (JObj doc))) w = (Ok res, w1)
     ∧ success res = true ∧ imported res = 0
     ∧ chrome_item w1 = chrome_item w ∧ local_item w1 = local_item w
     ∧ stored w1 items)
  ∧ (truthy (opt_value (json_lookup "id" oc)) = true →
     truthy (opt_value (json_lookup "title" oc)) = true →
     truthy (opt_value (json_lookup "content" oc)) = true →
     Forall (λ j, json_prop j "title" ≠ json_lookup "title" oc
                  ∨ json_prop j "content" ≠ json_lookup "content" oc) items →
     ∃ res w1 added,
       importPrompts (Readable (JsonText (JObj doc))) w = (Ok res, w1)
       ∧ success res = true ∧ imported res = 1
       ∧ stored w1 (items ++ [added])
       ∧ json_prop added "order" = Some (JNum (max_order orders + 1))
       ∧ max_order orders ∈ orders
       ∧ Forall (λ z, (z <= max_order orders)%Z) orders
       ∧ json_prop added "id" = json_lookup "id" oc
       ∧ json_prop added "title" = json_lookup "title" oc
       ∧ json_prop added "content" = json_lookup "content" oc).
Proof.
  intros Hw Hst Hcan Hord _ (j0 & Hj0 & HA & HB) Hdoc Hnd.
  assert (Hcands : Forall (λ c, ∃ oc, c = JObj oc ∧ NoDup oc.*1) [JObj oc]).
  { apply Forall_singleton. by exists oc. }
  destruct (importPrompts_run w items doc [JObj oc] orders Hw Hst Hcan Hord
              Hdoc Hcands)
    as (res & w1 & Hrun & Hsucc & Hcount & Hw1 & _ & Hsame & Hst1).
  split.
  - intros HtA HcB.
    assert (Hnew : List.filter (is_new_pure (map load items))
                     (map of_json [JObj oc]) = []).
    { simpl. fold (of_json_props oc). unfold is_new_pure.
      replace (existsb _ _) with true; [by rewrite andb_false_r|].
      symmetry. apply existsb_exists. exists (load j0). split.
      - apply list_elem_of_In, list_elem_of_fmap. by exists j0.
      - change (VObj (of_json_props oc)) with (of_json (JObj oc)).
        rewrite Forall_forall in Hcan.
        rewrite same_text_load by auto. by rewrite HA, HB, HtA, HcB. }
    rewrite Hnew in *. exists res, w1. simpl in Hst1. rewrite app_nil_r in Hst1.
    destruct (Hsame eq_refl). done.
  - intros Hid Htitle Hcontent Hdiff.
    assert (Hnew : List.filter (is_new_pure (map load items))
                     (map of_json [JObj oc]) = [of_json (JObj oc)]).
    { simpl. fold (of_json_props oc). unfold is_new_pure. simpl.
      rewrite !lookup_of_json_props, Hid, Htitle, Hcontent. simpl.
      replace (existsb _ _) with false; [done|].
      symmetry. apply not_true_is_false. intros Hex.
      apply existsb_exists in Hex as (p & Hp & Hsame').
      apply list_elem_of_In, list_elem_of_fmap in Hp as (j & -> & Hj).
      rewrite Forall_forall in Hcan, Hdiff.
      change (VObj (of_json_props oc)) with (of_json (JObj oc)) in Hsame'.
      rewrite same_text_load in Hsame' by auto.
      apply andb_true_iff in Hsame' as [Ht Hc].
      apply strict_eq_opt in Ht, Hc. destruct (Hdiff j Hj); done. }
    rewrite Hnew in *. simpl in Hst1.
    set (added :=
      imported_value (Fin (max_order orders)) (Instant (clock w (ticks w)))
        (VObj (of_json_props oc)) 0) in *.
    assert (Hsav : savable added) by (by apply (imported_value_savable _ _ oc 0)).
    exists res, w1, (dump added). do 3 (split; [done|]). split; [done|].
    assert (Hne : orders ≠ []).
    { intros ->. apply Forall2_nil_inv_r in Hord. subst. inversion Hj0. }
    destruct orders as [|z orders']; [done|].
    destruct (max_order_greatest z orders') as [Hin Hle].
    split.
    { apply dump_prop; [done..|]. unfold added, imported_value. simpl.
      rewrite !lookup_set_prop_ne by done. rewrite lookup_set_prop_eq.
      by rewrite Z.add_0_r. }
    split; [done|]. split; [done|].
    destruct (truthy_opt_value _ Hid) as [xi Hxi].
    destruct (truthy_opt_value _ Htitle) as [xt Hxt].
    destruct (truthy_opt_value _ Hcontent) as [xc Hxc].
    rewrite Hxi, Hxt, Hxc.
    split; [|split]; (apply dump_prop; [done..|]);
      unfold added; change (VObj (of_json_props oc)) with (of_json (JObj oc));
      rewrite imported_value_prop by done; by rewrite ?Hxi, ?Hxt, ?Hxc.
Qed.

End import_healthy.

(** ** What every run keeps, failures included *)

#[global] Instance same_store_preorder : PreOrder same_store.
Proof.
  split.
  - by intros w.
  - intros w1 w2 w3 (?&?&?&?&?) (?&?&?&?&?). unfold same_store.
    repeat split; congruence.
Qed.

Section respects.
Context (R : world → world → Prop) `{!PreOrder R}.

Lemma respects_ret {A} (a : A) : respects R (mret a).
Proof. intros w. simpl. reflexivity. Qed.

Lemma respects_throw {A} (e : exn) : respects R (throw (A := A) e).
Proof. intros w. simpl. reflexivity. Qed.

Lemma respects_lift {A} (r : result A) : respects R (lift r).
Proof. intros w. simpl. reflexivity. Qed.

Lemma respects_bind {A B} (m : M A) (f : A → M B) :
  respects R m → (∀ a, respects R (f a)) → respects R (m ≫= f).
Proof.
  intros Hm Hf w. rewrite bind_run. specialize (Hm w).
  destruct (m w) as [[a|e] w1]; simpl in *; [|done].
  etrans; [exact Hm|apply Hf].
Qed.

Lemma respects_bind_post {A B} (m : M A) (f : A → M B) (Q : A → Prop) :
  respects R m → post m Q → (∀ a, Q a → respects R (f a)) →
  respects R (m ≫= f).
Proof.
  intros Hm HQ Hf w. rewrite bind_run. specialize (Hm w).
  destruct (m w) as [[a|e] w1] eqn:Hrun; simpl in *; [|done].
  etrans; [exact Hm|]. apply Hf. by eapply HQ.
Qed.

Lemma respects_try {A} (m : M A) (h : exn → M A) :
  respects R m → (∀ e, respects R (h e)) → respects R (try_catch m h).
Proof.
  intros Hm Hh w. unfold try_catch. specialize (Hm w).
  destruct (m w) as [[a|e] w1]; simpl in *; [done|].
  etrans; [exact Hm|apply Hh].
Qed.

Lemma respects_Array_map_from {A B} (f : A → nat → M B) (l : list A) (i : nat) :
  (∀ x j, respects R (f x j)) → respects R (Array_map_from i f l).
Proof.
  intros Hf. revert i. induction l as [|x l IH]; intros i; simpl.
  - apply respects_ret.
  - apply respects_bind; [apply Hf|]. intros y.
    apply respects_bind; [apply IH|]. intros ys. apply respects_ret.
Qed.

Lemma respects_Array_map {A B} (f : A → M B) (l : list A) :
  (∀ x, respects R (f x)) → respects R (Array_map f l).
Proof. intros Hf. apply respects_Array_map_from. intros x _. apply Hf. Qed.

Lemma respects_Array_filter {A} (f : A → M bool) (l : list A) :
  (∀ x, respects R (f x)) → respects R (Array_filter f l).
Proof.
  intros Hf. induction l as [|x l IH]; simpl.
  - apply respects_ret.
  - apply respects_bind; [apply Hf|]. intros keep.
    apply respects_bind; [apply IH|]. intros xs. apply respects_ret.
Qed.

Lemma respects_Array_some {A} (f : A → M bool) (l : list A) :
  (∀ x, respects R (f x)) → respects R (Array_some f l).
Proof.
  intros Hf. induction l as [|x l IH]; simpl.
  - apply respects_ret.
  - apply respects_bind; [apply Hf|]. intros [|]; [apply respects_ret|apply IH].
Qed.

Lemma respects_Array_findIndex_from {A} (f : A → M bool) (l : list A) (i : nat) :
  (∀ x, respects R (f x)) → respects R (Array_findIndex_from i f l).
Proof.
  intros Hf. revert i. induction l as [|x l IH]; intros i; simpl.
  - apply respects_ret.
  - apply respects_bind; [apply Hf|]. intros [|]; [apply respects_ret|apply IH].
Qed.

End respects.

Lemma respects_weaken {A} (R R' : world → world → Prop) (m : M A) :
  (∀ w w', R w w' → R' w w') → respects R m → respects R' m.
Proof. intros HR Hm w. apply HR, Hm. Qed.

(** *** The reads *)

Lemma read_only_gets {A} (f : world → A) : respects same_store (gets f).
Proof. by intros w. Qed.

Lemma read_only_new_Date : respects same_store new_Date.
Proof. by intros w. Qed.

Lemma read_only_Date_now : respects same_store Date_now.
Proof. by intros w. Qed.

Lemma read_only_backend : respects same_store backend.
Proof. intros w. unfold backend. by destruct (fault w (calls w)). Qed.

Create HintDb ro.
#[global] Hint Resolve respects_ret respects_throw respects_lift
  read_only_gets read_only_new_Date read_only_Date_now read_only_backend
  : ro.
#[global] Hint Extern 1 (PreOrder same_store) => exact same_store_preorder : ro.

(** One step into a computation built from binds, branches and the
    combinators above; what the hints know is not entered. *)
Ltac ro_step :=
  first
    [ solve [auto with ro]
    | apply respects_bind; [typeclasses eauto| |intros ?]
    | apply respects_try; [typeclasses eauto| |intros ?]
    | apply respects_Array_map; [typeclasses eauto|intros ?]
    | apply respects_Array_map_from; [typeclasses eauto|intros ? ?]
    | apply respects_Array_filter; [typeclasses eauto|intros ?]
    | apply respects_Array_some; [typeclasses eauto|intros ?]
    | apply respects_Array_findIndex_from; [typeclasses eauto|intros ?]
    | match goal with
      | |- respects _ (match ?x with _ => _ end) => destruct x
      | |- respects _ (if ?b then _ else _) => destruct b
      end ].

Ltac ro := repeat ro_step.

Section reads.
Context {E : Engine}.

Lemma read_only_chrome_storage_get : respects same_store chrome_storage_get.
Proof. unfold chrome_storage_get. ro. Qed.

Lemma read_only_localStorage_getItem : respects same_store localStorage_getItem.
Proof. unfold localStorage_getItem. ro. Qed.

Lemma read_only_restoreDateFromStorage v :
  respects same_store (restoreDateFromStorage v).
Proof. unfold restoreDateFromStorage. ro. Qed.

Lemma read_only_dateToISOString v : respects same_store (dateToISOString v).
Proof.
  unfold dateToISOString, getValidDateWithFallback, Date_toISOString. ro.
Qed.

#[local] Hint Resolve read_only_chrome_storage_get
  read_only_localStorage_getItem read_only_restoreDateFromStorage
  read_only_dateToISOString : ro.

Lemma read_only_serialize_prompt p : respects same_store (serialize_prompt p).
Proof. unfold serialize_prompt. ro. Qed.

Lemma read_only_restore_prompt p : respects same_store (restore_prompt p).
Proof. unfold restore_prompt. ro. Qed.

#[local] Hint Resolve read_only_serialize_prompt read_only_restore_prompt : ro.

Lemma read_only_getPrompts : respects same_store getPrompts.
Proof. unfold getPrompts, has_chrome_storage, call_map, parse_stored. ro. Qed.

Lemma read_only_same_id u p : respects same_store (same_id u p).
Proof. unfold same_id. ro. Qed.

Lemma read_only_same_text p x : respects same_store (same_text p x).
Proof. unfold same_text. ro. Qed.

#[local] Hint Resolve read_only_getPrompts read_only_same_id
  read_only_same_text : ro.

Lemma read_only_is_new existing p : respects same_store (is_new existing p).
Proof. unfold is_new. ro. Qed.

#[local] Hint Resolve read_only_is_new : ro.

Lemma read_only_filter_new existing l n :
  respects same_store (filter_new existing l n).
Proof. revert n. induction l as [|p l IH]; intros n; simpl; ro. Qed.

Lemma read_only_imported_prompt mo p i :
  respects same_store (imported_prompt mo p i).
Proof. unfold imported_prompt, createCurrentDate. ro. Qed.

End reads.

#[global] Hint Resolve read_only_chrome_storage_get
  read_only_localStorage_getItem read_only_restoreDateFromStorage
  read_only_dateToISOString read_only_serialize_prompt
  read_only_restore_prompt read_only_getPrompts read_only_same_id
  read_only_same_text read_only_is_new read_only_filter_new
  read_only_imported_prompt : ro.

(** *** The writes *)

Section writes.
Context {E : Engine}.

#[global] Instance stamped_writes_preorder : PreOrder stamped_writes.
Proof.
  split.
  - intros w. split; by left.
  - intros w1 w2 w3 [Hc Hl] [Hc' Hl']. split.
    + destruct Hc' as [->|?]; [done|by right].
    + destruct Hl' as [->|?]; [done|by right].
Qed.

Lemma same_store_stamped w w' : same_store w w' → stamped_writes w w'.
Proof. intros (_ & Hc & Hl & _). split; by left. Qed.

Lemma read_only_stamped {A} (m : M A) :
  respects same_store m → respects stamped_writes m.
Proof. apply respects_weaken, same_store_stamped. Qed.

Lemma post_ret {A} (a : A) (Q : A → Prop) : Q a → post (mret a) Q.
Proof. intros Ha w a' w' [= <- _]. exact Ha. Qed.

Lemma post_bind {A B} (m : M A) (f : A → M B) (Q : B → Prop) :
  (∀ a, post (f a) Q) → post (m ≫= f) Q.
Proof.
  intros Hf w b w' Hrun. rewrite bind_run in Hrun.
  destruct (m w) as [[a|e] w1]; [|done]. by eapply Hf.
Qed.

Lemma post_bind_post {A B} (m : M A) (f : A → M B) (P : A → Prop)
    (Q : B → Prop) :
  post m P → (∀ a, P a → post (f a) Q) → post (m ≫= f) Q.
Proof.
  intros Hm Hf w b w' Hrun. rewrite bind_run in Hrun.
  destruct (m w) as [[a|e] w1] eqn:Hm'; [|done].
  eapply Hf; [|exact Hrun]. by eapply Hm.
Qed.

Lemma post_Array_map_from {A B} (f : A → nat → M B) (Q : B → Prop)
    (l : list A) (i : nat) :
  (∀ x j, post (f x j) Q) → post (Array_map_from i f l) (Forall Q).
Proof.
  intros Hf. revert i. induction l as [|x l IH]; intros i; simpl.
  - apply post_ret. apply Forall_nil_2.
  - eapply post_bind_post; [apply Hf|]. intros y Hy.
    eapply post_bind_post; [apply IH|]. intros ys Hys.
    apply post_ret. by apply Forall_cons_2.
Qed.

Lemma post_dateToISOString v :
  post (dateToISOString v) (λ s, ∃ t, s = toISOString t).
Proof.
  unfold dateToISOString. apply post_bind. intros [|t]; simpl.
  - by intros w a w'.
  - apply post_ret. by exists t.
Qed.

Lemma post_serialize_prompt p : post (serialize_prompt p) stamped_value.
Proof.
  unfold serialize_prompt.
  eapply post_bind_post.
  { apply post_bind. intros c. apply post_dateToISOString. }
  intros sc [tc ->].
  eapply post_bind_post.
  { apply post_bind. intros u. apply post_dateToISOString. }
  intros su [tu ->]. apply post_ret.
  eexists _, tc, tu. split; [done|]. split.
  - rewrite lookup_set_prop_ne by done. apply lookup_set_prop_eq.
  - apply lookup_set_prop_eq.
Qed.

Lemma json_lookup_omap (d : Date → json) k s o :
  lookup_prop k o = VStr s →
  json_lookup k
    (omap (λ kv, match to_json d kv.2 with
                 | Some j => Some (kv.1, j)
                 | None => None
                 end) o)
  = Some (JStr s).
Proof.
  induction o as [|[k' v] o IH]; simpl; [done|].
  destruct (decide (k' = k)) as [->|Hne].
  - intros ->. simpl. by rewrite decide_True.
  - intros Hk. destruct (to_json d v); simpl; [|by apply IH].
    rewrite decide_False by done. by apply IH.
Qed.

Lemma to_json_stamped (d : Date → json) v :
  stamped_value v → stamped (default JNull (to_json d v)).
Proof.
  intros (o & tc & tu & -> & HC & HU). simpl.
  eexists _, tc, tu. split; [done|].
  split; by apply json_lookup_omap.
Qed.

Lemma array_json_stamped (d : Date → json) items :
  Forall stamped_value items →
  ∃ js, array_json d items = JArr js ∧ Forall stamped js.
Proof.
  intros Hitems. eexists. split; [done|]. apply Forall_fmap.
  eapply Forall_impl; [exact Hitems|]. intros v Hv. by apply to_json_stamped.
Qed.

Lemma stamped_chrome_storage_set items :
  Forall stamped_value items → respects stamped_writes (chrome_storage_set items).
Proof.
  intros Hitems w. unfold chrome_storage_set. rewrite bind_run.
  unfold backend. destruct (fault w (calls w)); simpl; [by split; left|].
  split; [right|by left].
  destruct (array_json_stamped chrome_date items Hitems) as (js & Hjs & Hst).
  exists js. by rewrite Hjs.
Qed.

Lemma stamped_localStorage_setItem items :
  Forall stamped_value items →
  respects stamped_writes (localStorage_setItem (JSON_stringify items)).
Proof.
  intros Hitems w. unfold localStorage_setItem. rewrite bind_run.
  unfold backend. destruct (fault w (calls w)); simpl; [by split; left|].
  split; [by left|right].
  destruct (array_json_stamped toJSON items Hitems) as (js & Hjs & Hst).
  exists js. unfold JSON_stringify. by rewrite Hjs.
Qed.

Lemma stamped_savePrompts prompts : respects stamped_writes (savePrompts prompts).
Proof.
  assert (Hmap : post (Array_map serialize_prompt prompts) (Forall stamped_value)).
  { apply post_Array_map_from. intros x _. apply post_serialize_prompt. }
  assert (Hro : respects stamped_writes (Array_map serialize_prompt prompts)).
  { apply read_only_stamped. ro. }
  unfold savePrompts. apply respects_try; [typeclasses eauto| |intros _].
  - eapply respects_bind_post; [typeclasses eauto|exact Hro|exact Hmap|].
    intros items Hitems.
    apply respects_bind; [typeclasses eauto|apply read_only_stamped; ro|].
    intros [|].
    + by apply stamped_chrome_storage_set.
    + by apply stamped_localStorage_setItem.
  - eapply respects_bind_post; [typeclasses eauto|exact Hro|exact Hmap|].
    intros items Hitems. by apply stamped_localStorage_setItem.
Qed.

End writes.

Create HintDb sw.
#[global] Hint Resolve stamped_savePrompts respects_ret respects_throw
  respects_lift : sw.
#[global] Hint Extern 5 (respects stamped_writes _) =>
  (apply read_only_stamped; solve [ro]) : sw.

Ltac sw_step :=
  first
    [ solve [auto with sw]
    | apply respects_bind; [typeclasses eauto| |intros ?]
    | apply respects_try; [typeclasses eauto| |intros ?]
    | match goal with
      | |- respects _ (match ?x with _ => _ end) => destruct x
      | |- respects _ (if ?b then _ else _) => destruct b
      end ].

Ltac sw := repeat sw_step.

(** ** Operations *)

Section invariants.
Context {E : Engine}.

Lemma stamped_importPrompts file : respects stamped_writes (importPrompts file).
Proof. unfold importPrompts, File_text, Array_mapi. sw. Qed.

Lemma stamped_run_op o : respects stamped_writes (run_op o).
Proof.
  destruct o; simpl.
  - unfold addPrompt. sw.
  - unfold updatePrompt, Array_findIndex. sw.
  - unfold deletePrompt. sw.
  - unfold reorderPrompts. sw.
  - apply respects_bind; [typeclasses eauto|apply stamped_importPrompts|].
    intros _. apply respects_ret. typeclasses eauto.
Qed.

Lemma stamped_store_step w w' :
  stamped_store w → stamped_writes w w' → stamped_store w'.
Proof.
  intros [Hc Hl] [Hc' Hl']. split.
  - destruct Hc' as [->|?]; [done|by right].
  - destruct Hl' as [->|?]; [done|by right].
Qed.

(** C8: whatever the world and the argument, after a create, update,
    delete, reorder or import each back end holds what it held before or
    an array of objects whose createdAt and updatedAt are ISO texts; so a
    store that holds nothing but such elements stays so along every
    sequence of operations. *)
Theorem timestamps_written_as_iso :
  (∀ (w : world) (o : op), stamped_writes w (run_op o w).2)
  ∧ (∀ (ops : list op) (w : world),
       stamped_store w → stamped_store (run_ops ops w)).
Proof.
  split.
  - intros w o. apply stamped_run_op.
  - intros ops. induction ops as [|o ops IH]; intros w Hw; [done|].
    apply IH. eapply stamped_store_step; [exact Hw|apply stamped_run_op].
Qed.

End invariants.

(** ** Import of a malformed document *)

Section import_failures.
Context {E : Engine}.

(** C6: a document whose prompts field is missing or is not an array makes
    import return a result with success false and imported 0, in a world
    that is left untouched; and on every file in every world import
    returns a result, never throws, and a result without success counts
    no import. *)
Theorem import_rejects_invalid :
  (∀ (w : world) (doc : json),
     (∀ items, json_prop doc "prompts" ≠ Some (JArr items)) →
     ∃ res,
       importPrompts (Readable (JsonText doc)) w = (Ok res, w)
       ∧ success res = false ∧ imported res = 0)
  ∧ (∀ (w : world) (file : File),
       ∃ res w1,
         importPrompts file w = (Ok res, w1)
         ∧ (success res = true ∨ success res = false ∧ imported res = 0)).
Proof.
  split.
  - intros w doc Hdoc. unfold importPrompts, try_catch.
    destruct doc as [| | | | | |o]; mrun; try (by eexists).
    fold (of_json_props o). rewrite lookup_of_json_props.
    assert (Hna : isArray (opt_value (json_lookup "prompts" o)) = false).
    { simpl in Hdoc. destruct (json_lookup "prompts" o) as [[]|]; try done.
      by edestruct Hdoc. }
    rewrite Hna, orb_true_r. mrun. by eexists.
  - intros w file. unfold importPrompts, try_catch.
    match goal with |- context [match ?body w with _ => _ end] =>
      assert (Hpost : post body (λ r, success r = true));
      [|destruct (body w) as [[res|e] w1] eqn:Hbody]
    end.
    + repeat (apply post_bind; intros ?). by apply post_ret.
    + exists res, w1. split; [done|]. left. by eapply Hpost.
    + eexists _, w1. split; [done|]. by right.
Qed.

End import_failures.

(** ** Listing when a back end fails *)

(** C1, counterexample: when the primary read and the secondary read both
    throw, getPrompts throws what the secondary read threw; it does not
    return an empty list. *)
Lemma list_raises_when_both_reads_fail :
  (getPrompts (E := sample_engine) both_down).1
  = Throw (Error "localStorage is down").
Proof. reflexivity. Qed.

Section fallback.
Context {E : Engine} {EL : EngineLaws E}.

(** C1, as the code has it: when the primary read throws, getPrompts
    turns to the secondary store: it returns the empty list when that
    store holds nothing, the stored prompts when it holds a canonical
    array, and it throws what the secondary read throws when that read
    fails too. *)
Theorem list_falls_back (w : world) (e : exn) :
  chrome_api w = true → fault w (calls w) = Some e →
  (fault w (S (calls w)) = None → local_item w = None →
     ∃ w1, getPrompts w = (Ok [], w1))
  ∧ (∀ items,
       fault w (S (calls w)) = None →
       local_item w = Some (JsonText (JArr items)) → Forall canonical items →
       ∃ w1, getPrompts w = (Ok (map load items), w1))
  ∧ (∀ e', fault w (S (calls w)) = Some e' →
       ∃ w1, getPrompts w = (Throw e', w1)).
Proof.
  intros Hapi Hfault.
  assert (Hprimary : ∀ h : exn → M (list value),
            getPrompts w = (stored ← localStorage_getItem;
                            rawPrompts ← parse_stored stored;
                            call_map rawPrompts restore_prompt) (next_call w)).
  { intros _. unfold getPrompts. erewrite try_throw; [reflexivity|].
    unfold has_chrome_storage, gets, chrome_storage_get.
    rewrite bind_run, Hapi. rewrite !bind_run. unfold backend.
    by rewrite Hfault. }
  rewrite (Hprimary (λ _, mret [])). clear Hprimary.
  assert (Hread : ∀ k : option text → M (list value),
            (localStorage_getItem ≫= k) (next_call w)
            = match fault w (S (calls w)) with
              | Some e' => (Throw e', next_call (next_call w))
              | None => k (local_item w) (next_call (next_call w))
              end).
  { intros k. unfold localStorage_getItem, gets. rewrite !bind_run.
    unfold backend. simpl. by destruct (fault w (S (calls w))). }
  rewrite Hread. repeat split.
  - intros -> ->. mrun. by eexists.
  - intros items -> -> Hcan. mrun. eexists.
    apply Array_map_pure. eapply Forall_impl; [exact Hcan|].
    intros j Hj. by apply restore_prompt_canonical.
  - intros e' ->. by eexists.
Qed.

End fallback.

(** ** Distinct ids *)

Lemma Array_findIndex_from_pure {A} (f : A → M bool) (g : A → bool)
    (l : list A) (i : nat) (w : world) :
  Forall (λ x, f x w = (Ok (g x), w)) l →
  Array_findIndex_from i f l w = (Ok ((λ n, i + n) <$> find_index g l), w).
Proof.
  intros Hl. revert i. induction Hl as [|x l Hx _ IH]; intros i; simpl; [done|].
  rewrite bind_run, Hx. destruct (g x); simpl.
  - by rewrite Nat.add_0_r.
  - rewrite IH. destruct (find_index g l) as [n|]; simpl; [|done].
    do 3 f_equal. lia.
Qed.

Lemma find_index_Some {A} (g : A → bool) (l : list A) (i : nat) :
  find_index g l = Some i → ∃ x, l !! i = Some x ∧ g x = true.
Proof.
  revert i. induction l as [|x l IH]; intros i; simpl; [done|].
  destruct (g x) eqn:Hg.
  - intros [= <-]. by exists x.
  - destruct (find_index g l) as [n|]; simpl; [|done].
    intros [= <-]. by apply IH.
Qed.

Lemma filter_map_swap {A B} (f : A → B) (g : B → bool) (l : list A) :
  List.filter g (map f l) = map f (List.filter (λ x, g (f x)) l).
Proof.
  induction l as [|x l IH]; simpl; [done|].
  destruct (g (f x)); simpl; by rewrite IH.
Qed.

Lemma Forall_List_filter {A} (P : A → Prop) (g : A → bool) (l : list A) :
  Forall P l → Forall P (List.filter g l).
Proof.
  induction 1 as [|x l Hx _ IH]; simpl; [done|].
  destruct (g x); [by apply Forall_cons_2|done].
Qed.

Lemma to_json_opt_value (d : Date → json) (x : option json) :
  to_json d (opt_value x) = x.
Proof. destruct x as [j|]; simpl; [apply to_json_of_json|done]. Qed.

Section ids.
Context {E : Engine} {EL : EngineLaws E}.

(** A property other than the timestamps is written as it is. *)
Lemma dump_prop_any p k :
  savable p → k ≠ "createdAt" → k ≠ "updatedAt" →
  json_prop (dump p) k = to_json toJSON (lookup_prop k (own_props p)).
Proof.
  intros Hp HkC HkU. destruct (serialized_is_json p Hp) as [oj Hoj].
  unfold dump. rewrite Hoj, to_json_of_json. simpl.
  destruct Hp as (o & tc & tu & -> & Hnd & HC & HU & Hall).
  rewrite (serialized_savable o tc tu) in Hoj by done.
  simpl in Hoj. injection Hoj as Hoj. fold (of_json_props oj) in Hoj. simpl.
  assert (Hk : lookup_prop k (of_json_props oj) = lookup_prop k o).
  { by rewrite <- Hoj, !lookup_set_prop_ne. }
  rewrite lookup_of_json_props in Hk. by rewrite <- Hk, to_json_opt_value.
Qed.

Lemma load_id_json j :
  canonical j →
  to_json toJSON (lookup_prop "id" (own_props (load j))) = json_prop j "id".
Proof. intros Hj. by rewrite load_prop, to_json_opt_value. Qed.

Lemma has_id_load_true i j :
  canonical j → has_id i (load j) = true → json_prop j "id" = Some (JStr i).
Proof.
  intros Hj. unfold has_id. rewrite load_prop by done.
  destruct (json_prop j "id") as [x|]; [|done]. simpl.
  intros H. by rewrite (strict_eq_of_json_str _ _ H).
Qed.

Lemma wf_intro p :
  savable p →
  (∀ t, lookup_prop "createdAt" (own_props p) = VDate (Instant t) → in_range t) →
  (∀ t, lookup_prop "updatedAt" (own_props p) = VDate (Instant t) → in_range t) →
  wf_prompt p.
Proof.
  intros (o & tc & tu & -> & Hnd & HC & HU & Hall) Hc Hu. simpl in *.
  exists o, tc, tu. repeat split; auto.
Qed.

Lemma quot_pow_bound (a m : Z) (e : positive) :
  (Z.abs a <= m * 2 ^ Z.pos e → Z.abs (Z.quot a (2 ^ Z.pos e)) <= m)%Z.
Proof.
  intros H. assert (Hp : (0 < 2 ^ Z.pos e)%Z) by (apply Z.pow_pos_nonneg; lia).
  rewrite <- Z.quot_abs by lia. rewrite (Z.abs_eq (2 ^ Z.pos e)) by lia.
  rewrite Z.quot_div_nonneg by lia.
  apply Z.div_le_upper_bound; lia.
Qed.

Lemma TimeClip_range n t : TimeClip n = Instant t → in_range t.
Proof.
  destruct n as [| | |z|h e]; simpl; try done.
  - destruct (Z.leb_spec (Z.abs z) max_time); [|done].
    by intros [= <-].
  - destruct (Z.leb_spec (Z.abs (2 * h + 1)) (max_time * 2 ^ Z.pos e)); [|done].
    intros [= <-]. by apply quot_pow_bound.
Qed.

Lemma getValidDate_json_range x t :
  getValidDate (opt_value x) = Some (Instant t) → in_range t.
Proof.
  destruct x as [[| |z|h e|s| |]|]; simpl; try done.
  - destruct (z <? 0)%Z; simpl; [done|].
    destruct (TimeClip _) as [|t'] eqn:Hclip; simpl; [done|].
    intros [= <-]. by eapply TimeClip_range.
  - destruct (_ <? _)%Z; simpl; [done|].
    destruct (TimeClip _) as [|t'] eqn:Hclip; simpl; [done|].
    intros [= <-]. by eapply TimeClip_range.
  - destruct (decide (trim s = "")); [done|]. unfold Date_of_string.
    destruct (TimeClip _) as [|t'] eqn:Hclip; simpl; [done|].
    intros [= <-]. by eapply TimeClip_range.
Qed.

Lemma default_date_range now x t :
  in_range now →
  default (Instant now) (getValidDate (opt_value x)) = Instant t → in_range t.
Proof.
  intros Hnow. destruct (getValidDate (opt_value x)) as [[|t']|] eqn:Hd; simpl.
  - done.
  - intros [= <-]. by eapply getValidDate_json_range.
  - by intros [= <-].
Qed.

Lemma imported_value_wf (m now : Z) (oc : list (string * json)) (index : nat) :
  NoDup oc.*1 → truthy (opt_value (json_lookup "id" oc)) = true →
  in_range now →
  wf_prompt (imported_value (Fin m) (Instant now) (of_json (JObj oc)) index).
Proof.
  intros Hnd Hid Hnow. apply wf_intro.
  - by apply imported_value_savable.
  - intros t. unfold imported_value. simpl. fold (of_json_props oc).
    rewrite !lookup_set_prop_ne by done. rewrite lookup_set_prop_eq.
    rewrite lookup_of_json_props. intros [= Ht].
    by eapply default_date_range.
  - intros t. unfold imported_value. simpl. fold (of_json_props oc).
    rewrite !lookup_set_prop_ne by done. rewrite lookup_set_prop_eq.
    rewrite lookup_of_json_props. intros [= Ht].
    by eapply default_date_range.
Qed.

End ids.

Section crud_runs.
Context {E : Engine} {EL : EngineLaws E}.

Lemma loaded_savable items :
  Forall canonical items → Forall savable (map load items).
Proof.
  intros Hcan. apply Forall_fmap. eapply Forall_impl; [exact Hcan|].
  intros j Hj. by apply wf_savable, load_wf.
Qed.

Lemma dump_loaded items :
  Forall canonical items → map dump (map load items) = items.
Proof.
  intros Hcan. rewrite map_map. rewrite <- (map_id items) at 2.
  apply map_ext_in. intros j Hj. apply dump_load.
  rewrite Forall_forall in Hcan. apply Hcan. by apply list_elem_of_In.
Qed.

Lemma addPrompt_run w items r :
  healthy w → stored w items → Forall canonical items → valid_dates r →
  addPrompt (prompt_value r) w
  = (Ok (), write_items (items ++ [prompt_json r]) (next_call (next_call w))).
Proof.
  intros Hw Hst Hcan Hr. unfold addPrompt.
  erewrite bind_ok by (by apply getPrompts_canonical).
  rewrite savePrompts_savable.
  - rewrite map_app, dump_loaded by done. simpl.
    by rewrite dump_prompt_value.
  - by apply healthy_next_call.
  - apply Forall_app. split; [by apply loaded_savable|].
    apply Forall_singleton. by apply wf_savable, prompt_value_wf.
Qed.

Lemma updatePrompt_run w items r :
  healthy w → stored w items → Forall canonical items → valid_dates r →
  updatePrompt (prompt_value r) w
  = match find_index (has_id (id r)) (map load items) with
    | Some i =>
        (Ok (), write_items (<[i := prompt_json r]> items)
                  (next_call (next_call w)))
    | None => (Ok (), next_call w)
    end.
Proof.
  intros Hw Hst Hcan Hr. unfold updatePrompt.
  erewrite bind_ok by (by apply getPrompts_canonical).
  unfold Array_findIndex.
  rewrite bind_run, (Array_findIndex_from_pure _ (has_id (id r))).
  2:{ apply Forall_fmap. eapply Forall_impl; [exact Hcan|].
      intros j Hj. simpl. destruct (load_is_object j Hj) as [o ->].
      apply same_id_object. }
  destruct (find_index _ _) as [i|]; simpl; [|done].
  rewrite savePrompts_savable.
  - do 2 f_equal.
    change (map dump (<[i:=prompt_value r]> (map load items)))
      with (dump <$> <[i:=prompt_value r]> (map load items)).
    rewrite list_fmap_insert.
    change (dump <$> map load items) with (map dump (map load items)).
    by rewrite dump_loaded, dump_prompt_value.
  - by apply healthy_next_call.
  - apply Forall_insert; [by apply loaded_savable|].
    by apply wf_savable, prompt_value_wf.
Qed.

Lemma deletePrompt_run w items promptId :
  healthy w → stored w items → Forall canonical items →
  deletePrompt promptId w
  = (Ok (), write_items
              (List.filter (λ j, negb (has_id promptId (load j))) items)
              (next_call (next_call w))).
Proof.
  intros Hw Hst Hcan. unfold deletePrompt.
  erewrite bind_ok by (by apply getPrompts_canonical).
  rewrite bind_run.
  rewrite (Array_filter_pure _ (λ p, negb (has_id promptId p))).
  2:{ apply Forall_fmap, Forall_forall. intros j Hj. by unfold load. }
  rewrite filter_map_swap. rewrite savePrompts_savable.
  - rewrite dump_loaded; [done|].
    by apply Forall_List_filter.
  - by apply healthy_next_call.
  - apply loaded_savable. by apply Forall_List_filter.
Qed.

End crud_runs.

Section distinct_ids.
Context {E : Engine} {EL : EngineLaws E}.

Lemma tidy_write (w : world) (items' : list json) :
  healthy w → (∀ n, in_range (clock w n)) →
  Forall canonical items' → Forall numeric_order items' →
  tidy (write_items items' w) items'.
Proof.
  intros Hw Hclock Hcan Hnum. split; [by apply healthy_write|]. split.
  { by rewrite clock_write. }
  split; [apply stored_write|done].
Qed.

Lemma prompt_json_canonical r : valid_dates r → canonical (prompt_json r).
Proof.
  intros Hr. rewrite <- dump_prompt_value by done.
  by apply dump_canonical, prompt_value_wf.
Qed.

Lemma prompt_json_numeric r : numeric_order (prompt_json r).
Proof. by exists (order r). Qed.

Lemma NoDup_ids_filter (g : json → bool) (items : list json) :
  NoDup (ids items) → NoDup (ids (List.filter g items)).
Proof.
  unfold ids. induction items as [|j l IH]; simpl; [done|].
  intros [Hj Hl]%NoDup_cons. destruct (g j); simpl; [|by apply IH].
  apply NoDup_cons. split; [|by apply IH].
  intros Hin. apply Hj. apply list_elem_of_fmap in Hin as (j' & Heq & Hj').
  apply list_elem_of_fmap. exists j'. split; [done|].
  apply list_elem_of_In. apply list_elem_of_In, filter_In in Hj' as [Hj' _].
  done.
Qed.

Lemma create_keeps_ids (w : world) (items : list json) (r : Prompt) :
  tidy w items → NoDup (ids items) → valid_dates r →
  Some (JStr (id r)) ∉ ids items →
  ∃ items', tidy (addPrompt (prompt_value r) w).2 items' ∧ NoDup (ids items').
Proof.
  intros (Hw & Hclock & Hst & Hcan & Hnum) Hnd Hr Hfresh.
  rewrite (addPrompt_run w items) by done. simpl.
  exists (items ++ [prompt_json r]). split.
  - apply tidy_write; [by do 2 apply healthy_next_call|done| |].
    + apply Forall_app. split; [done|].
      by apply Forall_singleton, prompt_json_canonical.
    + apply Forall_app. split; [done|].
      apply Forall_singleton, prompt_json_numeric.
  - unfold ids. rewrite map_app. simpl. apply NoDup_app. split; [done|].
    split; [|apply NoDup_singleton].
    intros x Hx Hx'. apply list_elem_of_singleton in Hx'. by subst.
Qed.

Lemma update_keeps_ids (w : world) (items : list json) (r : Prompt) :
  tidy w items → NoDup (ids items) → valid_dates r →
  ∃ items', tidy (updatePrompt (prompt_value r) w).2 items' ∧ NoDup (ids items').
Proof.
  intros (Hw & Hclock & Hst & Hcan & Hnum) Hnd Hr.
  rewrite (updatePrompt_run w items) by done.
  destruct (find_index _ _) as [i|] eqn:Hfind; simpl.
  - exists (<[i := prompt_json r]> items). split.
    + apply tidy_write; [by do 2 apply healthy_next_call|done| |].
      * apply Forall_insert; [done|]. by apply prompt_json_canonical.
      * apply Forall_insert; [done|]. apply prompt_json_numeric.
    + apply find_index_Some in Hfind as (p & Hp & Hhas).
      change (map load items) with (load <$> items) in Hp.
      rewrite list_lookup_fmap in Hp.
      destruct (items !! i) as [j|] eqn:Hj; simpl in Hp; [|done].
      injection Hp as <-.
      assert (Hcanj : canonical j).
      { rewrite Forall_forall in Hcan. apply Hcan.
        by eapply list_elem_of_lookup_2. }
      apply has_id_load_true in Hhas; [|done].
      replace (ids (<[i:=prompt_json r]> items)) with (ids items); [done|].
      unfold ids.
      change (map (λ j, json_prop j "id") (<[i:=prompt_json r]> items))
        with ((λ j, json_prop j "id") <$> <[i:=prompt_json r]> items).
      rewrite list_fmap_insert. simpl. symmetry. apply list_insert_id.
      change (map (λ j, json_prop j "id") items)
        with ((λ j, json_prop j "id") <$> items).
      by rewrite list_lookup_fmap, Hj, <- Hhas.
  - exists items. split; [|done].
    split; [by apply healthy_next_call|]. done.
Qed.

Lemma delete_keeps_ids (w : world) (items : list json) (promptId : string) :
  tidy w items → NoDup (ids items) →
  ∃ items', tidy (deletePrompt promptId w).2 items' ∧ NoDup (ids items').
Proof.
  intros (Hw & Hclock & Hst & Hcan & Hnum) Hnd.
  rewrite (deletePrompt_run w items) by done. simpl.
  eexists. split.
  - apply tidy_write; [by do 2 apply healthy_next_call|done| |];
      by apply Forall_List_filter.
  - by apply NoDup_ids_filter.
Qed.

End distinct_ids.

Section distinct_ids_bulk.
Context {E : Engine} {EL : EngineLaws E}.

Lemma ids_dump (l : list value) :
  Forall savable l → ids (map dump l) = map written_id l.
Proof.
  intros Hl. unfold ids. rewrite map_map. apply map_ext_in.
  intros p Hp. apply dump_prop_any; [|done..].
  rewrite Forall_forall in Hl. apply Hl. by apply list_elem_of_In.
Qed.

Lemma written_id_load (items : list json) :
  Forall canonical items → map written_id (map load items) = ids items.
Proof.
  intros Hcan. unfold ids. rewrite map_map. apply map_ext_in.
  intros j Hj. apply load_id_json. rewrite Forall_forall in Hcan.
  apply Hcan. by apply list_elem_of_In.
Qed.

Lemma written_id_promptsWithOrder (l : list value) :
  map written_id (promptsWithOrder l) = map written_id l.
Proof.
  apply list_eq. intros i.
  change (map written_id (promptsWithOrder l))
    with (written_id <$> promptsWithOrder l).
  change (map written_id l) with (written_id <$> l).
  unfold promptsWithOrder. rewrite !list_lookup_fmap, list_lookup_imap.
  destruct (l !! i) as [q|]; simpl; [|done].
  unfold written_id. simpl. by rewrite lookup_set_prop_ne.
Qed.

Lemma reorder_keeps_ids (w : world) (items : list json) (l : list value) :
  tidy w items → NoDup (ids items) → l ≡ₚ map load items →
  ∃ items', tidy (reorderPrompts l w).2 items' ∧ NoDup (ids items').
Proof.
  intros (Hw & Hclock & Hst & Hcan & Hnum) Hnd Hperm.
  assert (Hl : Forall wf_prompt l).
  { rewrite Hperm. apply Forall_fmap. eapply Forall_impl; [exact Hcan|].
    apply load_wf. }
  destruct (reorderPrompts_run w l Hw Hl) as (Hrun & Hw1 & Hst1 & _).
  rewrite Hrun. simpl. pose proof (promptsWithOrder_wf l Hl) as Hwf.
  exists (map dump (promptsWithOrder l)). split.
  - apply tidy_write; [by apply healthy_next_call|done| |].
    + apply Forall_fmap. eapply Forall_impl; [exact Hwf|]. apply dump_canonical.
    + apply Forall_fmap, Forall_lookup. intros i p Hp. simpl.
      destruct (promptsWithOrder_lookup l i p Hp) as (q & Hq & ->).
      exists (Z.of_nat i). rewrite dump_prop_any; [|apply wf_savable|done..].
      * simpl. by rewrite lookup_set_prop_eq.
      * rewrite Forall_lookup in Hwf. by eapply Hwf.
  - rewrite ids_dump by (eapply Forall_impl; [exact Hwf|apply wf_savable]).
    rewrite written_id_promptsWithOrder.
    assert (Hp : map written_id l ≡ₚ ids items).
    { rewrite <- written_id_load by done.
      change (written_id <$> l ≡ₚ written_id <$> map load items).
      by rewrite Hperm. }
    by rewrite Hp.
Qed.

Lemma numeric_orders (items : list json) :
  Forall numeric_order items →
  ∃ orders, Forall2 (λ j z, json_prop j "order" = Some (JNum z)) items orders.
Proof.
  induction 1 as [|j l [z Hz] _ [orders IH]].
  - exists []. constructor.
  - exists (z :: orders). by constructor.
Qed.

Lemma imported_values_wf (m : Z) (new : list value) (index : nat) (w : world) :
  (∀ n, in_range (clock w n)) →
  Forall (λ p, ∃ oc, p = of_json (JObj oc) ∧ NoDup oc.*1
               ∧ truthy (opt_value (json_lookup "id" oc)) = true) new →
  Forall wf_prompt (imported_values (Fin m) new index w).
Proof.
  intros Hclock Hnew. revert index w Hclock.
  induction Hnew as [|p l (oc & -> & Hnd & Hid) _ IH]; intros index w Hclock.
  - apply Forall_nil_2.
  - apply Forall_cons_2; [by apply imported_value_wf|by apply IH].
Qed.

Lemma written_id_imported_value (m : number) (now : Date)
    (oc : list (string * json)) (index : nat) :
  written_id (imported_value m now (of_json (JObj oc)) index)
  = json_lookup "id" oc.
Proof.
  unfold written_id. by rewrite imported_value_prop, to_json_opt_value.
Qed.

Lemma imported_values_ids (m : number) (new : list json) (index : nat)
    (w : world) :
  Forall (λ c, ∃ oc, c = JObj oc) new →
  map written_id (imported_values m (map of_json new) index w) = ids new.
Proof.
  intros Hnew. revert index w.
  induction Hnew as [|c l [oc ->] _ IH]; intros index w; [done|].
  change (map written_id (imported_values m (map of_json (JObj oc :: l)) index w))
    with (written_id (imported_value m (Instant (clock w (ticks w)))
                        (of_json (JObj oc)) index)
          :: map written_id
               (imported_values m (map of_json l) (S index) (next_tick w))).
  rewrite written_id_imported_value, IH. done.
Qed.

Lemma imported_values_numeric (m : Z) (new : list value) (index : nat)
    (w : world) :
  Forall savable (imported_values (Fin m) new index w) →
  Forall numeric_order (map dump (imported_values (Fin m) new index w)).
Proof.
  revert index w. induction new as [|p l IH]; intros index w; simpl.
  - intros _. apply Forall_nil_2.
  - intros [Hp Hl]%Forall_cons. apply Forall_cons_2; [|by apply IH].
    eexists. rewrite dump_prop_any by done. unfold imported_value. simpl.
    rewrite !lookup_set_prop_ne by done. by rewrite lookup_set_prop_eq.
Qed.

Lemma import_keeps_ids (w : world) (items : list json)
    (doc : list (string * json)) (cands : list json) :
  tidy w items → NoDup (ids items) →
  json_lookup "prompts" doc = Some (JArr cands) →
  Forall (λ c, ∃ oc, c = JObj oc ∧ NoDup oc.*1) cands →
  NoDup (ids items ++ ids (kept items cands)) →
  ∃ items',
    tidy (importPrompts (Readable (JsonText (JObj doc))) w).2 items'
    ∧ NoDup (ids items').
Proof.
  intros (Hw & Hclock & Hst & Hcan & Hnum) Hnd Hdoc Hcands Hfresh.
  destruct (numeric_orders items Hnum) as [orders Hord].
  destruct (importPrompts_run w items doc cands orders Hw Hst Hcan Hord
              Hdoc Hcands)
    as (res & w1 & Hrun & _ & _ & Hw1 & Hclock1 & _ & Hst1).
  rewrite Hrun. simpl. rewrite filter_map_swap in Hst1. fold (kept items cands) in Hst1.
  assert (Hkept : Forall (λ c, ∃ oc, c = JObj oc ∧ NoDup oc.*1
                    ∧ truthy (opt_value (json_lookup "id" oc)) = true)
                    (kept items cands)).
  { apply Forall_forall. intros c Hc. unfold kept in Hc.
    apply list_elem_of_In, filter_In in Hc as [Hc Hkeep].
    rewrite Forall_forall in Hcands.
    destruct (Hcands c) as (oc & -> & Hndc); [by apply list_elem_of_In|].
    exists oc. split; [done|]. split; [done|].
    unfold is_new_pure in Hkeep. simpl in Hkeep. fold (of_json_props oc) in Hkeep.
    rewrite !andb_true_iff in Hkeep. destruct Hkeep as [[[Hid _] _] _].
    by rewrite lookup_of_json_props in Hid. }
  assert (Hwf : Forall wf_prompt
            (imported_values (Fin (max_order orders))
               (map of_json (kept items cands)) 0 (next_call w))).
  { apply imported_values_wf; [done|]. apply Forall_fmap.
    eapply Forall_impl; [exact Hkept|]. intros c (oc & -> & ? & ?).
    by exists oc. }
  assert (Hsav : Forall savable
            (imported_values (Fin (max_order orders))
               (map of_json (kept items cands)) 0 (next_call w))).
  { eapply Forall_impl; [exact Hwf|]. apply wf_savable. }
  eexists. split.
  - split; [done|]. split; [by rewrite Hclock1|]. split; [exact Hst1|].
    split.
    + apply Forall_app. split; [done|]. apply Forall_fmap.
      eapply Forall_impl; [exact Hwf|]. apply dump_canonical.
    + apply Forall_app. split; [done|]. by apply imported_values_numeric.
  - unfold ids at 1. rewrite map_app. fold (ids items).
    fold (ids (map dump (imported_values (Fin (max_order orders))
                 (map of_json (kept items cands)) 0 (next_call w)))).
    rewrite ids_dump by done. rewrite imported_values_ids; [done|].
    eapply Forall_impl; [exact Hkept|]. intros c (oc & -> & _). by exists oc.
Qed.

(** One admissible operation keeps the store tidy and its ids distinct. *)
Lemma admissible_step (w : world) (items : list json) (o : op) :
  tidy w items → NoDup (ids items) → admissible items o →
  ∃ items', tidy (run_op o w).2 items' ∧ NoDup (ids items').
Proof.
  intros Hw Hnd Ho. destruct o as [p|p|pid|l|f]; simpl in *.
  - destruct Ho as (r & -> & Hr & Hfresh). by apply (create_keeps_ids w items).
  - destruct Ho as (r & -> & Hr). by apply (update_keeps_ids w items).
  - by apply (delete_keeps_ids w items).
  - by apply (reorder_keeps_ids w items).
  - destruct Ho as (doc & cands & -> & Hdoc & Hcands & Hfresh).
    destruct (import_keeps_ids w items doc cands Hw Hnd Hdoc Hcands Hfresh)
      as (items' & Htidy & Hnd').
    exists items'. split; [|done].
    rewrite bind_run.
    by destruct (importPrompts _ w) as [[res|e] w1].
Qed.

(** C2, as the code has it: from a tidy store with distinct ids, every
    sequence of operations keeps the ids distinct, provided each create
    carries an id that is not stored, each reorder hands over the listed
    prompts in some sequence, and the records that each import adds carry
    ids that differ from one another and from the stored ids. *)
Theorem distinct_ids_kept (w : world) (items : list json) (ops : list op) :
  tidy w items → NoDup (ids items) → admissible_seq w ops →
  ∃ items', tidy (run_ops ops w) items' ∧ NoDup (ids items').
Proof.
  intros Hw Hnd Hops. revert items Hw Hnd.
  induction Hops as [w|w items0 o ops Hst Ho _ IH]; intros items Hw Hnd.
  - by exists items.
  - assert (items0 = items) as ->.
    { destruct Hw as (_ & _ & Hst' & _). by eapply stored_unique. }
    destruct (admissible_step w items o Hw Hnd Ho) as (items1 & Hw1 & Hnd1).
    simpl. by eapply IH.
Qed.

End distinct_ids_bulk.

(** ** The theorems at work on the sample engine *)

Section samples.
#[local] Existing Instance sample_engine.

Lemma rec_b_valid : valid_dates rec_b.
Proof. exists 7%Z, 8%Z. unfold in_range, max_time. repeat split; simpl; lia. Qed.

Lemma item_a_canonical : canonical (E := sample_engine) item_a.
Proof.
  eexists _, 5%Z, 6%Z. split; [reflexivity|].
  split; [apply NoDup_prompt_keys|]. unfold in_range, max_time.
  repeat split; simpl; lia.
Qed.

Lemma item_b_canonical : canonical (E := sample_engine) item_b.
Proof.
  eexists _, 7%Z, 8%Z. split; [reflexivity|].
  split; [apply NoDup_prompt_keys|]. unfold in_range, max_time.
  repeat split; simpl; lia.
Qed.

Lemma calm_healthy api c l : healthy (calm api c l).
Proof. by intros n. Qed.

Lemma calm_clock api c l n : in_range (clock (calm api c l) n).
Proof. unfold in_range, max_time. simpl. lia. Qed.

Lemma store_a_tidy : tidy (E := sample_engine) store_a [item_a].
Proof.
  split; [apply calm_healthy|]. split; [apply calm_clock|].
  split; [by left|]. split.
  - apply Forall_singleton, item_a_canonical.
  - apply Forall_singleton. apply (prompt_json_numeric (E := sample_engine)).
Qed.

(** C2, counterexample: on the store that holds the record a, importing a
    document whose record has the id of a and another title adds that
    record, so the stored ids are no longer distinct. *)
Lemma import_repeats_an_id :
  stored store_a [item_a] ∧ NoDup (ids [item_a])
  ∧ ∃ items',
      stored (run_ops (E := sample_engine)
                [Import (Readable (JsonText same_id_doc))] store_a) items'
      ∧ ids items' = [Some (JStr "a"); Some (JStr "a")]
      ∧ ¬ NoDup (ids items').
Proof.
  split; [by left|]. split; [apply NoDup_singleton|].
  eexists. split; [left; vm_compute; reflexivity|].
  split; [reflexivity|].
  intros [Hin _]%NoDup_cons. apply Hin. by left.
Qed.

Lemma distinct_ids_kept_witness :
  ∃ items',
    tidy (E := sample_engine)
      (run_ops [Create (prompt_value rec_b); Delete "a"] store_a) items'
    ∧ NoDup (ids items').
Proof.
  apply (distinct_ids_kept (E := sample_engine) store_a [item_a]).
  - apply store_a_tidy.
  - apply NoDup_singleton.
  - apply (admissible_cons _ [item_a]); [by left| |].
    + exists rec_b. split; [done|]. split; [apply rec_b_valid|].
      intros Hin. apply list_elem_of_singleton in Hin. discriminate.
    + eapply admissible_cons; [left; vm_compute; reflexivity|exact I|].
      apply admissible_nil.
Defined.

Lemma create_list_roundtrip_witness :
  ∃ w1 w2 prompts,
    addPrompt (E := sample_engine) (prompt_value rec_b) store_a = (Ok (), w1)
    ∧ stored w1 ([item_a] ++ [prompt_json rec_b])
    ∧ getPrompts w1 = (Ok prompts, w2)
    ∧ List.filter (has_id (id rec_b)) prompts = [prompt_value rec_b].
Proof.
  apply (create_list_roundtrip (E := sample_engine) store_a [item_a] rec_b).
  - apply calm_healthy.
  - by left.
  - apply Forall_singleton, item_a_canonical.
  - apply rec_b_valid.
  - apply Forall_singleton. simpl. discriminate.
Defined.


Lemma reorder_overwrites_witness :
  ∃ w1 w2,
    reorderPrompts (E := sample_engine) [prompt_value rec_b] store_a
    = (Ok (), w1)
    ∧ stored w1 (map dump (promptsWithOrder [prompt_value rec_b]))
    ∧ getPrompts w1 = (Ok (promptsWithOrder [prompt_value rec_b]), w2)
    ∧ length (promptsWithOrder [prompt_value rec_b]) = length [prompt_value rec_b]
    ∧ (∀ i p, promptsWithOrder [prompt_value rec_b] !! i = Some p →
         ∃ q, [prompt_value rec_b] !! i = Some q
              ∧ p = VObj (set_prop "order" (VNum (Fin (Z.of_nat i)))
                           (own_props q)))
    ∧ (∀ j items, j ∈ [item_a] →
         j ∉ map dump (promptsWithOrder [prompt_value rec_b]) →
         stored w1 items → j ∉ items).
Proof.
  apply (reorder_overwrites (E := sample_engine) store_a [item_a]
           [prompt_value rec_b]).
  - apply calm_healthy.
  - by left.
  - apply Forall_singleton, prompt_value_wf, rec_b_valid.
Defined.


Lemma import_dedupes_witness :
  ∃ res w1,
    importPrompts (E := sample_engine)
      (Readable (JsonText
         (JObj [("prompts",
                 JArr [JObj [("id", JStr "n"); ("title", JStr "A");
                             ("content", JStr "B")]])])))
      store_a
    = (Ok res, w1)
    ∧ success res = true ∧ imported res = 0
    ∧ chrome_item w1 = chrome_item store_a
    ∧ local_item w1 = local_item store_a
    ∧ stored w1 [item_a].
Proof.
  refine (proj1 (import_dedupes (E := sample_engine) store_a [item_a] [0%Z]
                   [("prompts",
                     JArr [JObj [("id", JStr "n"); ("title", JStr "A");
                                 ("content", JStr "B")]])]
                   [("id", JStr "n"); ("title", JStr "A"); ("content", JStr "B")]
                   _ _ _ _ _ _ _ _) _ _).
  - apply calm_healthy.
  - by left.
  - apply Forall_singleton, item_a_canonical.
  - apply Forall2_cons_2; [reflexivity|apply Forall2_nil_2].
  - apply Forall_singleton. unfold safe_integer. lia.
  - exists item_a. split; [by left|]. split; reflexivity.
  - reflexivity.
  - repeat (apply NoDup_cons_2;
            [rewrite ?elem_of_cons, ?elem_of_nil; intuition discriminate|]).
    apply NoDup_nil_2.
  - reflexivity.
  - reflexivity.
Defined.

Lemma import_rejects_invalid_witness :
  ∃ res,
    importPrompts (E := sample_engine)
      (Readable (JsonText (JObj [("prompts", JStr "none")]))) store_a
    = (Ok res, store_a)
    ∧ success res = false ∧ imported res = 0.
Proof.
  apply (proj1 (import_rejects_invalid (E := sample_engine))).
  intros items. simpl. discriminate.
Defined.

Lemma timestamps_written_as_iso_witness :
  stamped_store (E := sample_engine)
    (run_ops [Create (prompt_value rec_a); Create VNull;
              Import (Readable (JsonText same_id_doc))]
       (calm true None None)).
Proof.
  apply (proj2 (timestamps_written_as_iso (E := sample_engine))).
  split; by left.
Defined.

Lemma list_falls_back_witness :
  ∃ w1, getPrompts (E := sample_engine) primary_down
        = (Ok (map load [item_a]), w1).
Proof.
  apply (proj1 (proj2 (list_falls_back (E := sample_engine) primary_down
                         (Error "chrome.storage is down") eq_refl eq_refl))).
  - reflexivity.
  - reflexivity.
  - apply Forall_singleton, item_a_canonical.
Defined.

End samples.

(** * Further properties

    What the rest of the code shows: the other functions of [dateUtils],
    the store when a back end fails or holds what it was not meant to
    hold, import and export together, and the sidebar around the store. *)

(** ** The date normaliser *)

Section normaliser.
Context {E : Engine}.

Lemma getValidDate_cases v d :
  getValidDate v = Some d →
  ∃ t, d = Instant t
       ∧ (v = VDate d ∨ (∃ s, v = VStr s) ∧ in_range t
          ∨ (∃ n, v = VNum n) ∧ in_range t).
Proof.
  unfold getValidDate.
  destruct v as [| | |n|s|[|t]|l|o]; try done.
  - destruct (negb (isFinite n) || num_lt n (Fin 0)); [done|].
    intros H.
    destruct (TimeClip _) as [|t] eqn:Hclip; simpl in H; [done|].
    injection H as <-. exists t. split; [done|]. right; right.
    split; [by eexists|]. by eapply TimeClip_range.
  - destruct (decide (trim s = "")); [done|].
    unfold Date_of_string.
    destruct (TimeClip _) as [|t] eqn:Hclip; simpl; [done|].
    intros [= <-]. exists t. split; [done|]. right; left.
    split; [by eexists|]. by eapply TimeClip_range.
  - simpl. intros [= <-]. exists t. split; [done|]. by left.
Qed.

(** X1: a date that getValidDate returns is a valid date, whatever the
    input was; when the input was a string or a number its time value lies
    within 8.64e15 ms of the epoch; and getValidDate returns it unchanged
    when it is handed in again. *)
Theorem getValidDate_sound (v : value) (d : Date) :
  getValidDate v = Some d →
  ∃ t, d = Instant t
       ∧ ((∀ d', v ≠ VDate d') → in_range t)
       ∧ getValidDate (VDate d) = Some d.
Proof.
  intros H. destruct (getValidDate_cases v d H) as (t & -> & Hv).
  exists t. split; [done|]. split; [|done].
  intros Hnd. destruct Hv as [->|[[_ Ht]|[_ Ht]]]; [by destruct (Hnd (Instant t))|done..].
Qed.

Lemma restoreDateFromStorage_run (storedDate : value) (w : world) :
  ∃ t w',
    restoreDateFromStorage storedDate w = (Ok (Instant t), w')
    ∧ (w' = w ∨ (w' = next_tick w ∧ t = clock w (ticks w))).
Proof.
  assert (Hnow : ∃ t w', new_Date w = (Ok (Instant t), w')
             ∧ (w' = w ∨ (w' = next_tick w ∧ t = clock w (ticks w)))).
  { eexists _, _. split; [reflexivity|]. by right. }
  assert (Hget : ∀ v,
    ∃ t w',
      match getValidDate v with
      | Some parsed => mret parsed
      | None => new_Date
      end w = (Ok (Instant t), w')
      ∧ (w' = w ∨ (w' = next_tick w ∧ t = clock w (ticks w)))).
  { intros v. destruct (getValidDate v) as [d|] eqn:Hv; [|exact Hnow].
    destruct (getValidDate_cases v d Hv) as (t & -> & _).
    exists t, w. split; [done|]. by left. }
  destruct storedDate as [| | |n|s|[|t]|l|o]; simpl; try exact Hnow.
  - apply (Hget (VNum n)).
  - apply (Hget (VStr s)).
  - exists t, w. split; [done|]. by left.
  - destruct (toString (VArr l)) as [s|]; [apply (Hget (VStr s))|exact Hnow].
  - destruct (toString (VObj o)) as [s|]; [apply (Hget (VStr s))|exact Hnow].
Qed.

(** X2: the two conversions with a fallback never throw, whatever they
    are given.  restoreDateFromStorage returns a valid date: one that it
    finds in the stored value without a look at the clock, or the reading
    of the clock.  dateToISOString returns the ISO text of the date that
    getValidDate finds in its argument, and the ISO text of the reading of
    the clock when getValidDate finds none. *)
Theorem date_fallbacks_total (v : value) (w : world) :
  (∃ t w',
     restoreDateFromStorage v w = (Ok (Instant t), w')
     ∧ (w' = w ∨ (w' = next_tick w ∧ t = clock w (ticks w))))
  ∧ (∃ t w',
       dateToISOString v w = (Ok (toISOString t), w')
       ∧ (getValidDate v = Some (Instant t) ∧ w' = w
          ∨ getValidDate v = None
            ∧ t = clock w (ticks w) ∧ w' = next_tick w)).
Proof.
  split; [apply restoreDateFromStorage_run|].
  unfold dateToISOString, getValidDateWithFallback.
  destruct (getValidDate v) as [d|] eqn:Hv.
  - destruct (getValidDate_cases _ _ Hv) as (t & -> & _).
    exists t, w. split; [done|]. by left.
  - eexists _, _. split; [reflexivity|]. by right.
Qed.

End normaliser.

Section normaliser_laws.
Context {E : Engine} {EL : EngineLaws E}.

(** X3: the ISO text of a valid date reads back as the same date:
    dateFromISOString undoes dateToISOString, and neither looks at the
    clock. *)
Theorem iso_round_trip (t : Z) (w : world) :
  in_range t →
  (isoString ← dateToISOString (VDate (Instant t));
   dateFromISOString isoString) w
  = (Ok (Instant t), w).
Proof.
  intros Ht. rewrite bind_run.
  assert (H : dateToISOString (VDate (Instant t)) w
              = (Ok (toISOString t), w)) by reflexivity.
  rewrite H. unfold dateFromISOString, getValidDateWithFallback.
  by rewrite getValidDate_iso.
Qed.

End normaliser_laws.

Section validity.
Context {E : Engine}.

(** X4: every input that getValidDate accepts is a valid date for
    isValidDate as well. *)
Theorem isValidDate_of_getValidDate (v : value) (d : Date) (w : world) :
  getValidDate v = Some d → isValidDate v w = (Ok true, w).
Proof.
  unfold getValidDate, isValidDate.
  destruct v as [| | |n|s|[|t]|l|o]; try done.
  - destruct n as [| | |z|h e]; try done.
    + simpl.
      destruct (z <? 0)%Z eqn:Hneg; [done|].
      apply Z.ltb_ge in Hneg.
      destruct (z <? 10000000000)%Z eqn:Hsec; simpl; mrun.
      * unfold TimeClip.
        destruct (Z.leb_spec (Z.abs (z * 1000)) max_time) as [Hs|Hs]; [|done].
        intros _. destruct (Z.leb_spec (Z.abs z) max_time); [done|lia].
      * by destruct (Z.abs z <=? max_time)%Z.
    + assert (Hp : (0 < 2 ^ Z.pos e)%Z) by (apply Z.pow_pos_nonneg; lia).
      cbn [isFinite negb orb num_lt Date_of_value ToNumber].
      destruct (Z.ltb_spec (2 * h + 1) (0 * 2 ^ Z.pos e)) as [|Hneg]; [done|].
      destruct (Z.ltb_spec (2 * h + 1) (10000000000 * 2 ^ Z.pos e))
        as [Hsec|Hsec]; mrun.
      * intros _. cbn [TimeClip].
        destruct (Z.leb_spec (Z.abs (2 * h + 1)) (max_time * 2 ^ Z.pos e));
          [done|]. unfold max_time in *. lia.
      * by destruct (Z.abs (2 * h + 1) <=? max_time * 2 ^ Z.pos e)%Z.
  - destruct (decide (trim s = "")); [done|].
    unfold Date_of_value. mrun.
    by destruct (Date_of_string s).
Qed.

(** X5: the two validators disagree on negative timestamps: a time
    value before the epoch is a valid date for isValidDate, and no date for
    getValidDate. *)
Theorem negative_timestamp_validity (z : Z) (w : world) :
  (- max_time <= z < 0)%Z →
  isValidDate (VNum (Fin z)) w = (Ok true, w)
  ∧ getValidDate (VNum (Fin z)) = None.
Proof.
  intros Hz. split.
  - unfold isValidDate, Date_of_value. mrun.
    destruct (Z.leb_spec (Z.abs z) max_time); [done|lia].
  - unfold getValidDate. simpl.
    destruct (Z.ltb_spec z 0); [done|lia].
Qed.

(** X6: compareDates is the sign of the difference of two time values,
    -1, 0 or 1.  On two inputs that getValidDate accepts these are the time
    values of the two dates, and the clock is not looked at; on two inputs
    that getValidDate rejects they are two readings of the clock, the
    first one taken before the second, so that two invalid dates compare
    as equal only if the clock stands still. *)
Theorem compareDates_sign (date1 date2 : value) (w : world) :
  (∀ t1 t2,
     getValidDate date1 = Some (Instant t1) →
     getValidDate date2 = Some (Instant t2) →
     compareDates date1 date2 w = (Ok (Z.sgn (t1 - t2)), w))
  ∧ (getValidDate date1 = None → getValidDate date2 = None →
     compareDates date1 date2 w
     = (Ok (Z.sgn (clock w (ticks w) - clock w (S (ticks w)))),
        next_tick (next_tick w))).
Proof.
  split.
  - intros t1 t2 H1 H2. unfold compareDates, getValidDateWithFallback.
    rewrite H1, H2. mrun. unfold num_gt. simpl.
    destruct (Z.ltb_spec t1 t2); [mrun; f_equal; f_equal; lia|].
    destruct (Z.ltb_spec t2 t1); mrun; f_equal; f_equal; lia.
  - intros H1 H2. unfold compareDates, getValidDateWithFallback.
    rewrite H1, H2. unfold new_Date. mrun. unfold num_gt. simpl.
    destruct (Z.ltb_spec (clock w (ticks w)) (clock w (S (ticks w))));
      [mrun; f_equal; f_equal; lia|].
    destruct (Z.ltb_spec (clock w (S (ticks w))) (clock w (ticks w)));
      mrun; f_equal; f_equal; lia.
Qed.

End validity.

Section relative.
Context {E : Engine} {I : Intl}.

(** X7: for a date that lies d milliseconds before the reading of the
    clock, formatRelativeDate answers "Just now" below one minute (a date
    in the future included), and counts whole minutes below one hour, whole
    hours below one day and whole days below one week. *)
Theorem formatRelativeDate_ranges (dateInput : value) (t : Z) (w : world) :
  getValidDate dateInput = Some (Instant t) →
  let d := (clock w (ticks w) - t)%Z in
  let answer := (formatRelativeDate dateInput w).1 in
  ((d < 60000)%Z → answer = Ok "Just now")
  ∧ ((60000 <= d < 3600000)%Z → answer = Ok (ago (Fin (d / 60000)) "minute"))
  ∧ ((3600000 <= d < 86400000)%Z → answer = Ok (ago (Fin (d / 3600000)) "hour"))
  ∧ ((86400000 <= d < 604800000)%Z →
       answer = Ok (ago (Fin (d / 86400000)) "day")).
Proof.
  intros Hv d answer. unfold answer, formatRelativeDate, getValidDateWithFallback.
  rewrite Hv. unfold new_Date. mrun.
  change (clock w (ticks w) + - t)%Z with d.
  assert (Hmin : (d / 1000 / 60 = d / 60000)%Z) by (by rewrite Z.div_div).
  assert (Hhour : (d / 1000 / 60 / 60 = d / 3600000)%Z)
    by (by rewrite !Z.div_div).
  assert (Hday : (d / 1000 / 60 / 60 / 24 = d / 86400000)%Z)
    by (by rewrite !Z.div_div).
  rewrite Hday, Hhour, Hmin.
  assert (Hs : (d / 1000 < 60 ↔ d < 60000)%Z).
  { split; intros H.
    - apply Z.nle_gt. intros Hge.
      pose proof (Z.div_le_mono 60000 d 1000 ltac:(lia) Hge) as Hq.
      change (60000 / 1000)%Z with 60%Z in Hq. lia.
    - apply Z.div_lt_upper_bound; lia. }
  assert (Hq : ∀ k n, (0 < k)%Z → (d / k < n ↔ d < k * n)%Z).
  { intros k n Hk. split; intros H.
    - apply Z.nle_gt. intros Hge.
      pose proof (Z.div_le_mono (k * n) d k Hk Hge) as Hle.
      rewrite Z.mul_comm, Z.div_mul in Hle by lia. lia.
    - by apply Z.div_lt_upper_bound. }
  repeat split; intros Hd.
  - destruct (Z.ltb_spec (d / 1000) 60) as [_|Hge]; [done|].
    exfalso. apply Hs in Hd. lia.
  - destruct (Z.ltb_spec (d / 1000) 60) as [Hlt|_]; [apply Hs in Hlt; lia|].
    destruct (Z.ltb_spec (d / 60000) 60) as [_|Hge]; [done|].
    exfalso. pose proof (proj2 (Hq 60000 60 ltac:(lia)) ltac:(lia))%Z. lia.
  - destruct (Z.ltb_spec (d / 1000) 60) as [Hlt|_]; [apply Hs in Hlt; lia|].
    destruct (Z.ltb_spec (d / 60000) 60) as [Hlt|_];
      [apply (Hq 60000 60)%Z in Hlt; lia|].
    destruct (Z.ltb_spec (d / 3600000) 24) as [_|Hge]; [done|].
    exfalso. pose proof (proj2 (Hq 3600000 24 ltac:(lia)) ltac:(lia))%Z. lia.
  - destruct (Z.ltb_spec (d / 1000) 60) as [Hlt|_]; [apply Hs in Hlt; lia|].
    destruct (Z.ltb_spec (d / 60000) 60) as [Hlt|_];
      [apply (Hq 60000 60)%Z in Hlt; lia|].
    destruct (Z.ltb_spec (d / 3600000) 24) as [Hlt|_];
      [apply (Hq 3600000 24)%Z in Hlt; lia|].
    destruct (Z.ltb_spec (d / 86400000) 7) as [_|Hge]; [done|].
    exfalso. pose proof (proj2 (Hq 86400000 7 ltac:(lia)) ltac:(lia))%Z. lia.
Qed.

End relative.

(** ** Listing what the store was not meant to hold *)

Lemma backend_ok w : fault w (calls w) = None → backend w = (Ok (), next_call w).
Proof. intros H. unfold backend. by rewrite H. Qed.

Lemma Array_map_from_total {A B C} (f : B → nat → M C) (h : A → B)
    (R : A → C → Prop) (l : list A) (i : nat) (w : world) :
  Forall (λ x, ∀ j w, ∃ y w', f (h x) j w = (Ok y, w') ∧ R x y) l →
  ∃ ys w', Array_map_from i f (map h l) w = (Ok ys, w') ∧ Forall2 R l ys.
Proof.
  intros Hl. revert i w.
  induction Hl as [|x l Hx _ IH]; intros i w; simpl.
  - by exists [], w.
  - destruct (Hx i w) as (y & w1 & Hy & Hxy).
    destruct (IH (S i) w1) as (ys & w2 & Hys & Hall).
    exists (y :: ys), w2. rewrite bind_run, Hy, bind_run, Hys.
    split; [done|]. by constructor.
Qed.

Lemma Array_map_from_throws {A B} (f : A → nat → M B) (x : A)
    (l : list A) (i : nat) (w : world) :
  x ∈ l → (∀ j w, ∃ e w', f x j w = (Throw e, w')) →
  ∃ e w', Array_map_from i f l w = (Throw e, w').
Proof.
  intros Hin Hx. revert i w.
  induction l as [|y l IH]; intros i w; [by inversion Hin|]. simpl.
  rewrite bind_run. destruct (f y i w) as [[b|e] w1] eqn:Hy.
  - apply elem_of_cons in Hin as [->|Hin].
    + destruct (Hx i w) as (e & w' & He). congruence.
    + destruct (IH Hin (S i) w1) as (e & w' & He).
      exists e, w'. by rewrite bind_run, He.
  - by exists e, w1.
Qed.

Section tolerant.
Context {E : Engine}.

Lemma restore_prompt_object (o : list (string * json)) (w : world) :
  ∃ p w', restore_prompt (of_json (JObj o)) w = (Ok p, w')
          ∧ restored (JObj o) p.
Proof.
  unfold restore_prompt. simpl. fold (of_json_props o).
  destruct (restoreDateFromStorage_run
              (lookup_prop "createdAt" (of_json_props o)) w)
    as (tc & w1 & Hc & _).
  destruct (restoreDateFromStorage_run
              (lookup_prop "updatedAt" (of_json_props o)) w1)
    as (tu & w2 & Hu & _).
  eexists _, w2. split.
  { rewrite bind_run, bind_run, lift_run, Hc.
    rewrite bind_run, bind_run, lift_run, Hu. reflexivity. }
  eexists _, tc, tu. split; [done|]. split.
  { rewrite lookup_set_prop_ne by done. apply lookup_set_prop_eq. }
  split; [apply lookup_set_prop_eq|].
  intros k HkC HkU. rewrite !lookup_set_prop_ne by done.
  apply lookup_of_json_props.
Qed.

(** X8: on a healthy world, listing succeeds whatever the stored
    objects hold as timestamps (nothing, text that does not parse, numbers,
    objects): every stored object is listed, in its place, with two valid
    dates and with its other properties as they are stored; the store is
    left as it was. *)
Theorem list_survives_bad_timestamps (w : world) (items : list json) :
  healthy w → stored w items → Forall (λ j, ∃ o, j = JObj o) items →
  ∃ prompts w',
    getPrompts w = (Ok prompts, w') ∧ same_store w w'
    ∧ Forall2 restored items prompts.
Proof.
  intros Hw Hst Hobj.
  assert (Hmap : ∀ w1, ∃ prompts w',
            Array_map restore_prompt (map of_json items) w1 = (Ok prompts, w')
            ∧ Forall2 restored items prompts).
  { intros w1. apply Array_map_from_total.
    eapply Forall_impl; [exact Hobj|].
    intros j [o ->] _ w2. apply restore_prompt_object. }
  assert (Hrun : ∃ prompts w', getPrompts w = (Ok prompts, w')
                               ∧ Forall2 restored items prompts).
  { unfold getPrompts. unfold stored, active_item in Hst.
    destruct (chrome_api w) eqn:Hapi.
    - destruct (Hmap (next_call w)) as (ps & w' & Hps & Hall).
      destruct Hst as [Hst|[Hst ->]].
      + destruct (chrome_item w) as [j|] eqn:Hitem; [|done]. simpl in Hst.
        injection Hst as ->. exists ps, w'. split; [|done].
        apply try_ok. rewrite bind_run. unfold has_chrome_storage at 1, gets at 1.
        rewrite Hapi. unfold chrome_storage_get, gets.
        rewrite !bind_run, backend_healthy by done. simpl. rewrite Hitem.
        exact Hps.
      + destruct (chrome_item w) as [j|] eqn:Hitem; [done|].
        exists [], (next_call w). split; [|constructor].
        apply try_ok. rewrite bind_run. unfold has_chrome_storage at 1, gets at 1.
        rewrite Hapi. unfold chrome_storage_get, gets.
        rewrite !bind_run, backend_healthy by done. simpl. by rewrite Hitem.
    - destruct (Hmap (next_call w)) as (ps & w' & Hps & Hall).
      destruct Hst as [Hst|[Hst ->]].
      + exists ps, w'. split; [|done].
        apply try_ok. rewrite bind_run. unfold has_chrome_storage at 1, gets at 1.
        rewrite Hapi. unfold localStorage_getItem, gets.
        rewrite !bind_run, backend_healthy by done. simpl. rewrite Hst.
        exact Hps.
      + exists [], (next_call w). split; [|constructor].
        apply try_ok. rewrite bind_run. unfold has_chrome_storage at 1, gets at 1.
        rewrite Hapi. unfold localStorage_getItem, gets.
        rewrite !bind_run, backend_healthy by done. simpl. by rewrite Hst. }
  destruct Hrun as (ps & w' & Hrun & Hall).
  exists ps, w'. split; [done|]. split; [|done].
  pose proof (read_only_getPrompts w) as Hro. by rewrite Hrun in Hro.
Qed.

End tolerant.

Section store_failures.
Context {E : Engine} {EL : EngineLaws E}.

(** X9: one null among the elements that chrome.storage holds hides
    the whole collection: the mapping of the elements throws, listing
    falls back to localStorage, and returns the empty list when
    localStorage holds nothing. *)
Theorem null_element_hides_list (w : world) (items : list json) :
  healthy w → chrome_api w = true → chrome_item w = Some (JArr items) →
  local_item w = None → JNull ∈ items →
  ∃ w', getPrompts w = (Ok [], w').
Proof.
  intros Hw Hapi Hitem Hloc Hnull.
  destruct (Array_map_from_throws (λ x _, restore_prompt x) VNull
              (map of_json items) 0 (next_call w)) as (e & w1 & Hthrow).
  { by apply (list_elem_of_fmap_2 of_json) in Hnull. }
  { intros j w2. by exists TypeError, w2. }
  assert (Hsame : same_store (next_call w) w1).
  { pose proof (respects_Array_map same_store restore_prompt
                  (map of_json items) read_only_restore_prompt (next_call w))
      as H.
    unfold Array_map, Array_mapi in H. by rewrite Hthrow in H. }
  destruct Hsame as (_ & _ & Hl1 & Hf1 & _). simpl in *.
  exists (next_call w1). unfold getPrompts.
  erewrite try_throw.
  2:{ rewrite bind_run. unfold has_chrome_storage at 1, gets at 1.
      rewrite Hapi. unfold chrome_storage_get, gets.
      rewrite !bind_run, backend_healthy by done. simpl. rewrite Hitem.
      simpl. exact Hthrow. }
  unfold localStorage_getItem, gets.
  rewrite !bind_run, backend_ok by (by rewrite Hf1).
  simpl. by rewrite Hl1, Hloc.
Qed.

Lemma serialize_all prompts w :
  Forall savable prompts →
  Array_map serialize_prompt prompts w = (Ok (map serialized prompts), w).
Proof.
  intros Hsav. apply Array_map_pure_id. eapply Forall_impl; [exact Hsav|].
  intros p Hp. by apply serialize_prompt_savable.
Qed.

Lemma array_json_dump (d : Date → json) prompts :
  Forall savable prompts →
  array_json d (map serialized prompts) = JArr (map dump prompts).
Proof.
  intros Hsav. unfold array_json. f_equal. rewrite map_map.
  apply map_ext_in. intros p Hp. rewrite to_json_serialized; [done|].
  rewrite Forall_forall in Hsav. apply Hsav. by apply list_elem_of_In.
Qed.

(** X10: when the write to chrome.storage throws and localStorage
    works, savePrompts does not fail: it writes the collection to
    localStorage and leaves chrome.storage, which listing reads first, as
    it was. *)
Theorem save_falls_back (w : world) (prompts : list value) (e : exn) :
  chrome_api w = true →
  fault w (calls w) = Some e → fault w (S (calls w)) = None →
  Forall savable prompts →
  ∃ w',
    savePrompts prompts w = (Ok (), w')
    ∧ chrome_item w' = chrome_item w
    ∧ local_item w' = Some (JsonText (JArr (map dump prompts))).
Proof.
  intros Hapi He Hnext Hsav. eexists. split.
  - unfold savePrompts. erewrite try_throw.
    2:{ rewrite bind_run, serialize_all by done.
        rewrite bind_run. unfold has_chrome_storage at 1, gets at 1.
        rewrite Hapi. unfold chrome_storage_set.
        rewrite bind_run. unfold backend. rewrite He. reflexivity. }
    rewrite bind_run, serialize_all by done.
    unfold localStorage_setItem, modify.
    rewrite bind_run, backend_ok by done. reflexivity.
  - simpl. split; [done|]. unfold JSON_stringify.
    by rewrite array_json_dump.
Qed.

(** X11: when the read of chrome.storage throws while a prompt is
    added and localStorage holds nothing, the list that the prompt is added
    to is the empty one, and the write replaces whatever chrome.storage
    held by the one new record. *)
Theorem create_after_failed_read (w : world) (r : Prompt) (e : exn) :
  chrome_api w = true →
  fault w (calls w) = Some e → (∀ n, calls w < n → fault w n = None) →
  local_item w = None → valid_dates r →
  ∃ w',
    addPrompt (prompt_value r) w = (Ok (), w')
    ∧ chrome_item w' = Some (JArr [prompt_json r]).
Proof.
  intros Hapi He Hlater Hloc Hr.
  assert (Hsav : Forall savable [prompt_value r]).
  { apply Forall_singleton. by apply wf_savable, prompt_value_wf. }
  eexists. split.
  - unfold addPrompt. erewrite bind_ok.
    2:{ unfold getPrompts. erewrite try_throw.
        2:{ rewrite bind_run. unfold has_chrome_storage at 1, gets at 1.
            rewrite Hapi. unfold chrome_storage_get.
            rewrite !bind_run. unfold backend. rewrite He. reflexivity. }
        unfold localStorage_getItem, gets.
        rewrite !bind_run, backend_ok by (apply Hlater; simpl; lia).
        simpl. rewrite Hloc. reflexivity. }
    simpl. unfold savePrompts. apply try_ok.
    rewrite bind_run, serialize_all by done.
    rewrite bind_run. unfold has_chrome_storage at 1, gets at 1.
    simpl. rewrite Hapi. unfold chrome_storage_set, modify.
    rewrite bind_run, backend_ok by (apply Hlater; simpl; lia).
    reflexivity.
  - simpl. rewrite (array_json_dump _ [prompt_value r]) by done. simpl.
    by rewrite dump_prompt_value.
Qed.

End store_failures.

(** ** Update and delete by id *)

Lemma find_index_app {A} (g : A → bool) (pre post : list A) (x : A) :
  Forall (λ y, g y = false) pre → g x = true →
  find_index g (pre ++ x :: post) = Some (length pre).
Proof.
  intros Hpre Hx. induction Hpre as [|y l Hy _ IH]; simpl.
  - by rewrite Hx.
  - by rewrite Hy, IH.
Qed.

Lemma List_filter_sublist {A} (g : A → bool) (l : list A) :
  List.filter g l `sublist_of` l.
Proof.
  induction l as [|x l IH]; simpl; [done|].
  destruct (g x); [by apply sublist_skip|by apply sublist_cons].
Qed.

Section by_id.
Context {E : Engine} {EL : EngineLaws E}.

Lemma has_id_load_iff i j :
  canonical j →
  has_id i (load j) = true ↔ json_prop j "id" = Some (JStr i).
Proof.
  intros Hj. split; [by apply has_id_load_true|].
  intros Hid. unfold has_id. rewrite load_prop, Hid by done. simpl.
  by apply bool_decide_eq_true.
Qed.



(** X14: on a healthy world whose stored elements are canonical
    (objects with their two timestamps as savePrompts writes them), adding
    a record with valid dates whose id is not stored and deleting that id
    then leaves the stored collection as it was before the two calls.
    (Both calls write the listed elements back, so a stored timestamp that
    is missing or does not parse would be replaced.) *)
Theorem create_then_delete (w : world) (items : list json) (r : Prompt) :
  healthy w → stored w items → Forall canonical items → valid_dates r →
  Some (JStr (id r)) ∉ ids items →
  ∃ w',
    (addPrompt (prompt_value r);; deletePrompt (id r)) w = (Ok (), w')
    ∧ stored w' items.
Proof.
  intros Hw Hst Hcan Hr Hfresh.
  erewrite bind_ok by (by apply addPrompt_run).
  rewrite (deletePrompt_run _ (items ++ [prompt_json r])).
  - eexists. split; [done|].
    rewrite List.filter_app. simpl.
    rewrite (proj2 (has_id_load_iff (id r) (prompt_json r)
                      (prompt_json_canonical r Hr))) by done.
    simpl. rewrite app_nil_r.
    replace (List.filter _ items) with items; [apply stored_write|].
    symmetry. apply filter_all. apply Forall_forall. intros j Hj.
    rewrite Forall_forall in Hcan. rewrite has_id_load; auto.
    intros Hid. apply Hfresh. unfold ids.
    rewrite <- Hid. by apply (list_elem_of_fmap_2 (λ j, json_prop j "id")).
  - by apply healthy_write, healthy_next_call, healthy_next_call.
  - apply stored_write.
  - apply Forall_app. split; [done|]. apply Forall_singleton.
    by apply prompt_json_canonical.
Qed.

End by_id.

(** ** Import of a document with many records *)

Section import_many.
Context {E : Engine} {EL : EngineLaws E}.

Lemma kept_objects (items cands : list json) :
  Forall (λ c, ∃ oc, c = JObj oc ∧ NoDup oc.*1) cands →
  Forall (λ c, ∃ oc, c = JObj oc ∧ NoDup oc.*1
               ∧ truthy (opt_value (json_lookup "id" oc)) = true)
         (kept items cands).
Proof.
  intros Hcands. apply Forall_forall. intros c Hc. unfold kept in Hc.
  apply list_elem_of_In, filter_In in Hc as [Hc Hkeep].
  rewrite Forall_forall in Hcands.
  destruct (Hcands c) as (oc & -> & Hndc); [by apply list_elem_of_In|].
  exists oc. split; [done|]. split; [done|].
  unfold is_new_pure in Hkeep. simpl in Hkeep. fold (of_json_props oc) in Hkeep.
  rewrite !andb_true_iff in Hkeep. destruct Hkeep as [[[Hid _] _] _].
  by rewrite lookup_of_json_props in Hid.
Qed.

(** Import on a tidy store: what it returns and what it leaves. *)
Lemma import_tidy (w : world) (items : list json)
    (doc : list (string * json)) (cands : list json) (orders : list Z) :
  tidy w items →
  Forall2 (λ j z, json_prop j "order" = Some (JNum z)) items orders →
  json_lookup "prompts" doc = Some (JArr cands) →
  Forall (λ c, ∃ oc, c = JObj oc ∧ NoDup oc.*1) cands →
  let added :=
    imported_values (Fin (max_order orders))
      (map of_json (kept items cands)) 0 (next_call w) in
  ∃ res w1,
    importPrompts (Readable (JsonText (JObj doc))) w = (Ok res, w1)
    ∧ success res = true
    ∧ imported res = length (kept items cands)
    ∧ (kept items cands = [] →
         chrome_item w1 = chrome_item w ∧ local_item w1 = local_item w)
    ∧ tidy w1 (items ++ map dump added)
    ∧ Forall wf_prompt added.
Proof.
  intros (Hw & Hclock & Hst & Hcan & Hnum) Hord Hdoc Hcands added.
  destruct (importPrompts_run w items doc cands orders Hw Hst Hcan Hord
              Hdoc Hcands)
    as (res & w1 & Hrun & Hsucc & Hcount & Hw1 & Hclock1 & Hnone & Hst1).
  rewrite filter_map_swap in Hst1, Hcount, Hnone.
  fold (kept items cands) in Hst1, Hcount, Hnone. fold added in Hst1.
  pose proof (kept_objects items cands Hcands) as Hkept.
  assert (Hwf : Forall wf_prompt added).
  { apply imported_values_wf; [done|]. apply Forall_fmap.
    eapply Forall_impl; [exact Hkept|]. intros c (oc & -> & ? & ?).
    by exists oc. }
  exists res, w1. split; [done|]. split; [done|].
  split; [by rewrite Hcount, length_map|]. split.
  { intros Hk. apply Hnone. by rewrite Hk. }
  split; [|done].
  split; [done|]. split; [by rewrite Hclock1|]. split; [exact Hst1|].
  split.
  - apply Forall_app. split; [done|]. apply Forall_fmap.
    eapply Forall_impl; [exact Hwf|]. apply dump_canonical.
  - apply Forall_app. split; [done|]. apply imported_values_numeric.
    eapply Forall_impl; [exact Hwf|]. apply wf_savable.
Qed.

Lemma imported_values_lookup (m : number) (new : list value) (index : nat)
    (w : world) (i : nat) (p : value) :
  new !! i = Some p →
  ∃ now,
    imported_values m new index w !! i
    = Some (imported_value m (Instant now) p (index + i)).
Proof.
  revert index w i. induction new as [|q l IH]; intros index w i Hi; [done|].
  destruct i as [|i]; simpl in *.
  - injection Hi as ->. eexists. by rewrite Nat.add_0_r.
  - destruct (IH (S index) (next_tick w) i Hi) as [now Hnow].
    exists now. rewrite Hnow. do 2 f_equal. lia.
Qed.

Lemma imported_values_length (m : number) (new : list value) (index : nat)
    (w : world) :
  length (imported_values m new index w) = length new.
Proof.
  revert index w. induction new as [|q l IH]; intros index w; simpl; [done|].
  by rewrite IH.
Qed.

Lemma dump_imported_value_prop (m now : Z) (oc : list (string * json))
    (index : nat) (k : string) :
  NoDup oc.*1 → truthy (opt_value (json_lookup "id" oc)) = true →
  k ≠ "tags" → k ≠ "updatedAt" → k ≠ "createdAt" → k ≠ "order" →
  json_prop (dump (imported_value (Fin m) (Instant now) (of_json (JObj oc)) index)) k
  = json_lookup k oc.
Proof.
  intros Hnd Hid ? ? ? ?.
  rewrite dump_prop_any by (done || by apply imported_value_savable).
  by rewrite imported_value_prop, to_json_opt_value.
Qed.

Lemma dump_imported_value_order (m now : Z) (oc : list (string * json))
    (index : nat) :
  NoDup oc.*1 → truthy (opt_value (json_lookup "id" oc)) = true →
  json_prop (dump (imported_value (Fin m) (Instant now) (of_json (JObj oc)) index))
    "order"
  = Some (JNum (m + 1 + Z.of_nat index)).
Proof.
  intros Hnd Hid.
  rewrite dump_prop_any by (done || by apply imported_value_savable).
  unfold imported_value. simpl.
  rewrite !lookup_set_prop_ne by done. by rewrite lookup_set_prop_eq.
Qed.

(** X15: import of a document with any number of records, on a tidy
    store whose orders are safe integers (within 2^53 - 1 of zero) and
    stay so when the number of kept records is added to the greatest of
    them, so that the sums are exact: the records that are kept (those
    with an id, a title and a content that repeat no stored pair of title
    and content) are appended to the stored collection in the sequence of
    the document, the i-th of them with the greatest stored order plus 1
    plus i for order and with its id, title and content as the document
    has them; the count that is returned is their number, and the store is
    tidy again. *)
Theorem import_appends_kept (w : world) (items : list json)
    (doc : list (string * json)) (cands : list json) (orders : list Z) :
  tidy w items →
  Forall2 (λ j z, json_prop j "order" = Some (JNum z)) items orders →
  Forall safe_integer orders →
  safe_integer (max_order orders + Z.of_nat (length (kept items cands))) →
  json_lookup "prompts" doc = Some (JArr cands) →
  Forall (λ c, ∃ oc, c = JObj oc ∧ NoDup oc.*1) cands →
  ∃ res w1 added,
    importPrompts (Readable (JsonText (JObj doc))) w = (Ok res, w1)
    ∧ success res = true
    ∧ imported res = length (kept items cands)
    ∧ tidy w1 (items ++ added)
    ∧ length added = length (kept items cands)
    ∧ ∀ i c, kept items cands !! i = Some c →
        ∃ a, added !! i = Some a
             ∧ json_prop a "order"
               = Some (JNum (max_order orders + 1 + Z.of_nat i))
             ∧ json_prop a "id" = json_prop c "id"
             ∧ json_prop a "title" = json_prop c "title"
             ∧ json_prop a "content" = json_prop c "content".
Proof.
  intros Hw Hord _ _ Hdoc Hcands.
  destruct (import_tidy w items doc cands orders Hw Hord Hdoc Hcands)
    as (res & w1 & Hrun & Hsucc & Hcount & _ & Htidy & _).
  eexists res, w1, _. split; [exact Hrun|]. split; [done|].
  split; [done|]. split; [exact Htidy|]. split.
  { by rewrite length_map, imported_values_length, length_map. }
  intros i c Hc.
  pose proof (kept_objects items cands Hcands) as Hkept.
  rewrite Forall_forall in Hkept.
  destruct (Hkept c) as (oc & -> & Hnd & Hid); [by eapply list_elem_of_lookup_2|].
  destruct (imported_values_lookup (Fin (max_order orders))
              (map of_json (kept items cands)) 0 (next_call w) i
              (of_json (JObj oc))) as [now Hnow].
  { change (map of_json (kept items cands))
      with (of_json <$> kept items cands).
    by rewrite list_lookup_fmap, Hc. }
  eexists. split.
  { change (map dump ?l) with (dump <$> l).
    rewrite list_lookup_fmap, Hnow. reflexivity. }
  split; [by rewrite dump_imported_value_order|].
  by rewrite !dump_imported_value_prop.
Qed.

End import_many.

Section import_again.
Context {E : Engine} {EL : EngineLaws E}.

Lemma imported_values_elem (m : number) (new : list value) (index : nat)
    (w : world) (p : value) :
  p ∈ new →
  ∃ now i, imported_value m (Instant now) p i ∈ imported_values m new index w.
Proof.
  intros Hp. apply list_elem_of_lookup_1 in Hp as [i Hi].
  destruct (imported_values_lookup m new index w i p Hi) as [now Hnow].
  exists now, (index + i). by eapply list_elem_of_lookup_2.
Qed.

Lemma filter_none {A} (g : A → bool) (l : list A) :
  Forall (λ x, g x = false) l → List.filter g l = [].
Proof. induction 1 as [|x l Hx _ IH]; simpl; [done|]. by rewrite Hx. Qed.

Lemma existsb_mono {A} (g : A → bool) (l l' : list A) :
  (∀ x, x ∈ l → x ∈ l') → existsb g l = true → existsb g l' = true.
Proof.
  intros Hsub. rewrite !existsb_exists. intros (x & Hx & Hg).
  exists x. split; [|done]. apply list_elem_of_In, Hsub. by apply list_elem_of_In.
Qed.

(** X16: importing the same document a second time adds nothing, when
    the titles and contents of its records are texts: every record of the
    document is then a duplicate of a stored one or lacks an id, a title or
    a content. *)
Theorem import_twice (w : world) (items : list json)
    (doc : list (string * json)) (cands : list json) :
  tidy w items →
  json_lookup "prompts" doc = Some (JArr cands) →
  Forall (λ c, ∃ oc, c = JObj oc ∧ NoDup oc.*1
               ∧ (∀ j, json_lookup "title" oc = Some j → ∃ s, j = JStr s)
               ∧ (∀ j, json_lookup "content" oc = Some j → ∃ s, j = JStr s))
         cands →
  ∃ res1 w1 items1 res2 w2,
    importPrompts (Readable (JsonText (JObj doc))) w = (Ok res1, w1)
    ∧ stored w1 items1
    ∧ importPrompts (Readable (JsonText (JObj doc))) w1 = (Ok res2, w2)
    ∧ success res2 = true ∧ imported res2 = 0
    ∧ chrome_item w2 = chrome_item w1 ∧ local_item w2 = local_item w1.
Proof.
  intros Hw Hdoc Htext.
  assert (Hcands : Forall (λ c, ∃ oc, c = JObj oc ∧ NoDup oc.*1) cands).
  { eapply Forall_impl; [exact Htext|]. intros c (oc & -> & Hnd & _).
    by exists oc. }
  pose proof Hw as (_ & Hclock & _ & Hcan & Hnum).
  destruct (numeric_orders items Hnum) as [orders Hord].
  destruct (import_tidy w items doc cands orders Hw Hord Hdoc Hcands)
    as (res1 & w1 & Hrun1 & _ & _ & _ & Htidy1 & Hwf).
  set (added := imported_values (Fin (max_order orders))
                  (map of_json (kept items cands)) 0 (next_call w)) in *.
  pose proof Htidy1 as (_ & _ & Hst1 & Hcan1 & Hnum1).
  destruct (numeric_orders _ Hnum1) as [orders1 Hord1].
  destruct (import_tidy w1 _ doc cands orders1 Htidy1 Hord1 Hdoc Hcands)
    as (res2 & w2 & Hrun2 & Hsucc2 & Hcount2 & Hnone2 & _).
  assert (Hkept2 : kept (items ++ map dump added) cands = []).
  { unfold kept. apply filter_none. apply Forall_forall. intros c Hc.
    rewrite Forall_forall in Htext.
    destruct (Htext c Hc) as (oc & -> & Hnd & Htitle & Hcontent).
    destruct (is_new_pure (map load items) (of_json (JObj oc))) eqn:Hnew.
    - assert (Hin : JObj oc ∈ kept items cands).
      { unfold kept. apply list_elem_of_In, filter_In.
        split; [by apply list_elem_of_In|done]. }
      apply (list_elem_of_fmap_2 of_json) in Hin.
      destruct (imported_values_elem (Fin (max_order orders)) _ 0
                  (next_call w) _ Hin) as (now & i & Hp).
      fold added in Hp.
      set (p := imported_value (Fin (max_order orders)) (Instant now)
                  (of_json (JObj oc)) i) in *.
      assert (Hpwf : wf_prompt p).
      { rewrite Forall_forall in Hwf. by apply Hwf. }
      assert (Hload : p ∈ map load (items ++ map dump added)).
      { rewrite <- (load_dump p Hpwf).
        apply (list_elem_of_fmap_2 load). apply elem_of_app. right.
        by apply (list_elem_of_fmap_2 dump). }
      unfold is_new_pure in *. rewrite !andb_true_iff in Hnew.
      destruct Hnew as [[[Hid Ht] Hb] _]. rewrite Hid, Ht, Hb. simpl.
      apply negb_false_iff, existsb_exists. exists p.
      split; [by apply list_elem_of_In|].
      unfold same_text_pure, p. rewrite !imported_value_prop by done.
      simpl in *. fold (of_json_props oc) in *.
      rewrite !lookup_of_json_props in *.
      destruct (truthy_opt_value _ Ht) as [jt Hjt].
      destruct (truthy_opt_value _ Hb) as [jb Hjb].
      destruct (Htitle jt Hjt) as [st ->]. destruct (Hcontent jb Hjb) as [sb ->].
      rewrite Hjt, Hjb. simpl. by rewrite !bool_decide_eq_true_2.
    - unfold is_new_pure in *. rewrite !andb_false_iff in *.
      destruct Hnew as [Hnew|Hnew]; [by left|]. right.
      apply negb_false_iff in Hnew. apply negb_false_iff.
      eapply existsb_mono; [|exact Hnew]. intros x Hx.
      rewrite map_app. apply elem_of_app. by left. }
  exists res1, w1, (items ++ map dump added), res2, w2.
  split; [done|]. split; [done|]. split; [done|]. split; [done|].
  split; [by rewrite Hcount2, Hkept2|]. by apply Hnone2.
Qed.

End import_again.

Section import_null.
Context {E : Engine}.

Lemma filter_new_throws (existing candidates : list value) (n : nat)
    (w : world) :
  VNull ∈ candidates →
  ∃ e w', filter_new existing candidates n w = (Throw e, w').
Proof.
  revert n w. induction candidates as [|p l IH]; intros n w Hin;
    [by inversion Hin|].
  simpl. rewrite bind_run.
  destruct (is_new existing p w) as [[keep|e] w1] eqn:Hp; [|by exists e, w1].
  apply elem_of_cons in Hin as [<-|Hin]; [done|].
  destruct (IH (if keep then S n else n) w1 Hin) as (e & w' & He).
  exists e, w'. by rewrite bind_run, He.
Qed.

(** X17: a null among the records of a document makes the whole import
    fail, in every world: the result is the negative outcome with count 0,
    and nothing is written, whatever the other records of the document
    are. *)
Theorem import_null_record_fails (w : world) (doc : list (string * json))
    (cands : list json) :
  json_lookup "prompts" doc = Some (JArr cands) → JNull ∈ cands →
  ∃ res w',
    importPrompts (Readable (JsonText (JObj doc))) w = (Ok res, w')
    ∧ success res = false ∧ imported res = 0
    ∧ same_store w w'.
Proof.
  intros Hdoc Hnull.
  apply (list_elem_of_fmap_2 of_json) in Hnull. simpl in Hnull.
  pose proof (read_only_getPrompts w) as Hget.
  unfold importPrompts, try_catch. mrun.
  rewrite lookup_of_json_props, Hdoc. mrun.
  destruct (getPrompts w) as [[existing|e] w1] eqn:Hg; simpl in Hget.
  - destruct (filter_new_throws existing (map of_json cands) 0 w1 Hnull)
      as (e & w2 & He).
    pose proof (read_only_filter_new existing (map of_json cands) 0 w1) as Hf.
    rewrite bind_run, He in *. simpl in Hf.
    eexists _, w2. split; [reflexivity|]. split; [done|]. split; [done|].
    by etrans.
  - eexists _, w1. split; [reflexivity|]. done.
Qed.

End import_null.

(** ** Export *)

Section export.
Context {E : Engine}.

Lemma read_only_getDateForFilename v :
  respects same_store (getDateForFilename v).
Proof.
  unfold getDateForFilename, getValidDateWithFallback, Date_toISOString. ro.
Qed.

Lemma read_only_exportPrompts : respects same_store exportPrompts.
Proof.
  unfold exportPrompts, createCurrentDate.
  pose proof read_only_getDateForFilename. ro.
Qed.

(** X18: in every world, exportPrompts writes to neither back end, and
    the only thing it throws is its own error with the message "Failed to
    export prompts", which replaces whatever the reading of the store
    threw. *)
Theorem export_fails_cleanly (w : world) :
  same_store w (exportPrompts w).2
  ∧ (∀ e, (exportPrompts w).1 = Throw e
          → e = Error "Failed to export prompts")
  ∧ (∀ e w1, getPrompts w = (Throw e, w1)
             → exportPrompts w
               = (Throw (Error "Failed to export prompts"), w1)).
Proof.
  split; [apply read_only_exportPrompts|]. split.
  - intros e. unfold exportPrompts, try_catch.
    match goal with |- context [match ?m w with _ => _ end] =>
      destruct (m w) as [[d|e'] w1] end; simpl; [done|]. by intros [= <-].
  - intros e w1 Hget. unfold exportPrompts.
    erewrite try_throw; [reflexivity|]. by rewrite bind_run, Hget.
Qed.

End export.

Section export_import.
Context {E : Engine} {EL : EngineLaws E}.

Lemma load_prompt_json r : valid_dates r → load (prompt_json r) = prompt_value r.
Proof.
  intros Hr. rewrite <- (dump_prompt_value r Hr).
  by apply load_dump, prompt_value_wf.
Qed.

Lemma to_json_tags (d : Date → json) (l : list string) :
  map (λ x, default JNull (to_json d x)) (map VStr l) = map JStr l.
Proof. induction l as [|s l IH]; simpl; [done|]. by rewrite IH. Qed.

Lemma to_json_prompt_value r :
  to_json toJSON (prompt_value r) = Some (prompt_json r).
Proof.
  unfold prompt_value, prompt_json. simpl. by rewrite to_json_tags.
Qed.

Lemma canonical_records rs :
  Forall valid_dates rs → Forall canonical (map prompt_json rs).
Proof.
  intros Hrs. apply Forall_fmap. eapply Forall_impl; [exact Hrs|].
  apply prompt_json_canonical.
Qed.

Lemma load_records rs :
  Forall valid_dates rs → map load (map prompt_json rs) = map prompt_value rs.
Proof.
  intros Hrs. rewrite map_map. apply map_ext_in. intros r Hr.
  apply load_prompt_json. rewrite Forall_forall in Hrs.
  apply Hrs. by apply list_elem_of_In.
Qed.

(** The document that export writes for a store of typed records. *)
Lemma exportPrompts_run (w : world) (rs : list Prompt) :
  healthy w → stored w (map prompt_json rs) → Forall valid_dates rs →
  ∃ name exportDate,
    exportPrompts w
    = (Ok {| download := name;
             href := JsonText (JObj [("prompts", JArr (map prompt_json rs));
                                     ("exportDate", JStr exportDate);
                                     ("version", JStr "1.0")]) |},
       next_tick (next_tick (next_call w))).
Proof.
  intros Hw Hst Hrs. unfold exportPrompts. eexists _, _. apply try_ok.
  erewrite bind_ok by (by apply getPrompts_canonical, canonical_records).
  rewrite load_records by done.
  unfold createCurrentDate, getDateForFilename, dateToISOString,
    getValidDateWithFallback, JSON_stringify_value. unfold new_Date. mrun.
  rewrite map_map.
  rewrite (map_ext (λ x, default JNull (to_json toJSON (prompt_value x)))
             prompt_json); [done|].
  intros r. by rewrite to_json_prompt_value.
Qed.

Lemma dump_imported_record (r : Prompt) (now : Z) (k : nat) :
  valid_dates r →
  dump (imported_value (Fin (-1)) (Instant now) (of_json (prompt_json r)) k)
  = prompt_json (with_order r (Z.of_nat k)).
Proof.
  intros (tc & tu & HC & Hc & HU & Hu).
  set (o := own_props (of_json (prompt_json r))).
  assert (HC' : lookup_prop "createdAt" o = VStr (toISOString tc)).
  { unfold o. simpl. by rewrite HC. }
  assert (HU' : lookup_prop "updatedAt" o = VStr (toISOString tu)).
  { unfold o. simpl. by rewrite HU. }
  unfold imported_value. fold o. rewrite HC', HU'.
  rewrite !getValidDate_iso by done.
  unfold o, dump, serialized, iso_text, prompt_json, with_order. simpl.
  rewrite HC, HU. simpl.
  rewrite <- map_VStr_json, to_json_tags.
  by replace (-1 + 1 + Z.of_nat k)%Z with (Z.of_nat k) by lia.
Qed.

Lemma dump_imported_records (rs : list Prompt) (k : nat) (w : world) :
  Forall valid_dates rs →
  map dump (imported_values (Fin (-1)) (map of_json (map prompt_json rs)) k w)
  = imap (λ i r, prompt_json (with_order r (Z.of_nat (k + i)))) rs.
Proof.
  intros Hrs. revert k w.
  induction Hrs as [|r l Hr _ IH]; intros k w; [done|].
  change (map dump (imported_values (Fin (-1))
                      (map of_json (map prompt_json (r :: l))) k w))
    with (dump (imported_value (Fin (-1)) (Instant (clock w (ticks w)))
                  (of_json (prompt_json r)) k)
          :: map dump (imported_values (Fin (-1))
                         (map of_json (map prompt_json l)) (S k)
                         (next_tick w))).
  rewrite dump_imported_record, IH by done.
  rewrite imap_cons, Nat.add_0_r. f_equal.
  apply imap_ext. intros i x _. simpl. do 3 f_equal. lia.
Qed.

(** X19: what export writes, import reads back.  The document that
    exportPrompts produces from a store of typed records, imported into an
    empty store, stores every record that has an id, a title and a content,
    with its fields as they were, its two timestamps included, and with its
    position in the document for order. *)
Theorem export_import_restores (w w0 : world) (rs : list Prompt) :
  healthy w → stored w (map prompt_json rs) → Forall valid_dates rs →
  Forall (λ r, id r ≠ "" ∧ title r ≠ "" ∧ content r ≠ "") rs →
  tidy w0 [] →
  ∃ d w1 res w2,
    exportPrompts w = (Ok d, w1)
    ∧ importPrompts (Readable (href d)) w0 = (Ok res, w2)
    ∧ success res = true ∧ imported res = length rs
    ∧ stored w2 (imap (λ i r, prompt_json (with_order r (Z.of_nat i))) rs).
Proof.
  intros Hw Hst Hrs Hfull (Hw0 & Hclock0 & Hst0 & _).
  destruct (exportPrompts_run w rs Hw Hst Hrs) as (name & iso & Hexp).
  destruct (importPrompts_run w0 [] _ (map prompt_json rs) [] Hw0 Hst0
              ltac:(constructor) ltac:(constructor)
              (eq_refl : json_lookup "prompts"
                 [("prompts", JArr (map prompt_json rs));
                  ("exportDate", JStr iso); ("version", JStr "1.0")] = _))
    as (res & w2 & Himp & Hsucc & Hcount & _ & _ & _ & Hst2).
  { apply Forall_fmap, Forall_forall. intros r _. eexists. split; [done|].
    apply NoDup_prompt_keys. }
  assert (Hall : List.filter (is_new_pure (map load []))
                   (map of_json (map prompt_json rs))
                 = map of_json (map prompt_json rs)).
  { apply filter_all. rewrite !Forall_fmap. eapply Forall_impl; [exact Hfull|].
    intros r (Hid & Ht & Hb). unfold is_new_pure. simpl.
    by rewrite !bool_decide_eq_false_2. }
  rewrite Hall in *.
  eexists _, _, res, w2. split; [exact Hexp|]. split; [exact Himp|].
  split; [done|]. split; [by rewrite Hcount, !length_map|].
  simpl in Hst2. by rewrite dump_imported_records in Hst2.
Qed.

(** X20: the document that exportPrompts produces from a store of typed
    records, imported into that same store, adds nothing: every record is
    a duplicate of itself or lacks an id, a title or a content. *)
Theorem export_import_same_store (w : world) (rs : list Prompt) :
  healthy w → stored w (map prompt_json rs) → Forall valid_dates rs →
  ∃ d w1 res w2,
    exportPrompts w = (Ok d, w1)
    ∧ importPrompts (Readable (href d)) w1 = (Ok res, w2)
    ∧ success res = true ∧ imported res = 0
    ∧ stored w2 (map prompt_json rs).
Proof.
  intros Hw Hst Hrs.
  destruct (exportPrompts_run w rs Hw Hst Hrs) as (name & iso & Hexp).
  set (w1 := next_tick (next_tick (next_call w))) in *.
  destruct (importPrompts_run w1 (map prompt_json rs) _ (map prompt_json rs)
              (map order rs) ltac:(done) Hst (canonical_records rs Hrs)
              ltac:(by apply Forall2_fmap, Forall_Forall2_diag, Forall_forall)
              (eq_refl : json_lookup "prompts"
                 [("prompts", JArr (map prompt_json rs));
                  ("exportDate", JStr iso); ("version", JStr "1.0")] = _))
    as (res & w2 & Himp & Hsucc & Hcount & _ & _ & _ & Hst2).
  { apply Forall_fmap, Forall_forall. intros r _. eexists. split; [done|].
    apply NoDup_prompt_keys. }
  assert (Hnone : List.filter (is_new_pure (map load (map prompt_json rs)))
                    (map of_json (map prompt_json rs)) = []).
  { apply filter_none. rewrite !Forall_fmap. apply Forall_forall.
    intros r Hr. unfold is_new_pure. simpl.
    destruct (bool_decide (id r = "")); [done|].
    destruct (bool_decide (title r = "")); [done|].
    destruct (bool_decide (content r = "")); [done|]. simpl.
    apply negb_false_iff, existsb_exists. exists (prompt_value r). split.
    - rewrite load_records by done. apply in_map. by apply list_elem_of_In.
    - unfold same_text_pure. simpl. by rewrite !bool_decide_eq_true_2. }
  rewrite Hnone in *. simpl in *. rewrite app_nil_r in Hst2.
  by eexists _, _, res, w2.
Qed.

End export_import.

(** ** The filtered view *)

Lemma append_nil (s : string) : "" +:+ s = s.
Proof. reflexivity. Qed.

Lemma append_cons (c : Ascii.ascii) (a b : string) :
  String c a +:+ b = String c (a +:+ b).
Proof. reflexivity. Qed.

Lemma String_prefix_spec (p s : string) :
  String.prefix p s = true ↔ ∃ b, s = p +:+ b.
Proof.
  revert s. induction p as [|c p IH]; intros s.
  - split; [by exists s|by destruct s].
  - destruct s as [|d s]; simpl; [split; [done|by intros [b Hb]]|].
    destruct (Ascii.ascii_dec c d) as [->|Hne].
    + rewrite IH. split; intros [b Hb]; exists b.
      * by rewrite append_cons, Hb.
      * rewrite append_cons in Hb. by injection Hb.
    + split; [done|]. intros [b Hb]. rewrite append_cons in Hb.
      injection Hb as -> _. done.
Qed.

Lemma includes_spec (s sub : string) :
  includes s sub = true ↔ ∃ a b, s = a +:+ sub +:+ b.
Proof.
  induction s as [|c s IH].
  - change (includes "" sub) with (String.prefix sub "" || false).
    rewrite orb_false_r, String_prefix_spec. split.
    + intros [b Hb]. by exists "", b.
    + intros (a & b & Hab). destruct a; [by exists b|done].
  - change (includes (String c s) sub)
      with (String.prefix sub (String c s) || includes s sub).
    rewrite orb_true_iff, IH, String_prefix_spec. split.
    + intros [[b Hb]|(a & b & Hab)].
      * by exists "", b.
      * exists (String c a), b. by rewrite append_cons, Hab.
    + intros (a & b & Hab). destruct a as [|d a].
      * left. by exists b.
      * right. rewrite append_cons in Hab. injection Hab as -> ->.
        by exists a, b.
Qed.

Lemma toLowerCase_app (a b : string) :
  toLowerCase (a +:+ b) = toLowerCase a +:+ toLowerCase b.
Proof.
  induction a as [|c a IH]; [done|].
  rewrite append_cons. simpl. by rewrite IH.
Qed.

Lemma includes_toLowerCase (s sub : string) :
  includes s sub = true → includes (toLowerCase s) (toLowerCase sub) = true.
Proof.
  rewrite !includes_spec. intros (a & b & ->).
  exists (toLowerCase a), (toLowerCase b). by rewrite !toLowerCase_app.
Qed.

Lemma String_app_assoc (a b c : string) : (a +:+ b) +:+ c = a +:+ (b +:+ c).
Proof.
  induction a as [|x a IH]; [done|]. rewrite !append_cons. by rewrite IH.
Qed.

Lemma includes_trans (s q q' : string) :
  includes s q = true → includes q q' = true → includes s q' = true.
Proof.
  rewrite !includes_spec. intros (a & b & ->) (a' & b' & ->).
  exists (a +:+ a'), (b' +:+ b). by rewrite !String_app_assoc.
Qed.

Section view.
Context {E : Engine}.

Lemma tags_some (g : string → bool) (l : list string) (w : world) :
  Array_some (λ tag, tag ← call_toLowerCase tag; mret (g tag)) (map VStr l) w
  = (Ok (existsb (λ tag, g (toLowerCase tag)) l), w).
Proof.
  induction l as [|s l IH]; simpl; [done|]. mrun.
  destruct (g (toLowerCase s)); [done|]. exact IH.
Qed.

Lemma matches_search_typed (q : string) (r : Prompt) (w : world) :
  matches_search q (prompt_value r) w = (Ok (found q r), w).
Proof.
  unfold matches_search, found. mrun.
  destruct (includes (toLowerCase (title r)) (toLowerCase q)); [done|].
  mrun.
  destruct (includes (toLowerCase (content r)) (toLowerCase q)); [done|].
  mrun. apply (tags_some (λ tag, includes tag (toLowerCase q))).
Qed.

Lemma has_selected_tag_typed (t : string) (r : Prompt) (w : world) :
  has_selected_tag t (prompt_value r) w = (Ok (tagged t r), w).
Proof.
  unfold has_selected_tag, tagged. mrun.
  apply (tags_some (λ tag, bool_decide (tag = toLowerCase t))).
Qed.

Lemma Array_filter_typed {A} (f : value → M bool) (h : A → value)
    (g : A → bool) (l : list A) (w : world) :
  (∀ x, f (h x) w = (Ok (g x), w)) →
  Array_filter f (map h l) w = (Ok (map h (List.filter g l)), w).
Proof.
  intros Hf. induction l as [|x l IH]; simpl; [done|].
  rewrite bind_run, Hf, bind_run, IH. by destruct (g x).
Qed.

Lemma filter_filter {A} (f g : A → bool) (l : list A) :
  List.filter g (List.filter f l) = List.filter (λ x, f x && g x) l.
Proof.
  induction l as [|x l IH]; simpl; [done|].
  destruct (f x); simpl; [destruct (g x)|]; by rewrite IH.
Qed.

Lemma filteredPrompts_typed (rs : list Prompt) (q t : string) (w : world) :
  filteredPrompts (map prompt_value rs) q t w
  = (Ok (map prompt_value (List.filter (shown q t) rs)), w).
Proof.
  unfold filteredPrompts. simpl.
  assert (Hq : (if negb (bool_decide (q = ""))
                then Array_filter (matches_search q) (map prompt_value rs)
                else mret (map prompt_value rs)) w
               = (Ok (map prompt_value
                        (List.filter (λ r, bool_decide (q = "") || found q r)
                           rs)), w)).
  { destruct (bool_decide (q = "")); simpl.
    - by rewrite filter_all by (by apply Forall_forall).
    - apply Array_filter_typed. intros r. apply matches_search_typed. }
  rewrite bind_run, Hq. unfold shown. rewrite <- filter_filter.
  destruct (bool_decide (t = "")); simpl.
  - by rewrite (filter_all (λ _, true)) by (by apply Forall_forall).
  - apply Array_filter_typed. intros r. apply has_selected_tag_typed.
Qed.

(** X21: on typed records the filtered view never throws and leaves the
    world alone; it shows the records, in the sequence of the list, for
    which the search text is empty or is found (letter case apart) in the
    title, in the content or in a tag, and for which no tag is selected or
    one of their tags is the selected one (letter case apart).  The two
    filters are conjunctive: applying them together is applying the
    search to the outcome of the tag filter, or the other way round. *)
Theorem filtered_view (rs : list Prompt) (q t : string) (w : world) :
  ∃ view,
    filteredPrompts (map prompt_value rs) q t w = (Ok (map prompt_value view), w)
    ∧ view `sublist_of` rs
    ∧ (∀ r, r ∈ view ↔ r ∈ rs ∧ shown q t r = true)
    ∧ (view' ← filteredPrompts (map prompt_value rs) q "";
       filteredPrompts view' "" t) w = (Ok (map prompt_value view), w)
    ∧ (view' ← filteredPrompts (map prompt_value rs) "" t;
       filteredPrompts view' q "") w = (Ok (map prompt_value view), w).
Proof.
  exists (List.filter (shown q t) rs).
  split; [apply filteredPrompts_typed|].
  split; [apply List_filter_sublist|]. split.
  { intros r. by rewrite list_elem_of_In, filter_In, <- list_elem_of_In. }
  split.
  - rewrite bind_run, filteredPrompts_typed, filteredPrompts_typed.
    rewrite filter_filter. do 3 f_equal. apply List.filter_ext. intros r.
    unfold shown. simpl. by rewrite andb_true_r.
  - rewrite bind_run, filteredPrompts_typed, filteredPrompts_typed.
    rewrite filter_filter. do 3 f_equal. apply List.filter_ext. intros r.
    unfold shown. simpl. by rewrite andb_true_r, andb_comm.
Qed.

End view.

Lemma filter_sublist_mono {A} (f g : A → bool) (l : list A) :
  (∀ x, f x = true → g x = true) →
  List.filter f l `sublist_of` List.filter g l.
Proof.
  intros Hfg. induction l as [|x l IH]; simpl; [done|].
  destruct (f x) eqn:Hf.
  - rewrite (Hfg x Hf). by apply sublist_skip.
  - destruct (g x); [by apply sublist_cons|done].
Qed.

Lemma lower_char_idemp (c : Ascii.ascii) :
  lower_char (lower_char c) = lower_char c.
Proof. by destruct c as [[] [] [] [] [] [] [] []]. Qed.

Lemma toLowerCase_idemp (s : string) :
  toLowerCase (toLowerCase s) = toLowerCase s.
Proof.
  induction s as [|c s IH]; simpl; [done|].
  by rewrite lower_char_idemp, IH.
Qed.

Lemma toLowerCase_empty (s : string) : toLowerCase s = "" ↔ s = "".
Proof. by destruct s. Qed.

Section search.
Context {E : Engine}.

(** X22: for texts of characters with codes below 256 (the strings of
    this development, where toLowerCase works character by character and
    so keeps an occurrence of one text in another), a shorter search text
    never hides a record: when the text q' occurs in the text q, every
    typed record that is shown for q is shown for q', and the view for q
    is a part of the view for q', in the same sequence.  Beyond these
    characters toLowerCase depends on the neighbours of a character (the
    final sigma), and the property is not claimed. *)
Theorem search_narrows (rs : list Prompt) (q q' t : string) (w : world) :
  includes q q' = true →
  ∃ view view',
    filteredPrompts (map prompt_value rs) q t w
    = (Ok (map prompt_value view), w)
    ∧ filteredPrompts (map prompt_value rs) q' t w
      = (Ok (map prompt_value view'), w)
    ∧ view `sublist_of` view'.
Proof.
  intros Hq. eexists _, _.
  split; [apply filteredPrompts_typed|].
  split; [apply filteredPrompts_typed|].
  apply filter_sublist_mono. intros r. unfold shown.
  rewrite !andb_true_iff. intros [Hs Ht]. split; [|done].
  apply includes_toLowerCase in Hq.
  destruct (decide (q' = "")) as [->|Hne']; [done|].
  rewrite (bool_decide_eq_false_2 (q' = "")) by done. simpl.
  destruct (decide (q = "")) as [->|Hne].
  { apply includes_spec in Hq as (a & b & Hab).
    destruct a; [|done]. rewrite append_nil in Hab.
    by destruct q'. }
  rewrite (bool_decide_eq_false_2 (q = "")) in Hs by done. simpl in Hs.
  unfold found in *. rewrite !orb_true_iff in *.
  destruct Hs as [[Hs|Hs]|Hs].
  - left; left. by eapply includes_trans.
  - left; right. by eapply includes_trans.
  - right. apply existsb_exists in Hs as (tag & Htag & Hs).
    apply existsb_exists. exists tag. split; [done|].
    by eapply includes_trans.
Qed.

(** X23: the view does not depend on the letter case of the search
    text or of the selected tag: two search texts, and two tags, with the
    same lower-case form give the same outcome on every list of prompts,
    typed or not. *)
Theorem search_ignores_case (prompts : list value) (q q' t t' : string)
    (w : world) :
  toLowerCase q = toLowerCase q' → toLowerCase t = toLowerCase t' →
  filteredPrompts prompts q t w = filteredPrompts prompts q' t' w.
Proof.
  intros Hq Ht.
  assert (Hqe : bool_decide (q = "") = bool_decide (q' = "")).
  { apply bool_decide_ext.
    by rewrite <- (toLowerCase_empty q), <- (toLowerCase_empty q'), Hq. }
  assert (Hte : bool_decide (t = "") = bool_decide (t' = "")).
  { apply bool_decide_ext.
    by rewrite <- (toLowerCase_empty t), <- (toLowerCase_empty t'), Ht. }
  unfold filteredPrompts, matches_search, has_selected_tag. simpl.
  by rewrite Hqe, Hte, Hq, Ht.
Qed.

Lemma Array_filter_throws {A} (f : A → M bool) (x : A) (l : list A)
    (w : world) :
  x ∈ l → (∀ w, ∃ e w', f x w = (Throw e, w')) →
  ∃ e w', Array_filter f l w = (Throw e, w').
Proof.
  intros Hin Hx. revert w.
  induction l as [|y l IH]; intros w; [by inversion Hin|]. simpl.
  rewrite bind_run. destruct (f y w) as [[b|e] w1] eqn:Hy.
  - apply elem_of_cons in Hin as [->|Hin].
    + destruct (Hx w) as (e & w' & He). congruence.
    + destruct (IH Hin w1) as (e & w' & He).
      exists e, w'. by rewrite bind_run, He.
  - by exists e, w1.
Qed.

(** X24: one listed prompt whose title is not a text makes every search
    throw: the view is not recomputed as soon as the search text is not
    empty.  (Import stores such a prompt: it asks for a title that is
    truthy, not for a text.) *)
Theorem search_throws_on_untyped_title (prompts : list value)
    (o : props) (q t : string) (w : world) :
  q ≠ "" → VObj o ∈ prompts → (∀ s, lookup_prop "title" o ≠ VStr s) →
  ∃ e w', filteredPrompts prompts q t w = (Throw e, w').
Proof.
  intros Hq Hin Htitle.
  destruct (Array_filter_throws (matches_search q) (VObj o) prompts w Hin)
    as (e & w' & He).
  { intros w1. exists TypeError, w1. unfold matches_search. mrun.
    destruct (lookup_prop "title" o) as [| | | |s| | |] eqn:Ht; try done.
    by destruct (Htitle s). }
  exists e, w'. unfold filteredPrompts. simpl.
  rewrite (bool_decide_eq_false_2 (q = "")) by done. simpl.
  by rewrite bind_run, He.
Qed.

End search.

(** ** The tags of the form *)

Lemma split_comma_cons (s : string) : ∃ piece pieces, split_comma s = piece :: pieces.
Proof.
  induction s as [|c s (p & ps & IH)]; simpl; [by eexists _, _|].
  destruct (decide (c = comma)); [by eexists _, _|].
  rewrite IH. by eexists _, _.
Qed.

Lemma includes_cons_false (c : Ascii.ascii) (s sub : string) :
  includes (String c s) sub = false →
  String.prefix sub (String c s) = false ∧ includes s sub = false.
Proof.
  change (includes (String c s) sub)
    with (String.prefix sub (String c s) || includes s sub).
  by intros [? ?]%orb_false_iff.
Qed.

Lemma split_comma_app (tag rest : string) :
  includes tag "," = false →
  split_comma (tag +:+ "," +:+ rest) = tag :: split_comma rest.
Proof.
  induction tag as [|c tag IH]; intros Hc.
  - done.
  - apply includes_cons_false in Hc as [Hp Hc]. rewrite append_cons. simpl.
    destruct (decide (c = comma)) as [->|Hne].
    { simpl in Hp. by destruct tag. }
    by rewrite IH.
Qed.

Lemma split_comma_one (tag : string) :
  includes tag "," = false → split_comma tag = [tag].
Proof.
  induction tag as [|c tag IH]; intros Hc; [done|].
  apply includes_cons_false in Hc as [Hp Hc]. simpl.
  destruct (decide (c = comma)) as [->|Hne].
  { simpl in Hp. by destruct tag. }
  by rewrite IH.
Qed.

Lemma trim_space (s : string) : trim (" " +:+ s) = trim s.
Proof. reflexivity. Qed.

Lemma filter_cons_true {A} (g : A → bool) (x : A) (l : list A) :
  g x = true → List.filter g (x :: l) = x :: List.filter g l.
Proof. intros Hx. simpl. by rewrite Hx. Qed.

Lemma includes_space (tag : string) :
  includes tag "," = false → includes (" " +:+ tag) "," = false.
Proof.
  intros Hc.
  change (includes (" " +:+ tag) ",")
    with (String.prefix "," (" " +:+ tag) || includes tag ",").
  by rewrite Hc.
Qed.

Lemma form_tags_join (tag : string) (tags : list string) :
  Forall (λ tag, tag ≠ "" ∧ trim tag = tag ∧ includes tag "," = false)
         (tag :: tags) →
  List.filter (λ tag, 0 <? String.length tag)
    (map trim (split_comma (join ", " (tag :: tags))))
  = tag :: tags
  ∧ List.filter (λ tag, 0 <? String.length tag)
      (map trim (split_comma (" " +:+ join ", " (tag :: tags))))
    = tag :: tags.
Proof.
  revert tag. induction tags as [|t tags IH]; intros tag Hall.
  - apply Forall_singleton in Hall as (Hne & Htrim & Hc).
    assert (Hlen : (0 <? String.length tag) = true) by (by destruct tag).
    split.
    + simpl join. rewrite split_comma_one by done. simpl.
      by rewrite Htrim, Hlen.
    + simpl join. rewrite split_comma_one.
      2:{ by apply includes_space. }
      simpl map. rewrite trim_space, Htrim. simpl. by rewrite Hlen.
  - apply Forall_cons in Hall as [(Hne & Htrim & Hc) Hall].
    destruct (IH t Hall) as [_ IH2].
    assert (Hlen : (0 <? String.length tag) = true) by (by destruct tag).
    change (join ", " (tag :: t :: tags))
      with (tag +:+ ", " +:+ join ", " (t :: tags)).
    split.
    + change (tag +:+ ", " +:+ join ", " (t :: tags))
        with (tag +:+ "," +:+ (" " +:+ join ", " (t :: tags))).
      rewrite split_comma_app, List.map_cons, Htrim by done.
      by rewrite filter_cons_true, IH2.
    + change (" " +:+ (tag +:+ ", " +:+ join ", " (t :: tags)))
        with ((" " +:+ tag) +:+ "," +:+ (" " +:+ join ", " (t :: tags))).
      rewrite split_comma_app.
      2:{ by apply includes_space. }
      rewrite List.map_cons, trim_space, Htrim.
      by rewrite filter_cons_true, IH2.
Qed.

(** X25: the tags of a prompt survive the form: the text that the form
    shows for them, joined by a comma and a space, is split by
    handleSubmit into the same tags in the same sequence, provided that no
    tag is empty, holds a comma or begins or ends with white space. *)
Theorem tags_survive_the_form (tags : list string) :
  Forall (λ tag, tag ≠ "" ∧ trim tag = tag ∧ includes tag "," = false) tags →
  form_tags (tags_text tags) = tags.
Proof.
  intros Hall. destruct tags as [|tag tags]; [done|].
  by apply form_tags_join.
Qed.

(** ** Drag and drop *)

(** X26: a drag from one place of the list to another moves one
    prompt and nothing else: the list that handleDragEnd hands on is a
    permutation of the prompts, holds the dragged prompt at the place of
    the drop, and without it is the list of the other prompts in their
    old sequence. *)
Theorem drag_moves_one (prompts : list value) (source endIndex : nat)
    (p : value) :
  prompts !! source = Some p → endIndex < length prompts →
  source ≠ endIndex →
  ∃ l,
    handleDragEnd prompts source (Some endIndex) = Some l
    ∧ l ≡ₚ prompts
    ∧ l !! endIndex = Some p
    ∧ delete endIndex l = delete source prompts.
Proof.
  intros Hp He Hne. unfold handleDragEnd, moved.
  rewrite decide_False by done. rewrite Hp. simpl.
  eexists. split; [done|].
  assert (Hlen : length (take endIndex (delete source prompts)) = endIndex).
  { apply length_take_le. rewrite length_delete by (by eexists). lia. }
  split; [|split].
  - rewrite <- Permutation_middle, take_drop.
    symmetry. by apply delete_Permutation.
  - rewrite lookup_app_r by lia. by rewrite Hlen, Nat.sub_diag.
  - rewrite <- Hlen at 1. by rewrite delete_middle, take_drop.
Qed.

(** ** The loaded list *)

Section sorted.
Context {E : Engine}.

Lemma sort_insert_cons cmp x y l :
  sort_insert cmp x (y :: l)
  = if num_gt (cmp x y) (Fin 0) then y :: sort_insert cmp x l else x :: y :: l.
Proof. reflexivity. Qed.

Lemma sort_insert_perm cmp x l : sort_insert cmp x l ≡ₚ x :: l.
Proof.
  induction l as [|y l IH]; [done|]. rewrite sort_insert_cons.
  destruct (num_gt (cmp x y) (Fin 0)); [|done].
  rewrite IH. apply Permutation_swap.
Qed.

Lemma Array_sort_perm cmp l : Array_sort cmp l ≡ₚ l.
Proof.
  induction l as [|x l IH]; [done|].
  change (Array_sort cmp (x :: l)) with (sort_insert cmp x (Array_sort cmp l)).
  by rewrite sort_insert_perm, IH.
Qed.

Lemma order_le_total a b : ordered a → ordered b → order_le a b ∨ order_le b a.
Proof.
  intros [x Hx] [y Hy]. unfold order_le, by_order, num_gt.
  rewrite Hx, Hy. simpl.
  destruct (Z.ltb_spec 0 (x + - y)); [right|by left].
  destruct (Z.ltb_spec 0 (y + - x)); [lia|done].
Qed.

Lemma order_le_trans a b c :
  ordered a → ordered b → ordered c →
  order_le a b → order_le b c → order_le a c.
Proof.
  intros [x Hx] [y Hy] [z Hz]. unfold order_le, by_order, num_gt.
  rewrite Hx, Hy, Hz. simpl. rewrite !Z.ltb_ge. lia.
Qed.

Lemma sort_insert_sorted x l :
  ordered x → Forall ordered l →
  StronglySorted order_le l → StronglySorted order_le (sort_insert by_order x l).
Proof.
  intros Hx Hl Hs. revert Hl.
  induction Hs as [|y l Hs IH Hy]; intros Hl.
  - by repeat constructor.
  - rewrite sort_insert_cons. apply Forall_cons in Hl as [Hoy Hl].
    destruct (num_gt (by_order x y) (Fin 0)) eqn:Hxy.
    + constructor; [by apply IH|].
      rewrite (sort_insert_perm by_order x l). constructor; [|done].
      destruct (order_le_total y x Hoy Hx) as [H|H]; [done|].
      unfold order_le in H. congruence.
    + constructor; [by constructor|]. constructor; [done|].
      apply Forall_forall. intros z Hz.
      rewrite Forall_forall in Hy, Hl.
      apply (order_le_trans x y z); auto.
Qed.

Lemma Array_sort_sorted l :
  Forall ordered l → StronglySorted order_le (Array_sort by_order l).
Proof.
  induction 1 as [|x l Hx Hl IH]; [constructor|].
  change (Array_sort by_order (x :: l))
    with (sort_insert by_order x (Array_sort by_order l)).
  apply sort_insert_sorted; [done| |done].
  by rewrite Array_sort_perm.
Qed.

Lemma sort_insert_stable z x l :
  ordered x → Forall ordered l →
  List.filter (has_order z) (sort_insert by_order x l)
  = List.filter (has_order z) (x :: l).
Proof.
  intros [kx Hx] Hl. induction Hl as [|y l [ky Hy] Hl IH]; [done|].
  rewrite sort_insert_cons.
  assert (Hcmp : num_gt (by_order x y) (Fin 0) = (0 <? kx + - ky)%Z).
  { unfold by_order, num_gt. by rewrite Hx, Hy. }
  rewrite Hcmp.
  destruct (Z.ltb_spec 0 (kx + - ky)) as [Hlt|Hge]; [|done].
  change (List.filter (has_order z) (y :: sort_insert by_order x l))
    with (if has_order z y
          then y :: List.filter (has_order z) (sort_insert by_order x l)
          else List.filter (has_order z) (sort_insert by_order x l)).
  rewrite IH. simpl.
  assert (Hzx : has_order z x = (kx =? z)%Z) by (unfold has_order; by rewrite Hx).
  assert (Hzy : has_order z y = (ky =? z)%Z) by (unfold has_order; by rewrite Hy).
  rewrite Hzx, Hzy.
  destruct (Z.eqb_spec ky z) as [->|Hky]; [|done].
  destruct (Z.eqb_spec kx z) as [->|Hkx]; [lia|done].
Qed.

Lemma Array_sort_stable z l :
  Forall ordered l →
  List.filter (has_order z) (Array_sort by_order l)
  = List.filter (has_order z) l.
Proof.
  induction 1 as [|x l Hx Hl IH]; [done|].
  change (Array_sort by_order (x :: l))
    with (sort_insert by_order x (Array_sort by_order l)).
  rewrite sort_insert_stable; [|done|by rewrite Array_sort_perm].
  simpl. by rewrite IH.
Qed.

End sorted.

Section loaded.
Context {E : Engine} {EL : EngineLaws E}.

(** X27: on a tidy store, loadPrompts gives the listed prompts sorted
    by order: a permutation of what is listed, ascending in order, in which
    the prompts of one order keep the sequence they are stored in. *)
Theorem load_sorts_by_order (w : world) (items : list json) :
  tidy w items →
  ∃ l w',
    loadPrompts w = (Ok l, w')
    ∧ l ≡ₚ map load items
    ∧ StronglySorted order_le l
    ∧ ∀ z, List.filter (has_order z) l
           = List.filter (has_order z) (map load items).
Proof.
  intros (Hw & _ & Hst & Hcan & Hnum).
  assert (Hord : Forall ordered (map load items)).
  { apply Forall_fmap, Forall_forall. intros j Hj.
    rewrite Forall_forall in Hcan, Hnum.
    destruct (Hnum j Hj) as [z Hz]. exists z.
    by rewrite load_prop, Hz by auto. }
  eexists _, _. split.
  { unfold loadPrompts. erewrite bind_ok by (by apply getPrompts_canonical).
    reflexivity. }
  split; [apply Array_sort_perm|]. split; [by apply Array_sort_sorted|].
  intros z. by apply Array_sort_stable.
Qed.

End loaded.

(** ** The form *)

Section form.
Context {E : Engine} {EL : EngineLaws E}.

Lemma healthy_next_tick w : healthy w → healthy (next_tick w).
Proof. intros H n. apply H. Qed.

(** X28: submitting the form for a new prompt stores, after the
    stored elements, the record that the form describes: the id that was
    generated, the title and the content of the form, the tags that the
    text of the form splits into, two readings of the clock for the
    timestamps and the number of listed prompts for order.  The list that
    is handed to the state is the old one followed by this record, which is
    what a new listing of the store ends with. *)
Theorem submit_new_prompt (w : world) (items : list json)
    (prompts : list value) (data : PromptFormData) (uuid : string) :
  tidy w items →
  let r := {| id := uuid;
              title := data_title data;
              content := data_content data;
              tags := form_tags (data_tags data);
              createdAt := Instant (clock w (ticks w));
              updatedAt := Instant (clock w (S (ticks w)));
              order := Z.of_nat (length prompts) |} in
  ∃ w',
    handleSubmit data None prompts uuid w
    = (Ok (prompts ++ [prompt_value r]), w')
    ∧ stored w' (items ++ [prompt_json r])
    ∧ (getPrompts w').1 = Ok (map load items ++ [prompt_value r]).
Proof.
  intros (Hw & Hclock & Hst & Hcan & _) r.
  assert (Hr : valid_dates r).
  { by eexists _, _. }
  set (w2 := next_tick (next_tick w)).
  assert (Hadd := addPrompt_run w2 items r
                    ltac:(by apply healthy_next_tick, healthy_next_tick)
                    Hst Hcan Hr).
  eexists. split; [|split].
  - unfold handleSubmit, createCurrentDate. unfold new_Date at 1 2.
    rewrite bind_run. simpl. rewrite bind_run. simpl.
    change (VObj _) with (prompt_value r).
    rewrite bind_run. fold w2. rewrite Hadd. reflexivity.
  - apply stored_write.
  - rewrite (getPrompts_canonical _ (items ++ [prompt_json r])).
    + simpl. rewrite map_app. simpl. by rewrite load_prompt_json.
    + by apply healthy_write, healthy_next_call, healthy_next_call,
        healthy_next_tick, healthy_next_tick.
    + apply stored_write.
    + apply Forall_app. split; [done|]. apply Forall_singleton.
      by apply prompt_json_canonical.
Qed.

End form.

Section view_in_sync.
Context {E : Engine} {EL : EngineLaws E}.

Lemma updatePrompt_first_match (w : world) (pre post : list json)
    (j : json) (r : Prompt) :
  healthy w → stored w (pre ++ j :: post) →
  Forall canonical (pre ++ j :: post) → valid_dates r →
  json_prop j "id" = Some (JStr (id r)) →
  Forall (λ x, json_prop x "id" ≠ Some (JStr (id r))) pre →
  updatePrompt (prompt_value r) w
  = (Ok (), write_items (pre ++ prompt_json r :: post)
              (next_call (next_call w))).
Proof.
  intros Hw Hst Hcan Hr Hj Hpre.
  rewrite (updatePrompt_run w (pre ++ j :: post)) by done.
  pose proof Hcan as Hcan'.
  apply Forall_app in Hcan' as [Hcpre Hcpost].
  apply Forall_cons in Hcpost as [Hcj Hcpost].
  rewrite map_app. simpl. rewrite find_index_app.
  - rewrite length_map. rewrite insert_app_r_alt by lia.
    by rewrite Nat.sub_diag.
  - apply Forall_fmap. apply Forall_forall. intros x Hx. simpl.
    rewrite Forall_forall in Hpre, Hcpre. apply has_id_load; auto.
  - by apply has_id_load_iff.
Qed.

Lemma replace_in_view (r' : Prompt) (l : list json) (w : world) :
  Forall canonical l →
  Forall (λ x, json_prop x "id" ≠ Some (JStr (id r'))) l →
  Array_map
    (λ p, same ← same_id (prompt_value r') p;
          mret (if same : bool then prompt_value r' else p))
    (map load l) w
  = (Ok (map load l), w).
Proof.
  intros Hcan Hne. rewrite (Array_map_pure_id _ (λ p, p)).
  { by rewrite map_id. }
  apply Forall_fmap, Forall_forall. intros j Hj.
  rewrite Forall_forall in Hcan, Hne. simpl.
  destruct (load_is_object j (Hcan j Hj)) as [o Ho].
  rewrite bind_run, Ho, same_id_object, <- Ho.
  by rewrite has_id_load by auto.
Qed.

(** X29: on a tidy store (a healthy world whose clock reads time values
    and whose stored elements are canonical, with their two timestamps as
    savePrompts writes them, and have an integer for order) that holds the
    typed record r and no other element with its id, and with the state
    holding the listing of that store: submitting the form for r replaces
    the stored record of its id, in its place, by a record with the title,
    the content and the tags of the form and with the reading of the clock
    for updatedAt; the id, createdAt and order are kept, and the list that
    is handed to the state is what a new listing of the store gives. *)
Theorem submit_edited_prompt (w : world) (pre post : list json) (r : Prompt)
    (data : PromptFormData) (uuid : string) :
  tidy w (pre ++ prompt_json r :: post) → valid_dates r →
  Forall (λ x, json_prop x "id" ≠ Some (JStr (id r))) (pre ++ post) →
  let r' := {| id := id r;
               title := data_title data;
               content := data_content data;
               tags := form_tags (data_tags data);
               createdAt := createdAt r;
               updatedAt := Instant (clock w (ticks w));
               order := order r |} in
  ∃ w',
    handleSubmit data (Some (prompt_value r))
      (map load (pre ++ prompt_json r :: post)) uuid w
    = (Ok (map load (pre ++ prompt_json r' :: post)), w')
    ∧ stored w' (pre ++ prompt_json r' :: post).
Proof.
  intros (Hw & Hclock & Hst & Hcan & _) Hr Hne r'.
  assert (Hr' : valid_dates r').
  { destruct Hr as (tc & tu & HC & Hc & _). by exists tc, (clock w (ticks w)). }
  apply Forall_app in Hne as [Hpre Hpost].
  pose proof Hcan as Hcan'.
  apply Forall_app in Hcan' as [Hcpre Hcpost].
  apply Forall_cons in Hcpost as [Hcj Hcpost].
  assert (Hupd := updatePrompt_first_match (next_tick w) pre post
                    (prompt_json r) r' (healthy_next_tick w Hw) Hst Hcan Hr'
                    eq_refl Hpre).
  eexists. split; [|apply stored_write].
  unfold handleSubmit, createCurrentDate. unfold new_Date at 1.
  rewrite bind_run. simpl own_props.
  change (VObj (set_prop "updatedAt" _ _)) with (prompt_value r').
  cbv beta iota. rewrite bind_run, Hupd.
  rewrite !map_app, !List.map_cons.
  set (w1 := write_items _ _).
  assert (Hkeep : ∀ l, Forall canonical l →
            Forall (λ x, json_prop x "id" ≠ Some (JStr (id r))) l →
            map (λ p, if has_id (id r') p then prompt_value r' else p)
              (map load l) = map load l).
  { intros l Hl Hnl. rewrite map_map. apply map_ext_in. intros j Hj.
    apply list_elem_of_In in Hj. rewrite Forall_forall in Hl, Hnl.
    by rewrite has_id_load by auto. }
  rewrite (Array_map_pure_id _
             (λ p, if has_id (id r') p then prompt_value r' else p)).
  - rewrite map_app, List.map_cons, !Hkeep by done.
    rewrite (proj2 (has_id_load_iff (id r') (prompt_json r) Hcj)) by done.
    by rewrite load_prompt_json.
  - rewrite <- List.map_cons, <- map_app. apply Forall_fmap, Forall_forall.
    intros j Hj. rewrite Forall_forall in Hcan. simpl.
    destruct (load_is_object j (Hcan j Hj)) as [o Ho].
    by rewrite bind_run, Ho, same_id_object.
Qed.

(** X30: on a healthy world whose stored elements are canonical
    (objects with their two timestamps as savePrompts writes them) and
    with the state holding the listing of that store, deleting a prompt in
    the sidebar keeps the state in step with the store: the list that
    handleDelete hands to the state, computed from the listed prompts, is
    what a new listing of the store gives. *)
Theorem delete_keeps_view_in_sync (w : world) (items : list json)
    (promptId : string) :
  healthy w → stored w items → Forall canonical items →
  ∃ w' items',
    handleDelete promptId (map load items) w = (Ok (map load items'), w')
    ∧ stored w' items'
    ∧ (getPrompts w').1 = Ok (map load items').
Proof.
  intros Hw Hst Hcan. unfold handleDelete.
  erewrite bind_ok by (by apply deletePrompt_run).
  rewrite (Array_filter_pure _ (λ p, negb (has_id promptId p))).
  2:{ apply Forall_fmap, Forall_forall. intros j Hj. by unfold load. }
  rewrite filter_map_swap. eexists _, _. split; [done|].
  split; [apply stored_write|].
  rewrite (getPrompts_canonical _
             (List.filter (λ j, negb (has_id promptId (load j))) items)).
  - done.
  - by apply healthy_write, healthy_next_call, healthy_next_call.
  - apply stored_write.
  - by apply Forall_List_filter.
Qed.

End view_in_sync.

(** ** The further properties at work on the sample engine *)

Section more_samples.
#[local] Existing Instance sample_engine.
#[local] Existing Instance sample_intl.

Lemma rec_a_valid : valid_dates rec_a.
Proof. exists 5%Z, 6%Z. unfold in_range, max_time. repeat split; simpl; lia. Qed.

Lemma NoDup_new_record : NoDup new_record.*1.
Proof.
  repeat (apply NoDup_cons_2;
          [rewrite ?elem_of_cons, ?elem_of_nil; intuition discriminate|]).
  apply NoDup_nil_2.
Qed.

Lemma store_ab_chrome_tidy :
  tidy (E := sample_engine) store_ab_chrome [item_a; item_b].
Proof.
  split; [apply calm_healthy|]. split; [apply calm_clock|].
  split; [by left|]. split.
  - apply Forall_cons_2; [apply item_a_canonical|].
    apply Forall_singleton, item_b_canonical.
  - apply Forall_cons_2; [apply (prompt_json_numeric (E := sample_engine))|].
    apply Forall_singleton, (prompt_json_numeric (E := sample_engine)).
Qed.

Lemma getValidDate_sound_witness :
  ∃ t, Instant 1700000000000 = Instant t
       ∧ ((∀ d', VNum (Fin 1700000000) ≠ VDate d') → in_range t)
       ∧ getValidDate (VDate (Instant 1700000000000))
         = Some (Instant 1700000000000).
Proof.
  apply (getValidDate_sound (E := sample_engine) (VNum (Fin 1700000000))).
  reflexivity.
Defined.

Lemma iso_round_trip_witness :
  (isoString ← dateToISOString (VDate (Instant 5));
   dateFromISOString isoString) store_a
  = (Ok (Instant 5), store_a).
Proof.
  apply (iso_round_trip (E := sample_engine) 5 store_a).
  unfold in_range, max_time. lia.
Defined.

Lemma isValidDate_of_getValidDate_witness :
  isValidDate (VStr "T5") store_a = (Ok true, store_a).
Proof.
  apply (isValidDate_of_getValidDate (E := sample_engine) (VStr "T5")
           (Instant 5) store_a).
  reflexivity.
Defined.

Lemma negative_timestamp_validity_witness :
  isValidDate (VNum (Fin (-5))) store_a = (Ok true, store_a)
  ∧ getValidDate (VNum (Fin (-5))) = None.
Proof.
  apply (negative_timestamp_validity (E := sample_engine) (-5) store_a).
  unfold max_time. lia.
Defined.

Lemma formatRelativeDate_ranges_witness :
  (formatRelativeDate (VDate (Instant 1699999880000)) store_a).1
  = Ok (ago (Fin 2) "minute").
Proof.
  apply (proj1 (proj2 (formatRelativeDate_ranges (E := sample_engine)
                         (VDate (Instant 1699999880000)) 1699999880000
                         store_a eq_refl))).
  simpl. lia.
Defined.

Lemma list_survives_bad_timestamps_witness :
  ∃ prompts w',
    getPrompts store_untimed = (Ok prompts, w')
    ∧ same_store store_untimed w'
    ∧ Forall2 restored [untimed] prompts.
Proof.
  apply (list_survives_bad_timestamps (E := sample_engine) store_untimed
           [untimed]).
  - apply calm_healthy.
  - by left.
  - apply Forall_singleton. by eexists.
Defined.

Lemma null_element_hides_list_witness :
  ∃ w', getPrompts store_null = (Ok [], w').
Proof.
  apply (null_element_hides_list (E := sample_engine) store_null
           [item_a; JNull]).
  - apply calm_healthy.
  - reflexivity.
  - reflexivity.
  - reflexivity.
  - rewrite !elem_of_cons. by right; left.
Defined.

Lemma save_falls_back_witness :
  ∃ w',
    savePrompts [prompt_value rec_b] first_call_fails = (Ok (), w')
    ∧ chrome_item w' = chrome_item first_call_fails
    ∧ local_item w' = Some (JsonText (JArr (map dump [prompt_value rec_b]))).
Proof.
  apply (save_falls_back (E := sample_engine) first_call_fails
           [prompt_value rec_b] (Error "chrome.storage is down")).
  - reflexivity.
  - reflexivity.
  - reflexivity.
  - apply Forall_singleton, wf_savable, prompt_value_wf, rec_b_valid.
Defined.

Lemma create_after_failed_read_witness :
  ∃ w',
    addPrompt (prompt_value rec_b) first_call_fails = (Ok (), w')
    ∧ chrome_item w' = Some (JArr [prompt_json rec_b]).
Proof.
  apply (create_after_failed_read (E := sample_engine) first_call_fails rec_b
           (Error "chrome.storage is down")).
  - reflexivity.
  - reflexivity.
  - intros [|n] Hn; [simpl in Hn; lia|reflexivity].
  - reflexivity.
  - apply rec_b_valid.
Defined.



Lemma create_then_delete_witness :
  ∃ w',
    (addPrompt (prompt_value rec_b);; deletePrompt (id rec_b)) store_a
    = (Ok (), w')
    ∧ stored w' [item_a].
Proof.
  apply (create_then_delete (E := sample_engine) store_a [item_a] rec_b).
  - apply calm_healthy.
  - by left.
  - apply Forall_singleton, item_a_canonical.
  - apply rec_b_valid.
  - intros Hin. apply list_elem_of_singleton in Hin. discriminate.
Defined.

Lemma import_appends_kept_witness :
  ∃ res w1 added,
    importPrompts (Readable (JsonText (JObj new_doc))) store_a = (Ok res, w1)
    ∧ success res = true
    ∧ imported res = length (kept [item_a] [JObj new_record])
    ∧ tidy w1 ([item_a] ++ added)
    ∧ length added = length (kept [item_a] [JObj new_record])
    ∧ ∀ i c, kept [item_a] [JObj new_record] !! i = Some c →
        ∃ a, added !! i = Some a
             ∧ json_prop a "order"
               = Some (JNum (max_order [0%Z] + 1 + Z.of_nat i))
             ∧ json_prop a "id" = json_prop c "id"
             ∧ json_prop a "title" = json_prop c "title"
             ∧ json_prop a "content" = json_prop c "content".
Proof.
  apply (import_appends_kept (E := sample_engine) store_a [item_a] new_doc
           [JObj new_record] [0%Z]).
  - apply store_a_tidy.
  - apply Forall2_cons_2; [reflexivity|apply Forall2_nil_2].
  - apply Forall_singleton. unfold safe_integer. lia.
  - unfold safe_integer. by vm_compute.
  - reflexivity.
  - apply Forall_singleton. eexists. split; [done|]. apply NoDup_new_record.
Defined.

Lemma import_twice_witness :
  ∃ res1 w1 items1 res2 w2,
    importPrompts (Readable (JsonText (JObj new_doc))) store_a = (Ok res1, w1)
    ∧ stored w1 items1
    ∧ importPrompts (Readable (JsonText (JObj new_doc))) w1 = (Ok res2, w2)
    ∧ success res2 = true ∧ imported res2 = 0
    ∧ chrome_item w2 = chrome_item w1 ∧ local_item w2 = local_item w1.
Proof.
  apply (import_twice (E := sample_engine) store_a [item_a] new_doc
           [JObj new_record]).
  - apply store_a_tidy.
  - reflexivity.
  - apply Forall_singleton. eexists. split; [done|].
    split; [apply NoDup_new_record|].
    split; simpl; intros j [= <-]; by eexists.
Defined.

Lemma import_null_record_fails_witness :
  ∃ res w',
    importPrompts (Readable (JsonText (JObj null_doc))) store_a = (Ok res, w')
    ∧ success res = false ∧ imported res = 0
    ∧ same_store store_a w'.
Proof.
  apply (import_null_record_fails (E := sample_engine) store_a null_doc
           [JObj new_record; JNull]).
  - reflexivity.
  - rewrite !elem_of_cons. by right; left.
Defined.

Lemma export_import_restores_witness :
  ∃ d w1 res w2,
    exportPrompts store_ab_chrome = (Ok d, w1)
    ∧ importPrompts (Readable (href d)) (calm true None None) = (Ok res, w2)
    ∧ success res = true ∧ imported res = length [rec_a; rec_b]
    ∧ stored w2
        (imap (λ i r, prompt_json (with_order r (Z.of_nat i))) [rec_a; rec_b]).
Proof.
  apply (export_import_restores (E := sample_engine) store_ab_chrome
           (calm true None None) [rec_a; rec_b]).
  - apply calm_healthy.
  - by left.
  - apply Forall_cons_2; [apply rec_a_valid|].
    apply Forall_singleton, rec_b_valid.
  - apply Forall_cons_2; [by repeat split|].
    apply Forall_singleton. by repeat split.
  - split; [apply calm_healthy|]. split; [apply calm_clock|].
    split; [by right|]. split; apply Forall_nil_2.
Defined.

Lemma export_import_same_store_witness :
  ∃ d w1 res w2,
    exportPrompts store_ab_chrome = (Ok d, w1)
    ∧ importPrompts (Readable (href d)) w1 = (Ok res, w2)
    ∧ success res = true ∧ imported res = 0
    ∧ stored w2 (map prompt_json [rec_a; rec_b]).
Proof.
  apply (export_import_same_store (E := sample_engine) store_ab_chrome
           [rec_a; rec_b]).
  - apply calm_healthy.
  - by left.
  - apply Forall_cons_2; [apply rec_a_valid|].
    apply Forall_singleton, rec_b_valid.
Defined.

Lemma search_narrows_witness :
  ∃ view view',
    filteredPrompts (map prompt_value [rec_a; rec_b]) "ab" "" store_a
    = (Ok (map prompt_value view), store_a)
    ∧ filteredPrompts (map prompt_value [rec_a; rec_b]) "a" "" store_a
      = (Ok (map prompt_value view'), store_a)
    ∧ view `sublist_of` view'.
Proof.
  apply (search_narrows [rec_a; rec_b] "ab" "a" "" store_a).
  reflexivity.
Defined.

Lemma search_ignores_case_witness :
  filteredPrompts [prompt_value rec_a; VNull] "AB" "X" store_a
  = filteredPrompts [prompt_value rec_a; VNull] "ab" "x" store_a.
Proof.
  apply search_ignores_case; reflexivity.
Defined.

Lemma search_throws_on_untyped_title_witness :
  ∃ e w',
    filteredPrompts [prompt_value rec_a; VObj [("title", VNum (Fin 5))]]
      "a" "" store_a
    = (Throw e, w').
Proof.
  apply (search_throws_on_untyped_title _ [("title", VNum (Fin 5))]).
  - discriminate.
  - rewrite !elem_of_cons. by right; left.
  - intros s. simpl. discriminate.
Defined.

Lemma tags_survive_the_form_witness :
  form_tags (tags_text ["dev"; "urgent"]) = ["dev"; "urgent"].
Proof.
  apply tags_survive_the_form.
  apply Forall_cons_2; [by repeat split|].
  apply Forall_singleton. by repeat split.
Defined.

Lemma drag_moves_one_witness :
  ∃ l,
    handleDragEnd [prompt_value rec_a; prompt_value rec_b] 0 (Some 1) = Some l
    ∧ l ≡ₚ [prompt_value rec_a; prompt_value rec_b]
    ∧ l !! 1 = Some (prompt_value rec_a)
    ∧ delete 1 l = delete 0 [prompt_value rec_a; prompt_value rec_b].
Proof.
  apply (drag_moves_one [prompt_value rec_a; prompt_value rec_b] 0 1
           (prompt_value rec_a)).
  - reflexivity.
  - simpl. lia.
  - lia.
Defined.

Lemma load_sorts_by_order_witness :
  ∃ l w',
    loadPrompts store_ab_chrome = (Ok l, w')
    ∧ l ≡ₚ map load [item_a; item_b]
    ∧ StronglySorted order_le l
    ∧ ∀ z, List.filter (has_order z) l
           = List.filter (has_order z) (map load [item_a; item_b]).
Proof.
  apply (load_sorts_by_order (E := sample_engine) store_ab_chrome
           [item_a; item_b]).
  apply store_ab_chrome_tidy.
Defined.

Lemma submit_new_prompt_witness :
  let r := {| id := "fresh";
              title := data_title sample_form;
              content := data_content sample_form;
              tags := form_tags (data_tags sample_form);
              createdAt := Instant (clock store_a (ticks store_a));
              updatedAt := Instant (clock store_a (S (ticks store_a)));
              order := Z.of_nat (length (map load [item_a])) |} in
  ∃ w',
    handleSubmit sample_form None (map load [item_a]) "fresh" store_a
    = (Ok (map load [item_a] ++ [prompt_value r]), w')
    ∧ stored w' ([item_a] ++ [prompt_json r])
    ∧ (getPrompts w').1 = Ok (map load [item_a] ++ [prompt_value r]).
Proof.
  apply (submit_new_prompt (E := sample_engine) store_a [item_a]
           (map load [item_a]) sample_form "fresh").
  apply store_a_tidy.
Defined.

Lemma submit_edited_prompt_witness :
  let r' := {| id := id rec_a;
               title := data_title sample_form;
               content := data_content sample_form;
               tags := form_tags (data_tags sample_form);
               createdAt := createdAt rec_a;
               updatedAt := Instant (clock store_a (ticks store_a));
               order := order rec_a |} in
  ∃ w',
    handleSubmit sample_form (Some (prompt_value rec_a))
      (map load ([] ++ prompt_json rec_a :: [])) "unused" store_a
    = (Ok (map load ([] ++ prompt_json r' :: [])), w')
    ∧ stored w' ([] ++ prompt_json r' :: []).
Proof.
  apply (submit_edited_prompt (E := sample_engine) store_a [] [] rec_a
           sample_form "unused").
  - apply store_a_tidy.
  - apply rec_a_valid.
  - apply Forall_nil_2.
Defined.

Lemma delete_keeps_view_in_sync_witness :
  ∃ w' items',
    handleDelete "a" (map load [item_a]) store_a = (Ok (map load items'), w')
    ∧ stored w' items'
    ∧ (getPrompts w').1 = Ok (map load items').
Proof.
  apply (delete_keeps_view_in_sync (E := sample_engine) store_a [item_a] "a").
  - apply calm_healthy.
  - by left.
  - apply Forall_singleton, item_a_canonical.
Defined.

End more_samples.
